(** * Loopover board engine (loopover.go): a shallow embedding and its properties

    The Go program keeps one [Board] ([[][]int], indexed [board[x][y]],
    column first), rotates rows and columns in place, parses moves written in
    "Programmer's Notation" and shuffles the board with [math/rand].

    Conventions of the embedding:
    - Go's [int] is the 64-bit signed integer.  Values are in [Z]; the
      wrap-around is written out ([wrap]) wherever an operand comes from the
      input text, since [strconv.Atoi] can return any 64-bit value.  Loop
      counters, board sizes and tile values are bounded by the number of
      allocated cells and are computed in [Z] directly.
    - in-place mutation is explicit state passing in a small monad [M S A];
      a run-time panic (index out of range, [rand.Intn] of a non-positive
      bound) is the outcome [Panic], and the state it returns is the store at
      the moment of the panic.
    - a Go result pair [(T, error)] is a sum [T + E].
    - [math/rand] is a stream of raw draws with a cursor. *)

From Stdlib Require Import ZArith Lia.
From Stdlib Require Ascii String.
From stdpp Require Import base tactics option list numbers strings.

Local Open Scope Z_scope.

(** ** Outcomes and the state monad *)

Inductive result (A : Type) : Type :=
  | Ret (a : A)
  | Panic
  | OutOfFuel.
Arguments Ret {A} a.
Arguments Panic {A}.
Arguments OutOfFuel {A}.

Definition M (S A : Type) : Type := S -> result A * S.

Definition ret {S A} (a : A) : M S A := fun s => (Ret a, s).

Definition bind {S A B} (m : M S A) (k : A -> M S B) : M S B :=
  fun s =>
    match m s with
    | (Ret a, s') => k a s'
    | (Panic, s') => (Panic, s')
    | (OutOfFuel, s') => (OutOfFuel, s')
    end.

Definition panic {S A} : M S A := fun s => (Panic, s).
Definition outOfFuel {S A} : M S A := fun s => (OutOfFuel, s).
Definition gets {S A} (f : S -> A) : M S A := fun s => (Ret (f s), s).

Declare Scope go_scope.
Delimit Scope go_scope with go.
Notation "'let*' x := m 'in' k" := (bind m (fun x => k))
  (at level 10, x name, m at level 100, k at level 200) : go_scope.
Notation "'let*' ' pat := m 'in' k" :=
  (bind m (fun x => match x with pat => k end))
  (at level 10, pat pattern, m at level 100, k at level 200) : go_scope.
Notation "m ;;; k" := (bind m (fun _ => k))
  (at level 100, k at level 200, right associativity) : go_scope.
Local Open Scope go_scope.

(** [for _, a := range l { body a }] and counted loops. *)
Fixpoint forEach {S A} (l : list A) (body : A -> M S unit) : M S unit :=
  match l with
  | [] => ret tt
  | a :: l' => body a ;;; forEach l' body
  end.

(** A loop that threads a local variable through its iterations. *)
Fixpoint foldM {S A B} (l : list A) (acc : B) (body : A -> B -> M S B) : M S B :=
  match l with
  | [] => ret acc
  | a :: l' => let* acc' := body a acc in foldM l' acc' body
  end.

(** A loop whose body may [return] from the enclosing function. *)
Fixpoint forEachUntil {S A R} (l : list A) (body : A -> M S (option R)) : M S (option R) :=
  match l with
  | [] => ret None
  | a :: l' =>
      let* r := body a in
      match r with
      | Some v => ret (Some v)
      | None => forEachUntil l' body
      end
  end.

(** The indices [0, 1, ..., n-1] of [for i := 0; i < n; i++], and
    [n-1, ..., 1, 0] of [for i := n - 1; i >= 0; i--]. *)
Definition up (n : Z) : list Z := Z.of_nat <$> seq 0 (Z.to_nat n).
Definition down (n : Z) : list Z := reverse (up n).

(** ** 64-bit integers *)

Definition MinInt : Z := - 2 ^ 63.
Definition MaxInt : Z := 2 ^ 63 - 1.
Definition wrap (z : Z) : Z := (z + 2 ^ 63) mod 2 ^ 64 - 2 ^ 63.
Definition is_int (z : Z) : Prop := MinInt <= z <= MaxInt.

(** Abs returns the absolute value of the integer [a]. *)
Definition Abs (a : Z) : Z :=
  if decide (a > 0) then a else wrap (- a).

(** ** The board *)

(** [type Board [][]int]; [board[x]] is column [x], [board[x][y]] the tile
    in column [x] of row [y]. *)
Abbreviation Board := (list (list Z)).

(** Go's index expression [l[i]]: out of range is a panic. *)
Definition at_ {A} (l : list A) (i : Z) : option A :=
  if decide (0 <= i) then l !! Z.to_nat i else None.

Definition get (b : Board) (x y : Z) : option Z :=
  match at_ b x with
  | Some col => at_ col y
  | None => None
  end.

Definition set (b : Board) (x y v : Z) : option Board :=
  match at_ b x with
  | Some col =>
      match at_ col y with
      | Some _ => Some (<[Z.to_nat x := <[Z.to_nat y := v]> col]> b)
      | None => None
      end
  | None => None
  end.

(** [... = board[x][y]] *)
Definition load (x y : Z) : M Board Z :=
  fun b => match get b x y with
           | Some v => (Ret v, b)
           | None => (Panic, b)
           end.

(** [board[x][y] = v] *)
Definition store (x y v : Z) : M Board unit :=
  fun b => match set b x y v with
           | Some b' => (Ret tt, b')
           | None => (Panic, b)
           end.

(** Width returns the width of the board: [cap( *b)]. *)
Definition Width (b : Board) : Z := Z.of_nat (length b).

(** Height returns the height of the board by looking at the capacity of
    its first column: [cap(( *b)[0])]; it panics on a board with no column. *)
Definition Height (b : Board) : option Z :=
  match at_ b 0 with
  | Some col => Some (Z.of_nat (length col))
  | None => None
  end.

Definition width : M Board Z := gets Width.
Definition height : M Board Z :=
  fun b => match Height b with
           | Some h => (Ret h, b)
           | None => (Panic, b)
           end.

(** defaultTileValue returns the default value of a tile according to its
    coordinate. *)
Definition defaultTileValue (b : Board) (x y : Z) : Z :=
  x + y * Width b + 1.

(** resetTile sets the tile's value to its default. *)
Definition resetTile (x y : Z) : M Board unit :=
  let* v := gets (fun b => defaultTileValue b x y) in
  store x y v.

Inductive BoardError : Type :=
  | ErrWidth   (* "board width must be greater than 1" *)
  | ErrHeight. (* "board height must be greater than 1" *)

(** [b[x] = make([]int, height, height)] *)
Definition storeColumn (x : Z) (col : list Z) : M Board unit :=
  fun b => match at_ b x with
           | Some _ => (Ret tt, <[Z.to_nat x := col]> b)
           | None => (Panic, b)
           end.

(** NewBoard creates a new Board with the given dimensions. *)
Definition NewBoard (width height : Z) : result (Board + BoardError) :=
  if decide (width <= 1) then Ret (inr ErrWidth)
  else if decide (height <= 1) then Ret (inr ErrHeight)
  else
    let b : Board := replicate (Z.to_nat width) [] in
    let fill : M Board unit :=
      forEach (up (Z.of_nat (length b))) (fun x =>
        storeColumn x (replicate (Z.to_nat height) 0) ;;;
        forEach (up height) (fun y => resetTile x y)) in
    match fill b with
    | (Ret _, b') => Ret (inl b')
    | (Panic, _) => Panic
    | (OutOfFuel, _) => OutOfFuel
    end.

(** Reset resets the board by setting all tiles in the default order. *)
Definition Reset : M Board unit :=
  let* w := width in
  forEach (up w) (fun x =>
    let* h := height in
    forEach (up h) (fun y => resetTile x y)).

(** IsSolved returns true if all tiles are in order. *)
Definition IsSolved : M Board bool :=
  let* w := width in
  let* r := forEachUntil (up w) (fun x =>
    let* h := height in
    forEachUntil (up h) (fun y =>
      let* v := load x y in
      let* d := gets (fun b => defaultTileValue b x y) in
      if decide (v <> d) then ret (Some false) else ret None)) in
  match r with
  | Some v => ret v
  | None => ret true
  end.

(** ** Moves *)

(** [type Axis bool]; [HorizontalAxis = iota == 0] is [true] and
    [VerticalAxis] repeats the expression with [iota = 1]: [false]. *)
Definition Axis : Type := bool.
Definition HorizontalAxis : Axis := true.
Definition VerticalAxis : Axis := false.

Record Move : Type := mkMove {
  Move_Axis : Axis;
  Move_Index : Z;
  Move_Amount : Z
}.

(** [board[x][idx], p = p, board[x][idx]]: both right-hand sides are read
    first, then the cell is written and the old cell value becomes [p]. *)
Definition exchange (x y p : Z) : M Board Z :=
  let* v := load x y in
  store x y p ;;;
  ret v.

(** One pass of the outer loop of MakeMove: the line is shifted by one
    place, [forward] or backwards. *)
Definition rotateOnce (m : Move) (forward : bool) : M Board unit :=
  if Move_Axis m then
    if forward then
      let* w := width in
      let* p := load (w - 1) (Move_Index m) in
      let* w := width in
      foldM (up w) p (fun x p => exchange x (Move_Index m) p) ;;;
      ret tt
    else
      let* p := load 0 (Move_Index m) in
      let* w := width in
      foldM (down w) p (fun x p => exchange x (Move_Index m) p) ;;;
      ret tt
  else
    if forward then
      let* h := height in
      let* p := load (Move_Index m) (h - 1) in
      let* h := height in
      foldM (up h) p (fun y p => exchange (Move_Index m) y p) ;;;
      ret tt
    else
      let* p := load (Move_Index m) 0 in
      let* h := height in
      foldM (down h) p (fun y p => exchange (Move_Index m) y p) ;;;
      ret tt.

(** MakeMove modifies the Board by applying a move. A move can shift the
    contents of a column or a row forward or backwards. *)
Definition MakeMove (m : Move) : M Board Z :=
  let amnt := Abs (Move_Amount m) in
  let forward := bool_decide (Move_Amount m > 0) in
  forEach (up amnt) (fun _ => rotateOnce m forward) ;;;
  ret amnt.

(** ** The random source and the shuffles *)

(** The process-wide source of [math/rand]: [rand_source k] is the raw
    value behind the [k]-th draw, [rand_pos] counts the draws made. *)
Record World : Type := mkWorld {
  board : Board;
  rand_source : nat -> Z;
  rand_pos : nat
}.

Definition onBoard {A} (m : M Board A) : M World A :=
  fun w =>
    let '(r, b') := m (board w) in
    (r, mkWorld b' (rand_source w) (rand_pos w)).

(** [rand.Intn(n)]: a value of [[0, n)]; it panics when [n <= 0]. *)
Definition Intn (n : Z) : M World Z :=
  fun w =>
    if decide (n <= 0) then (Panic, w)
    else (Ret (rand_source w (rand_pos w) mod n),
          mkWorld (board w) (rand_source w) (S (rand_pos w))).

(** [for x2, y2 = x1, y1; x1 == x2 || y1 == y2; { x2 = rand.Intn(b.Width());
    y2 = rand.Intn(b.Height()) }]: the loop has no bound of its own, [fuel]
    bounds the number of redraws. *)
Fixpoint redraw (fuel : nat) (x1 y1 x2 y2 : Z) : M World (Z * Z) :=
  if decide (x1 = x2 \/ y1 = y2) then
    match fuel with
    | O => outOfFuel
    | S fuel' =>
        let* w := onBoard width in
        let* x2 := Intn w in
        let* h := onBoard height in
        let* y2 := Intn h in
        redraw fuel' x1 y1 x2 y2
    end
  else ret (x2, y2).

(** [board[x1][y1], board[x2][y2] = board[x2][y2], board[x1][y1]] *)
Definition swapTiles (x1 y1 x2 y2 : Z) : M Board unit :=
  let* v2 := load x2 y2 in
  let* v1 := load x1 y1 in
  store x1 y1 v2 ;;;
  store x2 y2 v1.

(** FastShuffle shuffles the board by going through all the tiles and
    swaping them with a different, random tile. *)
Definition FastShuffle (fuel : nat) : M World unit :=
  let* w := onBoard width in
  forEach (up w) (fun x1 =>
    let* h := onBoard height in
    forEach (up h) (fun y1 =>
      let* '(x2, y2) := redraw fuel x1 y1 x1 y1 in
      onBoard (swapTiles x1 y1 x2 y2))).

(** One pass of the loop of Shuffle, [moves] being the loop counter: a
    random axis, a random index, a random amount of 1 to max-1, the Move
    applied, [moves++]. *)
Definition shufflePass (moves : Z) : M World Z :=
  let* r := Intn 2 in
  let* '(a, max) :=
    if decide (r = 0) then
      let* w := onBoard width in ret (HorizontalAxis, w)
    else
      let* h := onBoard height in ret (VerticalAxis, h) in
  let* index := Intn max in
  let* k := Intn (max - 1) in
  onBoard (MakeMove (mkMove a index (k + 1))) ;;;
  ret (moves + 1).

(** Shuffle shuffles the board by applying [iterations] anmount of Moves
    generated with random parameters. If [iterations] is less or equal to 0,
    b.Width() + b.Height() is used instead. *)
Definition Shuffle (iterations : Z) : M World Z :=
  let* iterations :=
    if decide (iterations = 0) then
      let* w := onBoard width in
      let* h := onBoard height in
      ret (w + h)
    else ret iterations in
  foldM (up iterations) 0 (fun _ moves => shufflePass moves).

(** ** Strings, [strconv] and [unicode]

    A Go string is a sequence of bytes; [bytes] gives the byte values of a
    Rocq string.  The library functions the parsers call are modelled from
    the behaviour the Go documentation and sources give them. *)

Definition bytes (s : string) : list Z :=
  (fun c => Z.of_N (Ascii.N_of_ascii c)) <$> String.list_ascii_of_string s.

Inductive NumError : Type :=
  | ErrSyntax  (* strconv.ErrSyntax: "invalid syntax" *)
  | ErrRange.  (* strconv.ErrRange: "value out of range" *)

Definition maxUint64 : Z := 2 ^ 64 - 1.

(** The digit loop of [strconv.ParseUint(s, 10, 64)]. *)
Fixpoint parseDigits (s : list Z) (n : Z) : Z * option NumError :=
  match s with
  | [] => (n, None)
  | c :: rest =>
      if decide (48 <= c <= 57) then
        let d := c - 48 in
        if decide (n >= maxUint64 / 10 + 1) then (maxUint64, Some ErrRange)
        else
          let n := n * 10 in
          let n1 := (n + d) mod 2 ^ 64 in
          if decide (n1 < n \/ n1 > maxUint64) then (maxUint64, Some ErrRange)
          else parseDigits rest n1
      else (0, Some ErrSyntax)
  end.

Definition ParseUint (s : list Z) : Z * option NumError :=
  match s with
  | [] => (0, Some ErrSyntax)
  | _ => parseDigits s 0
  end.

(** [strconv.Atoi(s)], which is [ParseInt(s, 10, 0)] converted to [int]:
    an optional sign, then decimal digits, the value within 64 bits. *)
Definition Atoi (s : list Z) : Z * option NumError :=
  match s with
  | [] => (0, Some ErrSyntax)
  | c :: rest =>
      let neg := bool_decide (c = 45) in
      let digits := if decide (c = 43 \/ c = 45) then rest else s in
      match ParseUint digits with
      | (_, Some ErrSyntax) => (0, Some ErrSyntax)
      | (un, _) =>
          if decide (neg = false /\ un >= 2 ^ 63) then (2 ^ 63 - 1, Some ErrRange)
          else if decide (neg = true /\ un > 2 ^ 63) then (- 2 ^ 63, Some ErrRange)
          else
            let n := wrap un in
            (if neg then wrap (- n) else n, None)
      end
  end.

(** [strings.IndexAny(s, chars)] for ASCII [chars]: the index of the first
    byte of [s] that is in [chars], or [-1]. *)
Fixpoint IndexAny (s : list Z) (chars : list Z) : Z :=
  match s with
  | [] => -1
  | c :: rest =>
      if decide (c ∈ chars) then 0
      else
        let i := IndexAny rest chars in
        if decide (i = -1) then -1 else i + 1
  end.

(** UTF-8 decoding as [for i, c := range s] and [[]rune(s)] perform it:
    [utf8.DecodeRuneInString] gives the rune at the head of [s] and its width
    in bytes; an invalid or truncated encoding is [RuneError] of width 1. *)
Definition RuneError : Z := 65533.

Definition DecodeRune (s : list Z) : Z * Z :=
  match s with
  | [] => (RuneError, 0)
  | c0 :: t =>
      if decide (c0 < 128) then (c0, 1)
      else if decide (194 <= c0 <= 223) then
        match t with
        | c1 :: _ =>
            if decide (128 <= c1 <= 191)
            then (Z.lor (Z.shiftl (Z.land c0 31) 6) (Z.land c1 63), 2)
            else (RuneError, 1)
        | _ => (RuneError, 1)
        end
      else if decide (224 <= c0 <= 239) then
        match t with
        | c1 :: c2 :: _ =>
            let lo := if decide (c0 = 224) then 160 else 128 in
            let hi := if decide (c0 = 237) then 159 else 191 in
            if decide (lo <= c1 <= hi /\ 128 <= c2 <= 191)
            then (Z.lor (Z.lor (Z.shiftl (Z.land c0 15) 12)
                               (Z.shiftl (Z.land c1 63) 6))
                        (Z.land c2 63), 3)
            else (RuneError, 1)
        | _ => (RuneError, 1)
        end
      else if decide (240 <= c0 <= 244) then
        match t with
        | c1 :: c2 :: c3 :: _ =>
            let lo := if decide (c0 = 240) then 144 else 128 in
            let hi := if decide (c0 = 244) then 143 else 191 in
            if decide (lo <= c1 <= hi /\ 128 <= c2 <= 191 /\ 128 <= c3 <= 191)
            then (Z.lor (Z.lor (Z.lor (Z.shiftl (Z.land c0 7) 18)
                                      (Z.shiftl (Z.land c1 63) 12))
                               (Z.shiftl (Z.land c2 63) 6))
                        (Z.land c3 63), 4)
            else (RuneError, 1)
        | _ => (RuneError, 1)
        end
      else (RuneError, 1)
  end.

(** The pairs [(i, c)] of [for i, c := range s]: [i] is the BYTE index at
    which the rune [c] starts.  [skip] counts the bytes of the current rune
    still to pass over. *)
Fixpoint rangeFrom (skip : nat) (i : Z) (s : list Z) : list (Z * Z) :=
  match s with
  | [] => []
  | _ :: rest =>
      match skip with
      | S k => rangeFrom k (i + 1) rest
      | O =>
          let '(r, size) := DecodeRune s in
          (i, r) :: rangeFrom (Z.to_nat size - 1) (i + 1) rest
      end
  end.

Definition rangeString (s : list Z) : list (Z * Z) := rangeFrom 0 0 s.

(** [[]rune(s)] *)
Definition runes (s : list Z) : list Z := snd <$> rangeString s.

(** [unicode.IsLetter] on Latin-1, where Go answers from its [properties]
    table: A-Z, a-z, U+00AA, U+00B5, U+00BA, U+00C0-U+00D6, U+00D8-U+00F6,
    U+00F8-U+00FF. *)
Definition latin1Letter (r : Z) : bool :=
  bool_decide (65 <= r <= 90 \/ 97 <= r <= 122 \/ r = 170 \/ r = 181 \/ r = 186
               \/ 192 <= r <= 214 \/ 216 <= r <= 246 \/ 248 <= r <= 255).

(** ** Parsing *)

Inductive ParseError : Type :=
  | ErrEmptyInput                   (* "empty input" *)
  | ErrNoMoveCharacter              (* "no move character in move %q" *)
  | ErrInvalidMoveCharacter (c : Z) (* "invalid move character %c in move %q" *)
  | ErrMissingAmount                (* "missing amount in move %q", amountStr empty *)
  | ErrInvalidAmount                (* "invalid number for amount in move %q" *)
  | ErrZeroAmount                   (* "amount cannot be 0 in move %q" *)
  | ErrMissingIndex                 (* "missing amount in move %q", indexStr empty *)
  | ErrInvalidIndex                 (* "invalid number for index in move %q" *)
  | ErrNegativeIndex                (* "amount must be greater or equal to 0 in move %q" *)
  | ErrIndexTooLarge (max : Z).     (* "amount must be lesser to %d in move %q" *)

Section Unicode.

(** The tables of package [unicode] beyond the ranges Go special-cases are
    not part of this program: [letterTable r] stands for membership of [r]
    in [unicode.Letter] above U+00FF, [lowerTable r] for
    [unicode.To(unicode.LowerCase, r)] above U+007F. *)
Variable letterTable : Z -> bool.
Variable lowerTable : Z -> Z.

Definition IsLetter (r : Z) : bool :=
  if decide (0 <= r <= 255) then latin1Letter r else letterTable r.

Definition ToLower (r : Z) : Z :=
  if decide (r <= 127) then
    if decide (65 <= r <= 90) then r + 32 else r
  else lowerTable r.

(** [board.Width()] for the horizontal axis, [board.Height()] for the
    vertical one: the bound ParseMove uses for the index. *)
Definition dimension (axis : Axis) (board : Board) : option Z :=
  if axis then Some (Width board) else Height board.

(** The first loop of ParseMove: the byte index of the first letter, or -1. *)
Fixpoint axisIndex (l : list (Z * Z)) : Z :=
  match l with
  | [] => -1
  | (i, c) :: l' => if IsLetter c then i else axisIndex l'
  end.

(** ParseMove after the axis has been recognised at byte index [ai]. *)
Definition parseAmountIndex (s : list Z) (ai : Z) (axis : Axis) (board : Board)
  : result (Move + ParseError) :=
  let amountStr := take (Z.to_nat ai) s in
  if decide (length amountStr = 0%nat) then Ret (inr ErrMissingAmount)
  else
    match Atoi amountStr with
    | (_, Some _) => Ret (inr ErrInvalidAmount)
    | (amount, None) =>
        if decide (amount = 0) then Ret (inr ErrZeroAmount)
        else
          let indexStr := drop (Z.to_nat (ai + 1)) s in
          if decide (length indexStr = 0%nat) then Ret (inr ErrMissingIndex)
          else
            let reverseIndex :=
              bool_decide (at_ s (Z.of_nat (length s) - 1) = Some 39) in
            let indexStr :=
              if reverseIndex then take (length indexStr - 1) indexStr
              else indexStr in
            match Atoi indexStr with
            | (_, Some _) => Ret (inr ErrInvalidIndex)
            | (index, None) =>
                match (if reverseIndex
                       then (fun d => wrap (d - 1 - index)) <$> dimension axis board
                       else Some index) with
                | None => Panic
                | Some index =>
                    if decide (index < 0) then Ret (inr ErrNegativeIndex)
                    else
                      match dimension axis board with
                      | None => Panic
                      | Some max =>
                          if decide (index >= max)
                          then Ret (inr (ErrIndexTooLarge max))
                          else Ret (inl (mkMove axis index amount))
                      end
                end
            end
    end.

(** ParseMove creates a parsed Move from an input string in Programmer's
    Notation. *)
Definition ParseMove (input : string) (board : Board) : result (Move + ParseError) :=
  let s := bytes input in
  if decide (length s = 0%nat) then Ret (inr ErrEmptyInput)
  else
    let ai := axisIndex (rangeString s) in
    if decide (ai = -1) then Ret (inr ErrNoMoveCharacter)
    else
      match at_ (runes s) ai with
      | None => Panic
      | Some c =>
          let lc := ToLower c in
          if decide (lc = 114) then parseAmountIndex s ai HorizontalAxis board
          else if decide (lc = 99) then parseAmountIndex s ai VerticalAxis board
          else Ret (inr (ErrInvalidMoveCharacter c))
      end.

End Unicode.

Inductive DimError : Type :=
  | ErrEmptyDimension           (* "empty input" *)
  | ErrNotADimension            (* "%q doesn't seem to be a valid dimension" *)
  | ErrAtoi (num : list Z) (e : NumError).
                                (* the *strconv.NumError of Atoi, with its Num *)

(** ParseTwoDimensions converts a string in the format of "WIDTHxHEIGHT",
    "widthXheight", "width*height" into two variables width and height.
    The result is Go's triple [(width, height, err)]. *)
Definition ParseTwoDimensions (input : string) : Z * Z * option DimError :=
  let s := bytes input in
  if decide (length s = 0%nat) then (0, 0, Some ErrEmptyDimension)
  else
    let i := IndexAny s (bytes "xX*") in
    if decide (i = -1) then (0, 0, Some ErrNotADimension)
    else
      match Atoi (take (Z.to_nat i) s) with
      | (width, Some e) => (width, 0, Some (ErrAtoi (take (Z.to_nat i) s) e))
      | (width, None) =>
          match Atoi (drop (Z.to_nat (i + 1)) s) with
          | (height, Some e) =>
              (width, height, Some (ErrAtoi (drop (Z.to_nat (i + 1)) s) e))
          | (height, None) => (width, height, None)
          end
      end.

(** ** Printing the board *)

(** The digit loop of [strconv.FormatInt(i, 10)]: the digits of [u] are
    put in front of [a], the least significant first.
    [for us >= 10 { q := us / 10; a[i] = byte(us - q*10 + '0'); us = q }],
    then [a[i] = byte(us + '0')].  The loop runs once per digit; [fuel]
    bounds its passes. *)
Fixpoint formatBits (fuel : nat) (u : Z) (a : list Z) : list Z :=
  match fuel with
  | O => a
  | S fuel' =>
      if decide (u >= 10) then formatBits fuel' (u / 10) ((u mod 10 + 48) :: a)
      else (u + 48) :: a
  end.

(** A number below [2 ^ n] has at most [n] decimal digits. *)
Definition FormatUint (u : Z) : list Z :=
  formatBits (S (Z.to_nat (Z.log2 u))) u [].

(** [strconv.Itoa(i)]: the decimal of [i], with a minus sign when [i] is
    negative; the magnitude is taken in [uint64]. *)
Definition Itoa (i : Z) : list Z :=
  if decide (i < 0) then 45 :: FormatUint ((- i) mod 2 ^ 64) else FormatUint i.

(** The width [fmt] reads from a format: the number spelled by the digits
    at the head of [s]. *)
Fixpoint parsenum (s : list Z) (num : Z) : Z :=
  match s with
  | c :: rest =>
      if decide (48 <= c <= 57) then parsenum rest (num * 10 + (c - 48))
      else num
  | [] => num
  end.

(** [fmt.Sprintf(" %"+pad+"d", v)] for a [pad] made of decimal digits that
    does not begin with 0 (SprintBoard's [pad] is the Itoa of a positive
    length): a space, then the decimal of [v] with spaces on its left up to
    the width [pad] spells.  A number longer than the width is printed in
    full. *)
Definition Sprintf_pad (pad : list Z) (v : Z) : list Z :=
  let num := Itoa v in
  32 :: replicate (Z.to_nat (parsenum pad 0) - length num) 32 ++ num.

(** SprintBoard formats the board into a grid of rows and columns. *)
Definition SprintBoard : M Board (list Z) :=
  let* w := width in
  let* h := height in
  let pad := Itoa (Z.of_nat (length (Itoa (w * h)))) in
  let* h := height in
  foldM (up h) [] (fun y r =>
    let* w := width in
    let* r := foldM (up w) r (fun x r =>
      let* v := load x y in
      ret (r ++ Sprintf_pad pad v)) in
    let* h := height in
    if decide (y <> h - 1) then ret (r ++ [10]) else ret r).

(** ** The interactive program

    Standard input is the list of the lines [bufio.Scanner] yields, one for
    every [Scan] that succeeds; standard output is the list of the items
    printed.  The package-level tables of [unicode] that [strings.ToLower]
    consults are the [lowerTable] of the parsers. *)

(** [utf8.EncodeRune]: the UTF-8 encoding of [r]; a value that is no
    Unicode scalar is encoded as U+FFFD. *)
Definition EncodeRune (r : Z) : list Z :=
  if decide (0 <= r <= 127) then [r]
  else if decide (0 <= r <= 2047) then
    [Z.lor 192 (Z.shiftr r 6); Z.lor 128 (Z.land r 63)]
  else if decide (r < 0 \/ r > 1114111 \/ 55296 <= r <= 57343) then
    [239; 191; 189]
  else if decide (r <= 65535) then
    [Z.lor 224 (Z.shiftr r 12); Z.lor 128 (Z.land (Z.shiftr r 6) 63);
     Z.lor 128 (Z.land r 63)]
  else
    [Z.lor 240 (Z.shiftr r 18); Z.lor 128 (Z.land (Z.shiftr r 12) 63);
     Z.lor 128 (Z.land (Z.shiftr r 6) 63); Z.lor 128 (Z.land r 63)].

(** [strings.Map(mapping, s)]: every rune of [s] (an invalid byte counts as
    U+FFFD) is replaced by its image, a negative image is dropped. *)
Definition strings_Map (mapping : Z -> Z) (s : list Z) : list Z :=
  mjoin ((fun r => if decide (mapping r < 0) then []
                   else EncodeRune (mapping r)) <$> runes s).

(** The Rocq string with the given bytes: [bytes (ofBytes l) = l]. *)
Definition ofBytes (l : list Z) : string :=
  String.string_of_list_ascii ((fun c => Ascii.ascii_of_N (Z.to_N c)) <$> l).

(** What the program writes to standard output, one item per formatted
    value: text as its bytes, an error printed with [%s] as the error
    itself. *)
Inductive Output : Type :=
  | Text (s : list Z)
  | DimErrorText (e : DimError)
  | BoardErrorText (e : BoardError)
  | ParseErrorText (e : ParseError).

(** The board and the random source, the lines [bufio.Scanner] has still to
    yield from standard input, and what has been written to standard
    output, oldest first. *)
Record Session : Type := mkSession {
  world : World;
  stdin : list string;
  stdout : list Output
}.

Definition onWorld {A} (m : M World A) : M Session A :=
  fun s =>
    let '(r, w') := m (world s) in
    (r, mkSession w' (stdin s) (stdout s)).

(** [b = v], for the Board variable [b] of main. *)
Definition setBoard (v : Board) : M Session unit :=
  fun s =>
    (Ret tt,
     mkSession (mkWorld v (rand_source (world s)) (rand_pos (world s)))
               (stdin s) (stdout s)).

(** [scanner.Scan()] followed by [scanner.Text()]: the next line, or
    [None] when the input has ended. *)
Definition Scan : M Session (option string) :=
  fun s =>
    match stdin s with
    | [] => (Ret None, s)
    | line :: rest => (Ret (Some line), mkSession (world s) rest (stdout s))
    end.

Definition Print (o : Output) : M Session unit :=
  fun s => (Ret tt, mkSession (world s) (stdin s) (stdout s ++ [o])).

Definition Println (text : list Z) : M Session unit :=
  Print (Text (text ++ [10])).

(** [for scanner.Scan() { body }], where the body answers [Some v] when it
    leaves the loop ([break]) and [None] when it goes on ([continue]).
    Every pass takes a line, so the loop makes no more passes than there
    are lines: [n] counts the passes left. *)
Fixpoint scanLoop {R} (n : nat) (body : string -> M Session (option R))
  : M Session (option R) :=
  let* line := Scan in
  match line with
  | None => ret None
  | Some text =>
      let* r := body text in
      match r with
      | Some v => ret (Some v)
      | None =>
          match n with
          | O => outOfFuel
          | S n' => scanLoop n' body
          end
      end
  end.

Definition forScan {R} (body : string -> M Session (option R))
  : M Session (option R) :=
  fun s => scanLoop (length (stdin s)) body s.

Section Program.

Variable letterTable : Z -> bool.
Variable lowerTable : Z -> Z.

(** [strings.ToLower(s)] *)
Definition strings_ToLower (s : list Z) : list Z :=
  strings_Map (ToLower lowerTable) s.

(** ScanShuffle scans user input to answer certain questions and execute
    either a fast or a normal shuffle.  Both ways through the body of
    [for !done && scanner.Scan()] end the loop, so it reads one line.  The
    [iters] that [iters, err := strconv.Atoi(s)] declares is a variable of
    the [if] block: the [iters] handed to Shuffle is the one declared by
    [var iters int], which nothing assigns.  [fuel] bounds the redraws of
    FastShuffle. *)
Definition ScanShuffle (fuel : nat) : M Session unit :=
  Print (Text (bytes "Fast shuffle? [Y/n]: ")) ;;;
  let* line := Scan in
  match line with
  | None => ret tt
  | Some text =>
      let s := strings_ToLower (bytes text) in
      if decide (s <> bytes "n") then
        onWorld (FastShuffle fuel) ;;;
        Println (bytes "Fast shuffled board")
      else
        let iters := 0 in
        Print (Text (bytes
          "How many iterations? 0 uses the default number of iterations: ")) ;;;
        forScan (fun s =>
          if decide (length (bytes s) <> 0%nat) then
            match Atoi (bytes s) with
            | (_, Some _) =>
                Print (Text (bytes "Invalid number, try again: ")) ;;;
                ret None
            | (iters', None) =>
                let iters' := if decide (iters' < 0) then 0 else iters' in
                ret (Some tt)
            end
          else ret (Some tt)) ;;;
        let* finalIters := onWorld (Shuffle iters) in
        Print (Text (bytes "Shuffled board with " ++ Itoa finalIters
                     ++ bytes " iterations" ++ [10]))
  end.

(** The first loop of main: it reads lines until one gives a board. *)
Definition scanSize : M Session unit :=
  forScan (fun s =>
    let '(w, h, err) :=
      if decide (length (bytes s) = 0%nat) then (5, 5, None)
      else ParseTwoDimensions s in
    match err with
    | Some e =>
        Print (Text (bytes "Invalid size (")) ;;;
        Print (DimErrorText e) ;;;
        Print (Text (bytes "), try again: ")) ;;;
        ret None
    | None =>
        match NewBoard w h with
        | Ret (inl b) => setBoard b ;;; ret (Some tt)
        | Ret (inr e) =>
            setBoard [] ;;;
            Print (Text (bytes "Error creating board (")) ;;;
            Print (BoardErrorText e) ;;;
            Print (Text (bytes "), try again: ")) ;;;
            ret None
        | Panic => panic
        | OutOfFuel => outOfFuel
        end
    end) ;;;
  ret tt.

(** One pass of the game loop of main, [n] being the count of moves: the
    board is presented and lines are read until one is carried out.  The
    result is the new count. *)
Definition gameTurn (fuel : nat) (n : Z) : M Session Z :=
  Println [] ;;;
  Println (bytes "Board state:") ;;;
  let* text := onWorld (onBoard SprintBoard) in
  Println text ;;;
  Print (Text (Itoa n ++ bytes " moves so far" ++ [10])) ;;;
  let* solved := onWorld (onBoard IsSolved) in
  (if solved then Println (bytes "Solved") else ret tt) ;;;
  Print (Text (bytes "Move: ")) ;;;
  let* r := forScan (fun text =>
    let s := strings_ToLower (bytes text) in
    if decide (s = bytes "shuffle") then
      ScanShuffle fuel ;;;
      ret (Some n)
    else if decide (s = bytes "reset") then
      onWorld (onBoard Reset) ;;;
      Println (bytes "Board reset") ;;;
      ret (Some 0)
    else
      let* b := gets (fun s => board (world s)) in
      match ParseMove letterTable lowerTable (ofBytes s) b with
      | Ret (inl m) =>
          let* k := onWorld (onBoard (MakeMove m)) in
          ret (Some (wrap (n + k)))
      | Ret (inr e) =>
          Print (Text (bytes "Invalid move (")) ;;;
          Print (ParseErrorText e) ;;;
          Print (Text (bytes "), try again: ")) ;;;
          ret None
      | Panic => panic
      | OutOfFuel => outOfFuel
      end) in
  ret (default n r).

(** [for { ... }]: the game loop has no exit; [turns] bounds its passes. *)
Fixpoint gameLoop (turns fuel : nat) (n : Z) : M Session unit :=
  match turns with
  | O => outOfFuel
  | S turns' =>
      let* n := gameTurn fuel n in
      gameLoop turns' fuel n
  end.

Definition main (turns fuel : nat) : M Session unit :=
  setBoard [] ;;;
  Print (Text (bytes "Input board size (default is 5x5): ")) ;;;
  scanSize ;;;
  gameLoop turns fuel 0.

End Program.

(** * Notions used in the statements *)

(** ** Shape of a board and cell access *)

(** A board of [w] columns, each of [h] tiles. *)
Definition rect (w h : nat) (b : Board) : Prop :=
  length b = w /\ Forall (fun col : list Z => length col = h) b.

Definition inside (w h : nat) (c : Z * Z) : Prop :=
  0 <= c.1 < Z.of_nat w /\ 0 <= c.2 < Z.of_nat h.

Definition cell (b : Board) (c : Z * Z) : option Z := get b c.1 c.2.

(** ** Shifting tiles along a path of cells *)

Definition shiftAlong (path : list (Z * Z)) (p : Z) : M Board Z :=
  foldM path p (fun c p => exchange c.1 c.2 p).

(** The tiles met along a path. *)
Definition vals (b : Board) (path : list (Z * Z)) : list Z :=
  (fun c => default 0 (cell b c)) <$> path.

(** ** Rotations of a list, in the words of the README: the last value is
    carried to the front and the others move one place on, or the reverse. *)

Definition rotateRight (l : list Z) : list Z :=
  match last l with
  | Some a => a :: take (length l - 1) l
  | None => []
  end.

Definition rotateLeft (l : list Z) : list Z :=
  match l with
  | a :: l' => l' ++ [a]
  | [] => []
  end.

(** ** The line of a move *)

(** The cells of row [idx] (horizontal axis) or of column [idx] (vertical
    axis) of a [w] by [h] board, in the order of the forward loop. *)
Definition line (axis : Axis) (idx : Z) (w h : nat) : list (Z * Z) :=
  if axis then (fun x => (x, idx)) <$> up (Z.of_nat w)
  else (fun y => (idx, y)) <$> up (Z.of_nat h).

(** The board has such a line: rows are numbered up to the height, columns
    up to the width. *)
Definition line_exists (axis : Axis) (idx : Z) (w h : nat) : Prop :=
  if axis then 0 <= idx < Z.of_nat h else 0 <= idx < Z.of_nat w.

#[global] Instance line_exists_dec axis idx w h :
  Decision (line_exists axis idx w h).
Proof. unfold line_exists. destruct axis; apply _. Defined.

Definition on_line (axis : Axis) (idx : Z) (c : Z * Z) : Prop :=
  if axis then c.2 = idx else c.1 = idx.

#[global] Instance on_line_dec axis idx c : Decision (on_line axis idx c).
Proof. unfold on_line. destruct axis; apply _. Defined.

(** ** One pass of MakeMove's loop *)

Definition rotated (forward : bool) (l : list Z) : list Z :=
  if forward then rotateRight l else rotateLeft l.

(** The board after one pass. *)
Definition turn (m : Move) (forward : bool) (b : Board) : Board :=
  (rotateOnce m forward b).2.

(** ** Moves *)

Definition forward_of (m : Move) : bool := bool_decide (Move_Amount m > 0).

(** The move with the same axis and index and the amount negated, [-amount]
    in Go's arithmetic. *)
Definition negated (m : Move) : Move :=
  mkMove (Move_Axis m) (Move_Index m) (wrap (- Move_Amount m)).

(** What ParseMove has checked of a Move it returns, and what the draws of
    Shuffle satisfy: a nonzero 64-bit amount and an index below the bound
    the program uses for the axis, the width for the horizontal axis and the
    height for the vertical one. *)
Definition validated (b : Board) (m : Move) : Prop :=
  is_int (Move_Amount m) /\ Move_Amount m <> 0 /\
  exists max, dimension (Move_Axis m) b = Some max /\ 0 <= Move_Index m < max.

(** ** Filling an array slot by slot *)

(** [l] with the slots [j, ..., j+n-1] set to [F j, ..., F (j+n-1)]. *)
Definition fill {A} (F : nat -> A) (j n : nat) (l : list A) : list A :=
  take j l ++ (F <$> seq j n) ++ drop (j + n) l.

(** ** The solved board *)

Definition solvedColumn (w h : nat) (x : nat) : list Z :=
  (fun y => Z.of_nat x + Z.of_nat y * Z.of_nat w + 1) <$> seq 0 h.

Definition solved (w h : nat) : Board := solvedColumn w h <$> seq 0 w.

(** ** The multiset invariant *)

(** The tiles of the board are the numbers 1, ..., w*h, each once. *)
Definition numbered (w h : nat) (b : Board) : Prop :=
  rect w h b /\ concat b ≡ₚ Z.of_nat <$> seq 1 (w * h).

(** ** Invariants of monadic code *)

(** [I] holds of the state [m] stops in, whatever the outcome. *)
Definition preserves {S A} (I : S -> Prop) (m : M S A) : Prop :=
  forall s, I s -> I (m s).2.

(** [m], started in a state of [P], does not panic, and when it returns
    [a] in the state [s'], [Q a s'] holds. *)
Definition safely {S A} (P : S -> Prop) (m : M S A) (Q : A -> S -> Prop) : Prop :=
  forall s, P s ->
    match m s with
    | (Ret a, s') => Q a s'
    | (Panic, _) => False
    | (OutOfFuel, _) => True
    end.

(** ** ParseTwoDimensions *)

(** The separators: "x", "X" and "*". *)
Definition separators : list Z := [120; 88; 42].

(** What ParseTwoDimensions returns on an input with a separator, from the
    text before the first separator and the text after it. *)
Definition dimensionsOf (before after : list Z) : Z * Z * option DimError :=
  match Atoi before with
  | (width, Some e) => (width, 0, Some (ErrAtoi before e))
  | (width, None) =>
      match Atoi after with
      | (height, Some e) => (width, height, Some (ErrAtoi after e))
      | (height, None) => (width, height, None)
      end
  end.

(** ** The bytes of a numeral *)

Definition digit (c : Z) : Prop := 48 <= c <= 57.
Definition numeralByte (c : Z) : Prop := c = 43 \/ c = 45 \/ digit c.

(** ** Scanning an input for its axis letter *)

Definition asciiLetter (c : Z) : Prop := 65 <= c <= 90 \/ 97 <= c <= 122.

#[global] Instance asciiLetter_dec c : Decision (asciiLetter c).
Proof. unfold asciiLetter. apply _. Defined.

(** ParseMove after the axis letter, in terms of the text [pre] before the
    letter and the text [post] after it. *)
Definition parseParts (pre post : list Z) (axis : Axis) (board : Board)
  : result (Move + ParseError) :=
  if decide (pre = []) then Ret (inr ErrMissingAmount)
  else
    match Atoi pre with
    | (_, Some _) => Ret (inr ErrInvalidAmount)
    | (amount, None) =>
        if decide (amount = 0) then Ret (inr ErrZeroAmount)
        else if decide (post = []) then Ret (inr ErrMissingIndex)
        else
          let reverseIndex := bool_decide (last post = Some 39) in
          let indexStr :=
            if reverseIndex then take (length post - 1) post else post in
          match Atoi indexStr with
          | (_, Some _) => Ret (inr ErrInvalidIndex)
          | (index, None) =>
              match (if reverseIndex
                     then (fun d => wrap (d - 1 - index)) <$> dimension axis board
                     else Some index) with
              | None => Panic
              | Some index =>
                  if decide (index < 0) then Ret (inr ErrNegativeIndex)
                  else
                    match dimension axis board with
                    | None => Panic
                    | Some max =>
                        if decide (index >= max)
                        then Ret (inr (ErrIndexTooLarge max))
                        else Ret (inl (mkMove axis index amount))
                    end
              end
          end
    end.

(** Tables for the closed examples below: their inputs hold no rune above
    U+00FF, so no entry of either table is consulted. *)
Definition noLetterTable : Z -> bool := fun _ => false.
Definition noCaseTable : Z -> Z := fun r => r.

(** ** The inputs ParseMove rejects *)

Definition letterFree (s : list Z) : Prop :=
  Forall (fun c => 0 <= c < 128 /\ ~ asciiLetter c) s.

(** Whether the text after the axis letter ends in an apostrophe, and that
    text without it. *)
Definition reversedIndex (post : list Z) : bool := bool_decide (last post = Some 39).
Definition indexText (post : list Z) : list Z :=
  if reversedIndex post then take (length post - 1) post else post.

(** The amount and the index of an input pass the checks: the text before
    the letter is a nonzero number, the text after it a number that, after
    the reverse-index transform if any, lies in [0, dim).  "Number" is what
    Atoi accepts: an optional sign and decimal digits within 64 bits. *)
Definition partsAccepted (pre post : list Z) (dim : Z) : Prop :=
  pre <> [] /\ (Atoi pre).2 = None /\ (Atoi pre).1 <> 0 /\
  post <> [] /\ (Atoi (indexText post)).2 = None /\
  0 <= (if reversedIndex post then dim - 1 - (Atoi (indexText post)).1
        else (Atoi (indexText post)).1) < dim.

#[global] Instance partsAccepted_dec pre post dim : Decision (partsAccepted pre post dim).
Proof. unfold partsAccepted. apply _. Defined.

(** The inputs the specification lists: the empty string, a string without
    letter, a first letter other than r, R, c, C, and an amount or an index
    that does not pass. *)
Definition rejected (s : list Z) (w h : Z) : Prop :=
  s = [] \/ letterFree s \/
  exists pre a post, s = pre ++ a :: post /\ letterFree pre /\ asciiLetter a /\
    (a ∉ [114; 82; 99; 67] \/
     ~ partsAccepted pre post (if decide (a = 114 \/ a = 82) then w else h)).

(** ** Inputs of the closed examples *)

(** The two bytes of U+00D7, the multiplication sign, followed by "r". *)
Definition timesR : string :=
  String (Ascii.ascii_of_nat 195) (String (Ascii.ascii_of_nat 151) "r").

(** A source of random numbers that starts 0, 1, 1, 1 and goes on with 0. *)
Definition draws0111 (k : nat) : Z := nth k [0; 1; 1; 1] 0.

(** ** Decision procedures *)

#[global] Instance is_int_dec z : Decision (is_int z).
Proof. unfold is_int. apply _. Defined.

#[global] Instance rect_dec w h b : Decision (rect w h b).
Proof. unfold rect. apply _. Defined.

(** ** Places on a line *)

(** The cell at place [i] of row [idx] (horizontal axis) or of column
    [idx] (vertical axis), and the number of places such a line has. *)
Definition place (axis : Axis) (idx i : Z) : Z * Z :=
  if axis then (i, idx) else (idx, i).

Definition lineLength (axis : Axis) (w h : nat) : Z :=
  if axis then Z.of_nat w else Z.of_nat h.

(** The signed number of places by which MakeMove shifts a line: the
    amount itself, but for the least 64-bit integer, whose Abs is negative,
    so that the loop of MakeMove makes no pass: 0. *)
Definition shiftOf (amount : Z) : Z :=
  if decide (amount = MinInt) then 0 else amount.

(** ** The printed board *)

(** [s] with spaces on its left up to [n] bytes. *)
Definition rjust (n : nat) (s : list Z) : list Z :=
  replicate (n - length s) 32 ++ s.

(** A tile as it is printed in a column of [P] digits, a row of the board,
    and rows joined by newlines. *)
Definition cellText (P : nat) (b : Board) (c : Z * Z) : list Z :=
  32 :: rjust P (Itoa (default 0 (cell b c))).

Definition rowText (P w : nat) (b : Board) (y : Z) : list Z :=
  mjoin ((fun x => cellText P b (x, y)) <$> up (Z.of_nat w)).

Definition joinLines (rows : list (list Z)) : list Z :=
  match rows with
  | [] => []
  | r :: rest => r ++ mjoin ((fun r => 10 :: r) <$> rest)
  end.

(** The number of digits of the largest tile of a [w] by [h] board. *)
Definition tileDigits (w h : nat) : nat :=
  length (Itoa (Z.of_nat w * Z.of_nat h)).

(** ** Lines typed by the user *)

(** A line that the first loop of main turns down: it is not empty and
    either is no pair of dimensions or gives a side below 2. *)
Definition sizeRejected (line : string) : Prop :=
  bytes line <> [] /\
  match ParseTwoDimensions line with
  | (_, _, Some _) => True
  | (w, h, None) => w <= 1 \/ h <= 1
  end.

(** A line that the first loop of main takes: the empty line stands for
    5x5, any other line gives two sides above 1. *)
Definition sizeAccepted (line : string) (w h : Z) : Prop :=
  1 < w /\ 1 < h /\
  if decide (bytes line = []) then w = 5 /\ h = 5
  else ParseTwoDimensions line = (w, h, None).

(** * Properties *)

(** ** Running monadic code *)

Lemma bind_Ret {S A B} (m : M S A) (k : A -> M S B) s a s' :
  m s = (Ret a, s') -> bind m k s = k a s'.
Proof. unfold bind. by intros ->. Qed.

Lemma bind_Panic {S A B} (m : M S A) (k : A -> M S B) s s' :
  m s = (Panic, s') -> bind m k s = (Panic, s').
Proof. unfold bind. by intros ->. Qed.

Lemma bind_OutOfFuel {S A B} (m : M S A) (k : A -> M S B) s s' :
  m s = (OutOfFuel, s') -> bind m k s = (OutOfFuel, s').
Proof. unfold bind. by intros ->. Qed.

Lemma bind_ext {S A B} (m : M S A) (k1 k2 : A -> M S B) s :
  (forall a s', m s = (Ret a, s') -> k1 a s' = k2 a s') ->
  bind m k1 s = bind m k2 s.
Proof. unfold bind. destruct (m s) as [[a| |] s']; auto. Qed.

Lemma bind_Ret_inv {S A B} (m : M S A) (k : A -> M S B) s b s' :
  bind m k s = (Ret b, s') ->
  exists a s1, m s = (Ret a, s1) /\ k a s1 = (Ret b, s').
Proof.
  unfold bind. destruct (m s) as [[a| |] s1]; [eauto|done..].
Qed.

Lemma foldM_fmap {S A B C} (f : A -> C) (l : list A) (acc : B)
    (body : C -> B -> M S B) (s : S) :
  foldM (f <$> l) acc body s = foldM l acc (fun a => body (f a)) s.
Proof.
  revert acc s. induction l as [|a l IH]; intros acc s; simpl; [done|].
  unfold bind. destruct (body (f a) acc s) as [[acc'| |] s']; auto.
Qed.

Lemma forEach_iter {S A} (P : S -> Prop) (body : M S unit) (l : list A) s :
  (forall s, P s -> exists s', body s = (Ret tt, s') /\ P s') -> P s ->
  forEach l (fun _ => body) s =
    (Ret tt, Nat.iter (length l) (fun s => (body s).2) s) /\
  P (Nat.iter (length l) (fun s => (body s).2) s).
Proof.
  intros Hbody. revert s. induction l as [|a l IH]; intros s Hs; [done|].
  destruct (Hbody s Hs) as (s' & Hrun & Hs').
  destruct (IH s' Hs') as [Hl HP].
  cbn [forEach length]. rewrite Nat.iter_succ_r.
  rewrite (bind_Ret _ _ _ _ _ Hrun), Hrun. simpl. done.
Qed.

Lemma forEach_panic {S A} (body : M S unit) (l : list A) s :
  l <> [] -> body s = (Panic, s) -> forEach l (fun _ => body) s = (Panic, s).
Proof.
  intros Hl Hbody. destruct l as [|a l]; [done|].
  cbn [forEach]. by apply bind_Panic.
Qed.

Lemma forEach_two {S A} (x y : A) (body : A -> M S unit) s s' :
  forEach [x; y] body s = (Ret tt, s') ->
  exists s1, body x s = (Ret tt, s1) /\ body y s1 = (Ret tt, s').
Proof.
  cbn [forEach]. intros ([] & s1 & Hx & Hrest)%bind_Ret_inv.
  apply bind_Ret_inv in Hrest as ([] & s2 & Hy & Hret).
  unfold ret in Hret. simplify_eq. eauto.
Qed.

Lemma forEachUntil_None {S A R} (l : list A) (body : A -> M S (option R)) s :
  (forall a, a ∈ l -> body a s = (Ret None, s)) ->
  forEachUntil l body s = (Ret None, s).
Proof.
  induction l as [|a l IH]; intros Hbody; [done|].
  cbn [forEachUntil]. rewrite (bind_Ret _ _ _ _ _ (Hbody a ltac:(left))).
  apply IH. intros a' Ha'. apply Hbody. by right.
Qed.

Lemma iter_inverse {S} (P : S -> Prop) (f g : S -> S) n s :
  (forall s, P s -> P (f s)) -> (forall s, P s -> g (f s) = s) -> P s ->
  Nat.iter n g (Nat.iter n f s) = s.
Proof.
  intros Hf Hgf. revert s. induction n as [|n IH]; intros s Hs; [done|].
  assert (forall k s, P s -> P (Nat.iter k f s)) as Hk.
  { clear -Hf. induction k as [|k IHk]; intros s Hs; simpl; auto. }
  rewrite (Nat.iter_succ_r n g), (Nat.iter_succ n f).
  rewrite Hgf by auto. by apply IH.
Qed.

Lemma preserves_ret {S A} (I : S -> Prop) (a : A) : preserves I (ret a).
Proof. by intros s Hs. Qed.

Lemma preserves_bind {S A B} (I : S -> Prop) (m : M S A) (k : A -> M S B) :
  preserves I m -> (forall a, preserves I (k a)) -> preserves I (bind m k).
Proof.
  intros Hm Hk s Hs. specialize (Hm s Hs). unfold bind.
  destruct (m s) as [[a| |] s']; simpl in *; [by apply Hk|done..].
Qed.

Lemma preserves_forEach {S A} (I : S -> Prop) (l : list A) (body : A -> M S unit) :
  (forall a, preserves I (body a)) -> preserves I (forEach l body).
Proof.
  intros Hb. induction l as [|a l IH]; [apply preserves_ret|].
  apply preserves_bind; [apply Hb|]. by intros _.
Qed.

Lemma preserves_foldM {S A B} (I : S -> Prop) (l : list A) (acc : B)
    (body : A -> B -> M S B) :
  (forall a acc, preserves I (body a acc)) -> preserves I (foldM l acc body).
Proof.
  intros Hb. revert acc. induction l as [|a l IH]; intros acc;
    [apply preserves_ret|].
  apply preserves_bind; [apply Hb|]. intros acc'. apply IH.
Qed.

Lemma preserves_pure {S A} (I : S -> Prop) (m : M S A) :
  (forall s, (m s).2 = s) -> preserves I m.
Proof. intros Hm s Hs. by rewrite Hm. Qed.

(** ** 64-bit arithmetic *)

Lemma wrap_small z : is_int z -> wrap z = z.
Proof.
  unfold is_int, MinInt, MaxInt, wrap.
  change (2 ^ 63) with 9223372036854775808.
  change (2 ^ 64) with 18446744073709551616.
  intros Hz. rewrite Z.mod_small; lia.
Qed.

Lemma wrap_above z : 2 ^ 63 <= z < 2 ^ 63 + 2 ^ 64 -> wrap z = z - 2 ^ 64.
Proof.
  unfold wrap.
  change (2 ^ 63) with 9223372036854775808.
  change (2 ^ 64) with 18446744073709551616.
  intros Hz.
  rewrite <- (Z.mod_add _ (-1)) by lia.
  rewrite Z.mod_small; lia.
Qed.

Lemma wrap_is_int z : is_int (wrap z).
Proof.
  unfold is_int, MinInt, MaxInt, wrap.
  change (2 ^ 63) with 9223372036854775808.
  change (2 ^ 64) with 18446744073709551616.
  pose proof (Z.mod_pos_bound (z + 9223372036854775808) 18446744073709551616).
  lia.
Qed.

Lemma wrap_neg_MinInt : wrap (- MinInt) = MinInt.
Proof. reflexivity. Qed.

Lemma Abs_pos a : a > 0 -> Abs a = a.
Proof. intros Ha. unfold Abs. by rewrite decide_True. Qed.

Lemma Abs_neg a : is_int a -> a <= 0 -> a <> MinInt -> Abs a = - a.
Proof.
  intros Hi Ha Hm. unfold Abs. rewrite decide_False by lia.
  apply wrap_small. unfold is_int, MinInt, MaxInt in *.
  change (2 ^ 63) with 9223372036854775808 in *. lia.
Qed.

Lemma Abs_MinInt : Abs MinInt = MinInt.
Proof. reflexivity. Qed.

Lemma reverse_in_range dim i :
  is_int i -> 2 <= dim -> is_int dim ->
  0 <= wrap (dim - 1 - i) < dim <-> 0 <= dim - 1 - i < dim.
Proof.
  unfold is_int, MinInt, MaxInt.
  change (2 ^ 63) with 9223372036854775808. intros Hi Hd Hid.
  destruct (decide (dim - 1 - i <= 9223372036854775807)) as [Hsmall|Hbig].
  - rewrite (wrap_small (dim - 1 - i)); [done|].
    unfold is_int, MinInt, MaxInt.
    change (2 ^ 63) with 9223372036854775808. lia.
  - rewrite (wrap_above (dim - 1 - i)).
    + change (2 ^ 64) with 18446744073709551616. lia.
    + change (2 ^ 63) with 9223372036854775808.
      change (2 ^ 64) with 18446744073709551616. lia.
Qed.

(** ** Index ranges and lists *)

Lemma up_of_nat (n : nat) : up (Z.of_nat n) = Z.of_nat <$> seq 0 n.
Proof. unfold up. by rewrite Nat2Z.id. Qed.

Lemma up_nonpos n : n <= 0 -> up n = [].
Proof. intros Hn. unfold up. by replace (Z.to_nat n) with 0%nat by lia. Qed.

Lemma up_S (n : nat) : up (Z.of_nat (S n)) = up (Z.of_nat n) ++ [Z.of_nat n].
Proof. rewrite !up_of_nat, seq_S, fmap_app. done. Qed.

Lemma up_length n : length (up n) = Z.to_nat n.
Proof. unfold up. by rewrite length_fmap, length_seq. Qed.

Lemma elem_of_up n i : i ∈ up n <-> 0 <= i < n.
Proof.
  unfold up. rewrite list_elem_of_fmap. split.
  - intros (k & -> & Hk). apply elem_of_seq in Hk. lia.
  - intros Hi. exists (Z.to_nat i). split; [lia|]. apply elem_of_seq. lia.
Qed.

Lemma NoDup_up n : NoDup (up n).
Proof.
  unfold up. apply NoDup_fmap_2; [|apply NoDup_seq].
  intros ? ?. apply Nat2Z.inj.
Qed.

Lemma up_lookup n (k : nat) : (k < Z.to_nat n)%nat -> up n !! k = Some (Z.of_nat k).
Proof.
  intros Hk. unfold up. rewrite list_lookup_fmap, lookup_seq_lt by done. done.
Qed.

Lemma elem_of_down n i : i ∈ down n <-> 0 <= i < n.
Proof. unfold down. by rewrite elem_of_reverse, elem_of_up. Qed.

Lemma last_cons_default {A} (l : list A) (a d : A) :
  List.last (a :: l) d = List.last l a.
Proof.
  revert a d. induction l as [|x l IH]; intros a d; [done|].
  change (List.last (a :: x :: l) d) with (List.last (x :: l) d).
  by rewrite !IH.
Qed.

Lemma drop_middle {A} (l1 : list A) (x : A) (l2 : list A) :
  drop (S (length l1)) (l1 ++ x :: l2) = l2.
Proof. induction l1 as [|a l1 IH]; [done|]. simpl. exact IH. Qed.

Lemma rotateRight_snoc l a : rotateRight (l ++ [a]) = a :: l.
Proof.
  unfold rotateRight. rewrite last_snoc, length_app. simpl.
  replace (length l + 1 - 1)%nat with (length l) by lia.
  by rewrite take_app_length.
Qed.

Lemma rotateLeft_rotateRight l : rotateLeft (rotateRight l) = l.
Proof.
  induction l as [|a l _] using rev_ind; [done|].
  by rewrite rotateRight_snoc.
Qed.

Lemma rotateRight_rotateLeft l : rotateRight (rotateLeft l) = l.
Proof. destruct l as [|a l]; [done|]. simpl. apply rotateRight_snoc. Qed.

Lemma reverse_rotateRight_reverse l :
  reverse (rotateRight (reverse l)) = rotateLeft l.
Proof.
  destruct l as [|a l]; [done|].
  rewrite reverse_cons, rotateRight_snoc, reverse_cons, reverse_involutive.
  done.
Qed.

Lemma rotateRight_length l : length (rotateRight l) = length l.
Proof.
  induction l as [|a l _] using rev_ind; [done|].
  rewrite rotateRight_snoc, length_app. simpl. lia.
Qed.

Lemma rotateLeft_length l : length (rotateLeft l) = length l.
Proof. destruct l; simpl; [done|]. rewrite length_app. simpl. lia. Qed.

Lemma rotated_inverse forward l : rotated (negb forward) (rotated forward l) = l.
Proof.
  destruct forward; simpl;
    [apply rotateLeft_rotateRight | apply rotateRight_rotateLeft].
Qed.

Lemma fill_none {A} (F : nat -> A) j l : fill F j 0 l = l.
Proof. unfold fill. simpl. rewrite Nat.add_0_r. apply take_drop. Qed.

Lemma fill_step {A} (F : nat -> A) j n l :
  (j < length l)%nat -> fill F (S j) n (<[j:=F j]> l) = fill F j (S n) l.
Proof.
  intros Hj. unfold fill.
  rewrite (take_S_r _ j (F j)) by (by apply list_lookup_insert_eq).
  rewrite take_insert_ge by done.
  rewrite drop_insert_lt by lia.
  rewrite <- cons_seq, fmap_cons, <- app_assoc. simpl.
  by replace (j + S n)%nat with (S (j + n)) by lia.
Qed.

Lemma fill_all {A} (F : nat -> A) n l :
  length l = n -> fill F 0 n l = F <$> seq 0 n.
Proof. intros <-. unfold fill. simpl. by rewrite drop_all, app_nil_r. Qed.

Lemma fill_length {A} (F : nat -> A) j n l :
  (j + n <= length l)%nat -> length (fill F j n l) = length l.
Proof.
  intros Hl. unfold fill.
  rewrite !length_app, length_take, length_fmap, length_seq, length_drop. lia.
Qed.

Lemma insert_Permutation (l : list Z) (j : nat) (v v0 : Z) :
  l !! j = Some v0 -> v :: l ≡ₚ v0 :: <[j:=v]> l.
Proof.
  revert j. induction l as [|a l IH]; intros [|j] Hj; simplify_eq/=.
  - apply Permutation_swap.
  - etrans; [apply Permutation_swap|].
    etrans; [apply perm_skip, (IH _ Hj)|]. apply Permutation_swap.
Qed.

Lemma concat_insert_Permutation (b : Board) (i : nat) (col col' : list Z) (v v0 : Z) :
  b !! i = Some col -> v :: col ≡ₚ v0 :: col' ->
  v :: concat b ≡ₚ v0 :: concat (<[i:=col']> b).
Proof.
  revert i. induction b as [|a b IH]; intros [|i] Hi Hp; simplify_eq/=.
  - change (v :: col ++ concat b) with ((v :: col) ++ concat b).
    rewrite Hp. done.
  - etrans; [apply (Permutation_middle a (concat b) v)|].
    etrans; [apply Permutation_app_head, (IH _ Hi Hp)|].
    symmetry. apply Permutation_middle.
Qed.

Lemma concat_fmap_bind {A B} (f : A -> list B) (l : list A) :
  concat (f <$> l) = l ≫= f.
Proof. induction l as [|a l IH]; [done|]. csimpl. by rewrite <- IH. Qed.

(** ** Cells of a board *)

Lemma at_Some {A} (l : list A) (i : Z) (a : A) :
  at_ l i = Some a <-> 0 <= i /\ l !! Z.to_nat i = Some a.
Proof. unfold at_. case_decide; intuition congruence. Qed.

Lemma at_is_Some {A} (l : list A) (i : Z) :
  is_Some (at_ l i) <-> 0 <= i < Z.of_nat (length l).
Proof.
  unfold at_. case_decide.
  - rewrite lookup_lt_is_Some. lia.
  - split; [intros [? ?]; done | lia].
Qed.

Lemma at_of_nat {A} (l : list A) (k : nat) : at_ l (Z.of_nat k) = l !! k.
Proof. unfold at_. case_decide; [by rewrite Nat2Z.id | lia]. Qed.

Lemma at_last {A} (l : list A) : l <> [] -> at_ l (Z.of_nat (length l) - 1) = last l.
Proof.
  intros Hl. unfold at_. destruct l as [|a l]; [done|].
  rewrite decide_True by (simpl; lia). rewrite last_lookup. f_equal. simpl. lia.
Qed.

Lemma rect_column w h b x col : rect w h b -> at_ b x = Some col -> length col = h.
Proof.
  intros [_ Hall] [_ Hx]%at_Some.
  rewrite Forall_lookup in Hall. eauto.
Qed.

Lemma get_is_Some w h b x y :
  rect w h b -> is_Some (get b x y) <-> inside w h (x, y).
Proof.
  intros Hr. unfold get, inside. simpl. destruct (at_ b x) as [col|] eqn:Hx.
  - rewrite at_is_Some, (rect_column _ _ _ _ _ Hr Hx).
    assert (is_Some (at_ b x)) as Hs by eauto.
    apply at_is_Some in Hs. destruct Hr as [<- _]. lia.
  - split; [intros [? ?]; done|]. intros [Hw _].
    destruct Hr as [<- _]. apply at_is_Some in Hw. rewrite Hx in Hw.
    by destruct Hw.
Qed.

Lemma set_is_Some b x y v : is_Some (set b x y v) <-> is_Some (get b x y).
Proof.
  unfold set, get. destruct (at_ b x) as [col|]; [|done].
  destruct (at_ col y); split; intros [? ?]; eauto; done.
Qed.

Lemma set_rect w h b x y v b' : rect w h b -> set b x y v = Some b' -> rect w h b'.
Proof.
  intros [Hl Hall] Hset. unfold set in Hset.
  destruct (at_ b x) as [col|] eqn:Hx; [|done].
  destruct (at_ col y) eqn:Hy; [|done]. simplify_eq.
  split; [by rewrite length_insert|].
  apply Forall_insert; [done|]. rewrite length_insert.
  apply at_Some in Hx as [_ Hx]. rewrite Forall_lookup in Hall. eauto.
Qed.

Lemma get_set_eq b x y v b' : set b x y v = Some b' -> get b' x y = Some v.
Proof.
  unfold set, get. intros Hset.
  destruct (at_ b x) as [col|] eqn:Hx; [|done].
  destruct (at_ col y) eqn:Hy; [|done]. simplify_eq.
  apply at_Some in Hx as [Hx0 Hx]. apply at_Some in Hy as [Hy0 Hy].
  unfold at_. rewrite !decide_True by done.
  rewrite list_lookup_insert_eq by (by eapply lookup_lt_Some).
  rewrite decide_True by done.
  rewrite list_lookup_insert_eq by (by eapply lookup_lt_Some). done.
Qed.

Lemma get_set_ne b x y v b' x' y' :
  set b x y v = Some b' -> (x', y') <> (x, y) -> get b' x' y' = get b x' y'.
Proof.
  unfold set, get. intros Hset Hne.
  destruct (at_ b x) as [col|] eqn:Hx; [|done].
  destruct (at_ col y) eqn:Hy; [|done]. simplify_eq.
  apply at_Some in Hx as [Hx0 Hx]. apply at_Some in Hy as [Hy0 Hy].
  unfold at_. destruct (decide (0 <= x')); [|done].
  destruct (decide (x' = x)) as [->|Hxx].
  - rewrite list_lookup_insert_eq by (by eapply lookup_lt_Some). rewrite Hx.
    destruct (decide (0 <= y')); [|done].
    rewrite list_lookup_insert_ne; [done|]. intros Heq.
    apply Hne. f_equal. lia.
  - rewrite list_lookup_insert_ne; [done|]. lia.
Qed.

(** Two boards of one shape with the same tiles are the same board. *)
Lemma board_ext w h b b' :
  rect w h b -> rect w h b' ->
  (forall c, inside w h c -> cell b c = cell b' c) -> b = b'.
Proof.
  intros [Hl Hall] [Hl' Hall'] Hc.
  apply list_eq_same_length with w; [done..|].
  intros x col col' Hx Hb Hb'.
  rewrite Forall_lookup in Hall. rewrite Forall_lookup in Hall'.
  apply list_eq_same_length with h; [eauto..|].
  intros y v v' Hy Hv Hv'.
  specialize (Hc (Z.of_nat x, Z.of_nat y)).
  unfold cell, get, inside in Hc. simpl in Hc.
  rewrite !at_of_nat, Hb, Hb', !at_of_nat, Hv, Hv' in Hc.
  assert (Some v = Some v') by (apply Hc; lia). congruence.
Qed.

Lemma set_Permutation b x y v v0 b' :
  get b x y = Some v0 -> set b x y v = Some b' ->
  v :: concat b ≡ₚ v0 :: concat b'.
Proof.
  unfold get, set. intros Hget Hset.
  destruct (at_ b x) as [col|] eqn:Hx; [|done].
  rewrite Hget in Hset. simplify_eq.
  apply at_Some in Hx as [_ Hx]. apply at_Some in Hget as [_ Hy].
  eapply concat_insert_Permutation; [done|].
  by apply insert_Permutation.
Qed.

Lemma rect_insert_column w h b x col :
  rect w h b -> length col = h -> rect w h (<[x := col]> b).
Proof.
  intros [Hl Hall] Hc. split; [by rewrite length_insert|].
  destruct (decide (x < length b)%nat).
  - by apply Forall_insert.
  - by rewrite list_insert_ge by lia.
Qed.

Lemma Width_rect w h b : rect w h b -> Width b = Z.of_nat w.
Proof. intros [Hl _]. unfold Width. by rewrite Hl. Qed.

Lemma height_run w h b : rect w h b -> (0 < w)%nat -> height b = (Ret (Z.of_nat h), b).
Proof.
  intros [Hl Hall] Hw. unfold height, Height, at_.
  rewrite decide_True by lia.
  destruct b as [|col b]; [simpl in *; lia|]. simpl.
  apply Forall_cons in Hall as [-> _]. done.
Qed.

Lemma Height_rect w h b : rect w h b -> (0 < w)%nat -> Height b = Some (Z.of_nat h).
Proof.
  intros Hr Hw. pose proof (height_run _ _ _ Hr Hw) as Hh.
  unfold height in Hh. destruct (Height b); by simplify_eq.
Qed.

Lemma width_run b : width b = (Ret (Width b), b).
Proof. done. Qed.

Lemma width_pure b : (width b).2 = b.
Proof. done. Qed.

Lemma height_pure b : (height b).2 = b.
Proof. unfold height. by destruct (Height b). Qed.

Lemma load_state b x y r b' : load x y b = (r, b') -> b' = b.
Proof. unfold load. destruct (get b x y); congruence. Qed.

Lemma load_pure x y b : (load x y b).2 = b.
Proof. unfold load. by destruct (get b x y). Qed.

Lemma load_run b x y v : cell b (x, y) = Some v -> load x y b = (Ret v, b).
Proof. unfold load, cell. simpl. by intros ->. Qed.

Lemma load_panic b x y : cell b (x, y) = None -> load x y b = (Panic, b).
Proof. unfold load, cell. simpl. by intros ->. Qed.

Lemma cell_inside w h b c : rect w h b -> inside w h c -> is_Some (cell b c).
Proof. intros Hr Hc. destruct c. by apply (get_is_Some _ _ _ _ _ Hr). Qed.

Lemma cell_outside w h b c : rect w h b -> ~ inside w h c -> cell b c = None.
Proof.
  intros Hr Hc. destruct c as [x y]. apply eq_None_not_Some.
  intros Hs. by apply Hc, (get_is_Some _ _ _ _ _ Hr).
Qed.

(** ** Paths of cells and the line of a move *)

Lemma vals_cons b c rest v :
  cell b c = Some v -> vals b (c :: rest) = v :: vals b rest.
Proof. intros Hv. unfold vals. simpl. by rewrite Hv. Qed.

Lemma vals_length b path : length (vals b path) = length path.
Proof. unfold vals. by rewrite length_fmap. Qed.

Lemma vals_app b p1 p2 : vals b (p1 ++ p2) = vals b p1 ++ vals b p2.
Proof. unfold vals. by rewrite fmap_app. Qed.

Lemma vals_reverse b path : vals b (reverse path) = reverse (vals b path).
Proof. unfold vals. by rewrite fmap_reverse. Qed.

Lemma vals_set_notin b x y p b' path :
  set b x y p = Some b' -> (x, y) ∉ path -> vals b' path = vals b path.
Proof.
  intros Hset Hnot. unfold vals. apply list_fmap_ext.
  intros k c Hk. unfold cell. f_equal.
  eapply get_set_ne; [done|]. intros Heq.
  apply Hnot. destruct c; simpl in *. rewrite <- Heq.
  by eapply list_elem_of_lookup_2.
Qed.

Lemma exchange_run w h b c p :
  rect w h b -> inside w h c ->
  exists v b', cell b c = Some v /\ set b c.1 c.2 p = Some b' /\
               exchange c.1 c.2 p b = (Ret v, b').
Proof.
  intros Hr Hc. destruct c as [x y].
  apply (get_is_Some _ _ _ _ _ Hr) in Hc as Hget. destruct Hget as [v Hv].
  assert (is_Some (set b x y p)) as [b' Hb'] by (apply set_is_Some; eauto).
  exists v, b'. split_and!; [done..|]. simpl in *.
  unfold exchange, bind, load, store, ret. by rewrite Hv, Hb'.
Qed.

Lemma exchange_inv x y p b v b' :
  exchange x y p b = (Ret v, b') -> get b x y = Some v /\ set b x y p = Some b'.
Proof.
  unfold exchange, bind, load, store, ret.
  destruct (get b x y) as [v0|]; [|done].
  destruct (set b x y p) as [b0|]; [|done]. by intros [= <- <-].
Qed.

Lemma shiftAlong_run w h path :
  NoDup path -> Forall (inside w h) path ->
  forall b p, rect w h b ->
  exists b',
    shiftAlong path p b = (Ret (List.last (vals b path) p), b') /\
    rect w h b' /\
    (forall c, c ∉ path -> cell b' c = cell b c) /\
    vals b' path = take (length path) (p :: vals b path).
Proof.
  induction path as [|c rest IH]; intros Hnd Hin b p Hr.
  - exists b. by split_and!.
  - apply NoDup_cons in Hnd as [Hc Hnd]. apply Forall_cons in Hin as [Hic Hin].
    destruct (exchange_run _ _ _ _ p Hr Hic) as (v & b1 & Hv & Hset & Hex).
    assert (rect w h b1) as Hr1 by (by eapply set_rect).
    destruct (IH Hnd Hin b1 v Hr1) as (b' & Hrun & Hr' & Hoff & Hvals).
    assert (vals b1 rest = vals b rest) as Hsame.
    { destruct c. by eapply vals_set_notin. }
    exists b'. split_and!.
    + unfold shiftAlong in *. cbn [foldM].
      rewrite (bind_Ret _ _ _ _ _ Hex), Hrun.
      by rewrite (vals_cons _ _ _ _ Hv), last_cons_default, Hsame.
    + done.
    + intros c' Hc'. apply not_elem_of_cons in Hc' as [Hne Hc'].
      rewrite (Hoff _ Hc'). unfold cell. eapply get_set_ne; [done|].
      destruct c, c'; simpl. congruence.
    + assert (cell b' c = Some p) as Hp.
      { rewrite (Hoff _ Hc). by eapply get_set_eq. }
      by rewrite (vals_cons _ _ _ _ Hp), (vals_cons _ _ _ _ Hv), Hvals, Hsame.
Qed.

(** The tile in hand and the tiles on the board stay the same multiset. *)
Lemma shiftAlong_Permutation path p b v b' :
  shiftAlong path p b = (Ret v, b') -> p :: concat b ≡ₚ v :: concat b'.
Proof.
  revert p b. induction path as [|c path IH]; intros p b Hrun.
  - unfold shiftAlong in Hrun. simpl in Hrun. unfold ret in Hrun. by simplify_eq.
  - unfold shiftAlong in *. cbn [foldM] in Hrun. unfold bind at 1 in Hrun.
    destruct (exchange c.1 c.2 p b) as [[v1| |] b1] eqn:Hex; [|done..].
    apply exchange_inv in Hex as [Hget Hset].
    etrans; [by eapply set_Permutation|]. by apply IH.
Qed.

(** Shifting along a path, starting from the tile of its last cell, rotates
    the tiles of the path; every other tile stays. *)
Lemma shiftAlong_rotate w h path c p b :
  NoDup (path ++ [c]) -> Forall (inside w h) (path ++ [c]) -> rect w h b ->
  cell b c = Some p ->
  exists b',
    shiftAlong (path ++ [c]) p b = (Ret p, b') /\
    rect w h b' /\
    (forall c', c' ∉ path ++ [c] -> cell b' c' = cell b c') /\
    vals b' (path ++ [c]) = rotateRight (vals b (path ++ [c])) /\
    concat b' ≡ₚ concat b.
Proof.
  intros Hnd Hin Hr Hp.
  destruct (shiftAlong_run w h _ Hnd Hin b p Hr) as (b' & Hrun & Hr' & Hoff & Hv).
  assert (vals b (path ++ [c]) = vals b path ++ [p]) as Hvals.
  { rewrite vals_app. f_equal. unfold vals. simpl. by rewrite Hp. }
  assert (shiftAlong (path ++ [c]) p b = (Ret p, b')) as Hrun'.
  { rewrite Hrun, Hvals. by rewrite List.last_last. }
  exists b'. split_and!; [done..| |].
  2:{ symmetry. eapply Permutation_cons_inv.
      by apply (shiftAlong_Permutation _ _ _ _ _ Hrun'). }
  - rewrite Hv, Hvals, rotateRight_snoc, length_app. simpl.
    replace (length path + 1)%nat with (S (length (vals b path)))
      by (rewrite vals_length; lia).
    simpl. by rewrite take_app_length.
Qed.

Lemma shiftAlong_rotate_back w h path c p b :
  NoDup (c :: path) -> Forall (inside w h) (c :: path) -> rect w h b ->
  cell b c = Some p ->
  exists b',
    shiftAlong (reverse (c :: path)) p b = (Ret p, b') /\
    rect w h b' /\
    (forall c', c' ∉ c :: path -> cell b' c' = cell b c') /\
    vals b' (c :: path) = rotateLeft (vals b (c :: path)) /\
    concat b' ≡ₚ concat b.
Proof.
  intros Hnd Hin Hr Hp. rewrite reverse_cons.
  destruct (shiftAlong_rotate w h (reverse path) c p b)
    as (b' & Hrun & Hr' & Hoff & Hv & Hperm); [| |done..|].
  { rewrite <- reverse_cons. by rewrite reverse_Permutation. }
  { rewrite <- reverse_cons. by apply Forall_reverse. }
  exists b'. split_and!; [done..| | |done].
  - intros c' Hc'. apply Hoff. by rewrite <- reverse_cons, elem_of_reverse.
  - rewrite <- reverse_cons, !vals_reverse in Hv.
    rewrite <- reverse_rotateRight_reverse, <- Hv. by rewrite reverse_involutive.
Qed.

Lemma elem_of_line axis idx w h c :
  c ∈ line axis idx w h <-> on_line axis idx c /\
    (if axis then 0 <= c.1 < Z.of_nat w else 0 <= c.2 < Z.of_nat h).
Proof.
  unfold line, on_line. destruct axis, c as [x y]; simpl;
    rewrite list_elem_of_fmap; setoid_rewrite elem_of_up; split.
  - intros (k & [= -> ->] & Hk). done.
  - intros [<- Hx]. eauto.
  - intros (k & [= -> ->] & Hk). done.
  - intros [<- Hy]. eauto.
Qed.

Lemma NoDup_line axis idx w h : NoDup (line axis idx w h).
Proof.
  unfold line. destruct axis; (apply NoDup_fmap_2; [|apply NoDup_up]);
    intros ? ? ?; congruence.
Qed.

Lemma line_inside axis idx w h :
  line_exists axis idx w h -> Forall (inside w h) (line axis idx w h).
Proof.
  intros He. apply Forall_forall. intros c [Hon Hc]%elem_of_line.
  unfold inside, line_exists, on_line in *. destruct axis; lia.
Qed.

Lemma line_length axis idx w h :
  length (line axis idx w h) = if axis then w else h.
Proof.
  unfold line. destruct axis; rewrite length_fmap, up_length; lia.
Qed.

Lemma line_snoc axis idx w h :
  line_exists axis idx w h -> (0 < w)%nat -> (0 < h)%nat ->
  exists path c, line axis idx w h = path ++ [c] /\
    c = (if axis then (Z.of_nat w - 1, idx) else (idx, Z.of_nat h - 1)).
Proof.
  intros _ Hw Hh. unfold line. destruct axis.
  - destruct w as [|n]; [lia|]. rewrite up_S, fmap_app. simpl.
    eexists _, _. split; [done|]. f_equal. lia.
  - destruct h as [|n]; [lia|]. rewrite up_S, fmap_app. simpl.
    eexists _, _. split; [done|]. f_equal. lia.
Qed.

Lemma line_cons axis idx w h :
  (0 < w)%nat -> (0 < h)%nat ->
  exists path, line axis idx w h = (if axis then (0, idx) else (idx, 0)) :: path.
Proof.
  intros Hw Hh. unfold line. destruct axis.
  - destruct w as [|n]; [lia|]. rewrite up_of_nat. simpl. eauto.
  - destruct h as [|n]; [lia|]. rewrite up_of_nat. simpl. eauto.
Qed.

(** A board is determined by its shape, the tiles of one line and the tiles
    off that line. *)
Lemma board_eq_line w h path b1 b2 :
  rect w h b1 -> rect w h b2 ->
  (forall c, c ∉ path -> cell b1 c = cell b2 c) ->
  vals b1 path = vals b2 path -> b1 = b2.
Proof.
  intros Hr1 Hr2 Hoff Hv. apply (board_ext w h); [done..|].
  intros c Hc. destruct (decide (c ∈ path)) as [Hin|Hout]; [|by apply Hoff].
  apply list_elem_of_lookup in Hin as [k Hk].
  assert (vals b1 path !! k = vals b2 path !! k) as Hk' by (by rewrite Hv).
  unfold vals in Hk'. rewrite !list_lookup_fmap, Hk in Hk'. simpl in Hk'.
  destruct (cell_inside _ _ _ _ Hr1 Hc) as [v1 H1].
  destruct (cell_inside _ _ _ _ Hr2 Hc) as [v2 H2].
  rewrite H1, H2 in *. simpl in Hk'. congruence.
Qed.

(** ** One pass of MakeMove's loop *)

Lemma rotateOnce_shift m forward w h b :
  rect w h b -> (0 < w)%nat -> (0 < h)%nat ->
  rotateOnce m forward b =
    (let c := if forward
              then (if Move_Axis m then (Z.of_nat w - 1, Move_Index m)
                    else (Move_Index m, Z.of_nat h - 1))
              else (if Move_Axis m then (0, Move_Index m) else (Move_Index m, 0)) in
     let path := if forward then line (Move_Axis m) (Move_Index m) w h
                 else reverse (line (Move_Axis m) (Move_Index m) w h) in
     let* p := load c.1 c.2 in
     shiftAlong path p ;;; ret tt) b.
Proof.
  intros Hr Hw Hh. destruct m as [axis idx amt]. simpl.
  pose proof (height_run _ _ _ Hr Hw) as Hht.
  pose proof (width_run b) as Hwd. rewrite (Width_rect _ _ _ Hr) in Hwd.
  unfold rotateOnce, line, shiftAlong, down. simpl.
  destruct axis, forward; simpl;
    rewrite ?(bind_Ret _ _ _ _ _ Hwd), ?(bind_Ret _ _ _ _ _ Hht);
    apply bind_ext; intros p b1 ->%load_state;
    rewrite ?(bind_Ret _ _ _ _ _ Hwd), ?(bind_Ret _ _ _ _ _ Hht);
    unfold bind; by rewrite <- ?fmap_reverse, foldM_fmap.
Qed.

(** When the board has the addressed line, one pass rotates its tiles by
    one place and touches nothing else. *)
Lemma rotateOnce_run m forward w h b :
  rect w h b -> (0 < w)%nat -> (0 < h)%nat ->
  line_exists (Move_Axis m) (Move_Index m) w h ->
  exists b',
    rotateOnce m forward b = (Ret tt, b') /\
    rect w h b' /\
    (forall c, c ∉ line (Move_Axis m) (Move_Index m) w h -> cell b' c = cell b c) /\
    vals b' (line (Move_Axis m) (Move_Index m) w h) =
      rotated forward (vals b (line (Move_Axis m) (Move_Index m) w h)) /\
    concat b' ≡ₚ concat b.
Proof.
  intros Hr Hw Hh He. rewrite (rotateOnce_shift _ _ _ _ _ Hr Hw Hh).
  pose proof (NoDup_line (Move_Axis m) (Move_Index m) w h) as Hnd.
  pose proof (line_inside _ _ _ _ He) as Hin.
  destruct forward; simpl.
  - destruct (line_snoc _ _ _ _ He Hw Hh) as (path & c & Hline & Hc).
    rewrite Hline in *. rewrite <- Hc.
    assert (is_Some (cell b c)) as [p Hp].
    { eapply cell_inside; [done|]. rewrite Forall_app, Forall_singleton in Hin.
      tauto. }
    destruct (shiftAlong_rotate _ _ _ _ _ _ Hnd Hin Hr Hp)
      as (b' & Hrun & Hr' & Hoff & Hv & Hperm).
    exists b'. split_and!; [|done..].
    destruct c as [x y]. rewrite (bind_Ret _ _ _ _ _ (load_run _ _ _ _ Hp)).
    by rewrite (bind_Ret _ _ _ _ _ Hrun).
  - destruct (line_cons (Move_Axis m) (Move_Index m) _ _ Hw Hh) as (path & Hline).
    rewrite Hline in *. set (c := if Move_Axis m then _ else _) in *.
    assert (is_Some (cell b c)) as [p Hp].
    { eapply cell_inside; [done|]. apply Forall_cons in Hin. tauto. }
    destruct (shiftAlong_rotate_back _ _ _ _ _ _ Hnd Hin Hr Hp)
      as (b' & Hrun & Hr' & Hoff & Hv & Hperm).
    exists b'. split_and!; [|done..].
    destruct c as [x y]. rewrite (bind_Ret _ _ _ _ _ (load_run _ _ _ _ Hp)).
    by rewrite (bind_Ret _ _ _ _ _ Hrun).
Qed.

(** When the board has no such line, the first read of the pass panics and
    the board is as it was. *)
Lemma rotateOnce_panic m forward w h b :
  rect w h b -> (0 < w)%nat -> (0 < h)%nat ->
  ~ line_exists (Move_Axis m) (Move_Index m) w h ->
  rotateOnce m forward b = (Panic, b).
Proof.
  intros Hr Hw Hh He. rewrite (rotateOnce_shift _ _ _ _ _ Hr Hw Hh). simpl.
  apply bind_Panic, load_panic.
  rewrite <- surjective_pairing. eapply cell_outside; [done|].
  unfold inside, line_exists in *.
  destruct forward, (Move_Axis m); simpl; lia.
Qed.

Lemma turn_eq m forward b r b' :
  rotateOnce m forward b = (r, b') -> turn m forward b = b'.
Proof. unfold turn. by intros ->. Qed.

Lemma turn_rect m forward w h b :
  rect w h b -> (0 < w)%nat -> (0 < h)%nat -> rect w h (turn m forward b).
Proof.
  intros Hr Hw Hh. unfold turn.
  destruct (decide (line_exists (Move_Axis m) (Move_Index m) w h)) as [He|He].
  - destruct (rotateOnce_run m forward _ _ _ Hr Hw Hh He) as (b' & -> & ? & _).
    done.
  - by rewrite (rotateOnce_panic m forward _ _ _ Hr Hw Hh He).
Qed.

(** A pass backwards undoes a pass forward, and conversely. *)
Lemma turn_inverse m m' forward w h b :
  rect w h b -> (0 < w)%nat -> (0 < h)%nat ->
  Move_Axis m' = Move_Axis m -> Move_Index m' = Move_Index m ->
  turn m' (negb forward) (turn m forward b) = b.
Proof.
  intros Hr Hw Hh Ha Hi. unfold turn.
  destruct (decide (line_exists (Move_Axis m) (Move_Index m) w h)) as [He|He].
  - destruct (rotateOnce_run m forward _ _ _ Hr Hw Hh He)
      as (b1 & -> & Hr1 & Hoff1 & Hv1 & _). simpl.
    assert (line_exists (Move_Axis m') (Move_Index m') w h) as He'
      by (by rewrite Ha, Hi).
    destruct (rotateOnce_run m' (negb forward) _ _ _ Hr1 Hw Hh He')
      as (b2 & -> & Hr2 & Hoff2 & Hv2 & _). simpl.
    rewrite Ha, Hi in *.
    apply (board_eq_line w h (line (Move_Axis m) (Move_Index m) w h)); [done..| |].
    + intros c Hc. by rewrite Hoff2, Hoff1.
    + by rewrite Hv2, Hv1, rotated_inverse.
  - rewrite (rotateOnce_panic m forward _ _ _ Hr Hw Hh He). simpl.
    rewrite (rotateOnce_panic m' (negb forward) _ _ _ Hr Hw Hh); [done|].
    by rewrite Ha, Hi.
Qed.

Lemma turn_frame m forward w h b c :
  rect w h b -> (0 < w)%nat -> (0 < h)%nat ->
  ~ on_line (Move_Axis m) (Move_Index m) c ->
  cell (turn m forward b) c = cell b c.
Proof.
  intros Hr Hw Hh Hc. unfold turn.
  destruct (decide (line_exists (Move_Axis m) (Move_Index m) w h)) as [He|He].
  - destruct (rotateOnce_run m forward _ _ _ Hr Hw Hh He)
      as (b' & -> & _ & Hoff & _). simpl. apply Hoff.
    rewrite elem_of_line. tauto.
  - by rewrite (rotateOnce_panic m forward _ _ _ Hr Hw Hh He).
Qed.

Lemma turn_Permutation m forward w h b :
  rect w h b -> (0 < w)%nat -> (0 < h)%nat ->
  concat (turn m forward b) ≡ₚ concat b.
Proof.
  intros Hr Hw Hh. unfold turn.
  destruct (decide (line_exists (Move_Axis m) (Move_Index m) w h)) as [He|He].
  - by destruct (rotateOnce_run m forward _ _ _ Hr Hw Hh He)
      as (b' & -> & _ & _ & _ & ?).
  - by rewrite (rotateOnce_panic m forward _ _ _ Hr Hw Hh He).
Qed.

Lemma iter_rect m forward w h n b :
  rect w h b -> (0 < w)%nat -> (0 < h)%nat ->
  rect w h (Nat.iter n (turn m forward) b).
Proof.
  intros Hr Hw Hh. induction n as [|n IH]; simpl; [done|].
  by apply turn_rect.
Qed.

(** ** MakeMove *)

Lemma MakeMove_run m w h b :
  rect w h b -> (0 < w)%nat -> (0 < h)%nat ->
  line_exists (Move_Axis m) (Move_Index m) w h ->
  MakeMove m b =
    (Ret (Abs (Move_Amount m)),
     Nat.iter (Z.to_nat (Abs (Move_Amount m))) (turn m (forward_of m)) b).
Proof.
  intros Hr Hw Hh He. unfold MakeMove.
  destruct (forEach_iter (rect w h) (rotateOnce m (forward_of m))
              (up (Abs (Move_Amount m))) b) as [Hrun _]; [|done|].
  { intros s Hs.
    destruct (rotateOnce_run m (forward_of m) _ _ _ Hs Hw Hh He)
      as (s' & ? & ? & _). eauto. }
  fold (forward_of m). rewrite (bind_Ret _ _ _ _ _ Hrun).
  by rewrite up_length.
Qed.

Lemma MakeMove_panic m w h b :
  rect w h b -> (0 < w)%nat -> (0 < h)%nat ->
  ~ line_exists (Move_Axis m) (Move_Index m) w h ->
  0 < Abs (Move_Amount m) ->
  MakeMove m b = (Panic, b).
Proof.
  intros Hr Hw Hh He Ha. unfold MakeMove.
  apply bind_Panic, forEach_panic.
  - intros Hnil. apply (f_equal length) in Hnil.
    rewrite up_length in Hnil. simpl in Hnil. lia.
  - by apply (rotateOnce_panic _ _ w h).
Qed.

Lemma MakeMove_idle m b :
  Abs (Move_Amount m) <= 0 -> MakeMove m b = (Ret (Abs (Move_Amount m)), b).
Proof. intros Ha. unfold MakeMove. by rewrite up_nonpos. Qed.

(** On a board with the addressed line MakeMove returns, and the negated
    move then returns too and puts every tile back. *)
Lemma MakeMove_negated_run w h b m :
  rect w h b -> (0 < w)%nat -> (0 < h)%nat -> is_int (Move_Amount m) ->
  line_exists (Move_Axis m) (Move_Index m) w h ->
  exists b1,
    MakeMove m b = (Ret (Abs (Move_Amount m)), b1) /\
    MakeMove (negated m) b1 = (Ret (Abs (Move_Amount m)), b).
Proof.
  intros Hr Hw Hh Hi He.
  rewrite (MakeMove_run _ _ _ _ Hr Hw Hh He). eexists. split; [done|].
  rewrite (MakeMove_run (negated m) w h); [|by apply iter_rect|done..].
  destruct (decide (Move_Amount m = MinInt)) as [Hmin|Hmin].
  { unfold negated. simpl. rewrite Hmin, wrap_neg_MinInt, Abs_MinInt. done. }
  assert (is_int (- Move_Amount m)) as Hi'.
  { unfold is_int, MinInt, MaxInt in *.
    change (2 ^ 63) with 9223372036854775808 in *. lia. }
  assert (Abs (Move_Amount (negated m)) = Abs (Move_Amount m)) as ->.
  { unfold negated. simpl. rewrite (wrap_small _ Hi').
    destruct (decide (Move_Amount m > 0)).
    - rewrite (Abs_pos (Move_Amount m)) by done.
      rewrite Abs_neg; [lia|done|lia|].
      unfold is_int, MinInt, MaxInt in *.
      change (2 ^ 63) with 9223372036854775808 in *. lia.
    - destruct (decide (Move_Amount m = 0)) as [->|]; [done|].
      rewrite (Abs_neg (Move_Amount m)); [|done|lia|done].
      apply Abs_pos. lia. }
  f_equal.
  destruct (decide (Move_Amount m = 0)) as [H0|H0].
  { by rewrite H0. }
  assert (forward_of (negated m) = negb (forward_of m)) as ->.
  { unfold forward_of, negated. simpl. rewrite (wrap_small _ Hi').
    destruct (decide (Move_Amount m > 0)).
    - rewrite (bool_decide_eq_true_2 (Move_Amount m > 0)) by done.
      apply bool_decide_eq_false_2. lia.
    - rewrite (bool_decide_eq_false_2 (Move_Amount m > 0)) by done.
      apply bool_decide_eq_true_2. lia. }
  apply (iter_inverse (rect w h)); [| |done].
  - intros s Hs. by apply turn_rect.
  - intros s Hs. by apply (turn_inverse m (negated m) _ w h).
Qed.

(** Whatever its outcome, MakeMove leaves the board some number of passes
    away from where it started. *)
Lemma MakeMove_board m w h b :
  rect w h b -> (0 < w)%nat -> (0 < h)%nat ->
  exists n, (MakeMove m b).2 = Nat.iter n (turn m (forward_of m)) b.
Proof.
  intros Hr Hw Hh.
  destruct (decide (line_exists (Move_Axis m) (Move_Index m) w h)) as [He|He].
  - rewrite (MakeMove_run _ _ _ _ Hr Hw Hh He). eauto.
  - exists 0%nat. destruct (decide (0 < Abs (Move_Amount m))).
    + by rewrite (MakeMove_panic _ _ _ _ Hr Hw Hh He).
    + rewrite MakeMove_idle; [done|lia].
Qed.

Lemma MakeMove_rect m w h b :
  rect w h b -> (0 < w)%nat -> (0 < h)%nat -> rect w h (MakeMove m b).2.
Proof.
  intros Hr Hw Hh. destruct (MakeMove_board m _ _ _ Hr Hw Hh) as [n ->].
  by apply iter_rect.
Qed.

Lemma MakeMove_Permutation m w h b :
  rect w h b -> (0 < w)%nat -> (0 < h)%nat ->
  concat (MakeMove m b).2 ≡ₚ concat b.
Proof.
  intros Hr Hw Hh. destruct (MakeMove_board m _ _ _ Hr Hw Hh) as [n ->].
  induction n as [|n IH]; [done|]. rewrite Nat.iter_succ.
  etrans; [|exact IH]. apply (turn_Permutation _ _ w h); [|done..].
  by apply iter_rect.
Qed.

(** MakeMove on a board that has the addressed line, for an amount other
    than the least 64-bit integer: it returns |amount|, and the tiles of the
    line are those of |amount| single-step rotations, to the right (towards
    higher indices, the last tile wrapping to the front) for a positive
    amount and to the left for a negative one. *)
Lemma MakeMove_rotates w h b m :
  rect w h b -> (0 < w)%nat -> (0 < h)%nat ->
  line_exists (Move_Axis m) (Move_Index m) w h ->
  is_int (Move_Amount m) -> Move_Amount m <> MinInt ->
  exists b',
    MakeMove m b = (Ret (Z.abs (Move_Amount m)), b') /\
    rect w h b' /\
    (forall c, ~ on_line (Move_Axis m) (Move_Index m) c -> cell b' c = cell b c) /\
    vals b' (line (Move_Axis m) (Move_Index m) w h) =
      Nat.iter (Z.abs_nat (Move_Amount m)) (rotated (forward_of m))
        (vals b (line (Move_Axis m) (Move_Index m) w h)).
Proof.
  intros Hr Hw Hh He Hi Hmin.
  assert (Abs (Move_Amount m) = Z.abs (Move_Amount m)) as Habs.
  { destruct (decide (Move_Amount m > 0)).
    - rewrite Abs_pos by done. lia.
    - rewrite Abs_neg by (done || lia). lia. }
  rewrite (MakeMove_run _ _ _ _ Hr Hw Hh He), Habs.
  replace (Z.to_nat (Z.abs (Move_Amount m))) with (Z.abs_nat (Move_Amount m)) by lia.
  eexists. split; [done|].
  induction (Z.abs_nat (Move_Amount m)) as [|n (IHr & IHoff & IHv)]; [done|].
  rewrite !Nat.iter_succ.
  destruct (rotateOnce_run m (forward_of m) _ _ _ IHr Hw Hh He)
    as (b' & Hrun & Hr' & Hoff & Hv & _).
  rewrite (turn_eq _ _ _ _ _ Hrun). split_and!.
  - done.
  - intros c Hc. rewrite Hoff, IHoff; [done..|]. rewrite elem_of_line. tauto.
  - by rewrite Hv, IHv.
Qed.

(** The two scenarios of the README: "1R0" on the solved 3 by 3 board turns
    row 0 from 1 2 3 into 3 1 2, and "2C0" on the solved 5 by 5 board turns
    column 0 from 1 6 11 16 21 into 16 21 1 6 11. *)
Lemma MakeMove_scenarios :
  ParseMove noLetterTable noCaseTable "1R0" (solved 3 3)
    = Ret (inl (mkMove HorizontalAxis 0 1)) /\
  vals (solved 3 3) (line HorizontalAxis 0 3 3) = [1; 2; 3] /\
  (MakeMove (mkMove HorizontalAxis 0 1) (solved 3 3)).1 = Ret 1 /\
  vals (MakeMove (mkMove HorizontalAxis 0 1) (solved 3 3)).2
       (line HorizontalAxis 0 3 3) = [3; 1; 2] /\
  ParseMove noLetterTable noCaseTable "2C0" (solved 5 5)
    = Ret (inl (mkMove VerticalAxis 0 2)) /\
  vals (solved 5 5) (line VerticalAxis 0 5 5) = [1; 6; 11; 16; 21] /\
  (MakeMove (mkMove VerticalAxis 0 2) (solved 5 5)).1 = Ret 2 /\
  vals (MakeMove (mkMove VerticalAxis 0 2) (solved 5 5)).2
       (line VerticalAxis 0 5 5) = [16; 21; 1; 6; 11].
Proof. split_and!; reflexivity. Qed.

(** The least 64-bit integer is a valid amount; its absolute value does
    not exist in 64 bits, Abs returns the amount itself, and MakeMove
    performs no rotation and returns that negative number. *)
Lemma MakeMove_MinInt :
  ParseMove noLetterTable noCaseTable "-9223372036854775808R0" (solved 3 3)
    = Ret (inl (mkMove HorizontalAxis 0 MinInt)) /\
  MakeMove (mkMove HorizontalAxis 0 MinInt) (solved 3 3) = (Ret MinInt, solved 3 3).
Proof. split; reflexivity. Qed.

(** ** Atoi and the scan for the axis letter *)

Lemma parseDigits_ok s n0 n : parseDigits s n0 = (n, None) -> Forall digit s.
Proof.
  revert n0. induction s as [|c s IH]; intros n0 Hp; [done|].
  simpl in Hp. destruct (decide (48 <= c <= 57)); [|done].
  destruct (decide (n0 >= maxUint64 / 10 + 1)); [done|].
  destruct (decide _); [done|]. constructor; [done|]. by eapply IH.
Qed.

Lemma parseDigits_range s n0 un :
  parseDigits s n0 = (un, Some ErrRange) -> un = maxUint64.
Proof.
  revert n0. induction s as [|c s IH]; intros n0 Hp; [done|].
  simpl in Hp. destruct (decide (48 <= c <= 57)); [|done].
  destruct (decide (n0 >= maxUint64 / 10 + 1)); [by simplify_eq|].
  destruct (decide _); [by simplify_eq|]. by eapply IH.
Qed.

Lemma Atoi_ok s n :
  Atoi s = (n, None) -> s <> [] /\ Forall numeralByte s /\ is_int n.
Proof.
  unfold Atoi. destruct s as [|c s]; [done|].
  destruct (ParseUint _) as [un [[]|]] eqn:Hp; [done| |].
  { assert (un = maxUint64) as ->.
    { unfold ParseUint in Hp. destruct (if decide _ then _ else _); [done|].
      by eapply parseDigits_range. }
    destruct (bool_decide (c = 45)); repeat case_decide; try done;
      unfold maxUint64 in *; lia. }
  intros Hn. split; [done|]. split.
  - unfold ParseUint in Hp. destruct (decide (c = 43 \/ c = 45)) as [Hs|Hs].
    + destruct s as [|c' s']; [done|]. apply parseDigits_ok in Hp.
      constructor; [unfold numeralByte; tauto|].
      eapply Forall_impl; [done|]. unfold numeralByte. tauto.
    + apply parseDigits_ok in Hp.
      eapply Forall_impl; [done|]. unfold numeralByte. tauto.
  - revert Hn. repeat case_decide; try done; intros [= <-];
      destruct (bool_decide _); apply wrap_is_int.
Qed.

Lemma numeralByte_not_letter c : numeralByte c -> 0 <= c < 128 /\ ~ asciiLetter c.
Proof. unfold numeralByte, digit, asciiLetter. lia. Qed.

Lemma DecodeRune_ascii c s : c < 128 -> DecodeRune (c :: s) = (c, 1).
Proof. intros Hc. unfold DecodeRune. by rewrite decide_True. Qed.

Lemma rangeFrom_ascii_cons c s i :
  c < 128 -> rangeFrom 0 i (c :: s) = (i, c) :: rangeFrom 0 (i + 1) s.
Proof. intros Hc. cbn [rangeFrom]. by rewrite DecodeRune_ascii. Qed.

Lemma bytes_range input : Forall (fun c => 0 <= c < 256) (bytes input).
Proof.
  unfold bytes. apply Forall_fmap, Forall_forall. intros a _. simpl.
  pose proof (Ascii.N_ascii_bounded a). lia.
Qed.

Lemma axis_letters a :
  a ∈ [114; 82; 99; 67] <-> a = 114 \/ a = 82 \/ a = 99 \/ a = 67.
Proof. rewrite !elem_of_cons, elem_of_nil. tauto. Qed.

Section UnicodeFacts.

Variable letterTable : Z -> bool.
Variable lowerTable : Z -> Z.

Lemma IsLetter_ascii c :
  0 <= c < 128 -> IsLetter letterTable c = bool_decide (asciiLetter c).
Proof.
  intros Hc. unfold IsLetter, latin1Letter, asciiLetter.
  rewrite decide_True by lia. apply bool_decide_ext. lia.
Qed.

Lemma axisIndex_ascii pre a post i :
  Forall (fun c => 0 <= c < 128 /\ ~ asciiLetter c) pre ->
  asciiLetter a ->
  axisIndex letterTable (rangeFrom 0 i (pre ++ a :: post))
    = i + Z.of_nat (length pre).
Proof.
  intros Hpre Ha. revert i. induction Hpre as [|c pre [Hc Hl] _ IH]; intros i.
  - simpl app. rewrite rangeFrom_ascii_cons by (unfold asciiLetter in Ha; lia).
    cbn [axisIndex]. rewrite IsLetter_ascii by (unfold asciiLetter in Ha; lia).
    rewrite bool_decide_eq_true_2 by done. simpl. lia.
  - simpl app. rewrite rangeFrom_ascii_cons by lia.
    cbn [axisIndex]. rewrite IsLetter_ascii by lia.
    rewrite bool_decide_eq_false_2 by done. rewrite IH.
    cbn [length]. lia.
Qed.

Lemma axisIndex_none s i :
  Forall (fun c => 0 <= c < 128 /\ ~ asciiLetter c) s ->
  axisIndex letterTable (rangeFrom 0 i s) = -1.
Proof.
  intros Hs. revert i. induction Hs as [|c s [Hc Hl] _ IH]; intros i; [done|].
  rewrite rangeFrom_ascii_cons by lia.
  cbn [axisIndex]. rewrite IsLetter_ascii by lia.
  by rewrite bool_decide_eq_false_2.
Qed.

Lemma runes_ascii pre a post i :
  Forall (fun c => 0 <= c < 128 /\ ~ asciiLetter c) pre -> a < 128 ->
  (rangeFrom 0 i (pre ++ a :: post)).*2 !! length pre = Some a.
Proof.
  intros Hpre Ha. revert i. induction Hpre as [|c pre [Hc Hl] _ IH]; intros i.
  - simpl app. by rewrite rangeFrom_ascii_cons.
  - simpl app. rewrite rangeFrom_ascii_cons by lia. simpl. apply IH.
Qed.

(** ParseMove on an input whose first letter is an ASCII letter [a],
    preceded by ASCII text [pre] and followed by [post]. *)
Lemma ParseMove_split input pre a post board :
  bytes input = pre ++ a :: post ->
  Forall (fun c => 0 <= c < 128 /\ ~ asciiLetter c) pre -> asciiLetter a ->
  ParseMove letterTable lowerTable input board =
    if decide (a = 114 \/ a = 82)
    then parseAmountIndex (pre ++ a :: post) (Z.of_nat (length pre)) HorizontalAxis board
    else if decide (a = 99 \/ a = 67)
    then parseAmountIndex (pre ++ a :: post) (Z.of_nat (length pre)) VerticalAxis board
    else Ret (inr (ErrInvalidMoveCharacter a)).
Proof.
  intros Hs Hpre Ha. unfold ParseMove. rewrite Hs.
  rewrite decide_False by (rewrite length_app; simpl; lia).
  unfold rangeString, runes. rewrite (axisIndex_ascii _ _ _ _ Hpre Ha).
  rewrite decide_False by lia. rewrite !Z.add_0_l.
  unfold rangeString.
  rewrite at_of_nat, runes_ascii; [|done|unfold asciiLetter in Ha; lia].
  unfold ToLower, asciiLetter in *.
  repeat case_decide; try done; lia.
Qed.

Lemma ParseMove_no_letter input board :
  bytes input <> [] ->
  Forall (fun c => 0 <= c < 128 /\ ~ asciiLetter c) (bytes input) ->
  ParseMove letterTable lowerTable input board = Ret (inr ErrNoMoveCharacter).
Proof.
  intros Hne Hs. unfold ParseMove.
  rewrite decide_False by (by destruct (bytes input)).
  unfold rangeString. by rewrite axisIndex_none.
Qed.

Lemma parseAmountIndex_validated s ai axis board m :
  parseAmountIndex s ai axis board = Ret (inl m) -> validated board m.
Proof.
  unfold parseAmountIndex. cbv zeta.
  destruct (decide (length (take (Z.to_nat ai) s) = 0%nat)); [done|].
  destruct (Atoi (take (Z.to_nat ai) s)) as [amount [e|]] eqn:Hamt; [done|].
  destruct (decide (amount = 0)); [done|].
  destruct (decide (length (drop (Z.to_nat (ai + 1)) s) = 0%nat)); [done|].
  match goal with
  | |- context [Atoi ?t] => destruct (Atoi t) as [index [e|]]; [done|]
  end.
  match goal with
  | |- context [match ?o with Some _ => _ | None => Panic end] =>
      destruct o as [index'|]; [|done]
  end.
  destruct (decide (index' < 0)); [done|].
  destruct (dimension axis board) as [max|] eqn:Hmax; [|done].
  destruct (decide (index' >= max)); [done|].
  intros [= <-]. apply Atoi_ok in Hamt as (_ & _ & Hi).
  unfold validated. simpl. split_and!; [done..|].
  exists max. split; [done|lia].
Qed.

(** What ParseMove returns as a Move has passed its checks. *)
Lemma ParseMove_validated input board m :
  ParseMove letterTable lowerTable input board = Ret (inl m) -> validated board m.
Proof.
  unfold ParseMove. cbv zeta.
  destruct (decide (length (bytes input) = 0%nat)); [done|].
  destruct (decide (_ = -1)); [done|].
  destruct (at_ (runes (bytes input)) _) as [c|]; [|done].
  destruct (decide (ToLower lowerTable c = 114));
    [apply parseAmountIndex_validated|].
  destruct (decide (ToLower lowerTable c = 99));
    [apply parseAmountIndex_validated|done].
Qed.

End UnicodeFacts.

(** ** C1 *)

(** C1.  The claim has MakeMove succeed on every validated Move.  On the
    3 by 2 board (width 3, height 2) ParseMove accepts "1R2", because it
    bounds a row index by the WIDTH; the board has rows 0 and 1 only, and
    MakeMove panics on its first read, [board[2][2]], leaving the board
    untouched: no rotation is performed and nothing is returned. *)
Theorem MakeMove_panics_on_validated_row :
  NewBoard 3 2 = Ret (inl (solved 3 2)) /\
  ParseMove noLetterTable noCaseTable "1R2" (solved 3 2)
    = Ret (inl (mkMove HorizontalAxis 2 1)) /\
  validated (solved 3 2) (mkMove HorizontalAxis 2 1) /\
  MakeMove (mkMove HorizontalAxis 2 1) (solved 3 2) = (Panic, solved 3 2).
Proof.
  split_and!; [reflexivity..| |reflexivity].
  by apply (ParseMove_validated noLetterTable noCaseTable "1R2").
Qed.

(** ** C2 *)

(** What the two calls do for every validated Move: when the board has
    the addressed line, or no rotation is due, both return and the second
    puts every tile back; otherwise the first call panics and the second is
    not made. *)
Lemma MakeMove_then_negated_outcome w h b m :
  rect w h b -> (0 < w)%nat -> (0 < h)%nat -> validated b m ->
  (line_exists (Move_Axis m) (Move_Index m) w h \/ Move_Amount m = MinInt ->
   exists b1,
     MakeMove m b = (Ret (Abs (Move_Amount m)), b1) /\
     MakeMove (negated m) b1 = (Ret (Abs (Move_Amount m)), b)) /\
  (~ line_exists (Move_Axis m) (Move_Index m) w h -> Move_Amount m <> MinInt ->
   MakeMove m b = (Panic, b) /\
   (MakeMove m ;;; MakeMove (negated m)) b = (Panic, b)).
Proof.
  intros Hr Hw Hh (Hi & Hnz & _). split.
  - intros [He|Hmin]; [by apply (MakeMove_negated_run w h)|].
    exists b. rewrite !MakeMove_idle.
    + unfold negated. simpl. by rewrite Hmin, wrap_neg_MinInt.
    + unfold negated. simpl.
      rewrite Hmin, wrap_neg_MinInt, Abs_MinInt. unfold MinInt. lia.
    + rewrite Hmin, Abs_MinInt. unfold MinInt. lia.
  - intros He Hne.
    assert (0 < Abs (Move_Amount m)) as Ha.
    { destruct (decide (Move_Amount m > 0)) as [Hp|Hp].
      - rewrite Abs_pos by done. lia.
      - rewrite Abs_neg by (done || lia). lia. }
    pose proof (MakeMove_panic _ _ _ _ Hr Hw Hh He Ha) as Hpanic.
    split; [done|]. by apply bind_Panic.
Qed.

(** C2.  The claim has the two calls restore the grid for every validated
    Move.  On the 3 by 2 board (width 3, height 2) the Move that ParseMove
    returns for "1R2" is validated, and so is the Move with the negated
    amount, the one ParseMove returns for "-1R2"; the board has no row 2,
    and MakeMove of the first panics on its first read: the second call is
    not made, and either call panics on its own.  Nothing is restored, for
    no move is carried out.  The cause is the bound of C1: a row index is
    checked against the width. *)
Theorem MakeMove_then_negated_panics_on_validated_row :
  NewBoard 3 2 = Ret (inl (solved 3 2)) /\
  ParseMove noLetterTable noCaseTable "1R2" (solved 3 2)
    = Ret (inl (mkMove HorizontalAxis 2 1)) /\
  ParseMove noLetterTable noCaseTable "-1R2" (solved 3 2)
    = Ret (inl (negated (mkMove HorizontalAxis 2 1))) /\
  validated (solved 3 2) (mkMove HorizontalAxis 2 1) /\
  validated (solved 3 2) (negated (mkMove HorizontalAxis 2 1)) /\
  MakeMove (mkMove HorizontalAxis 2 1) (solved 3 2) = (Panic, solved 3 2) /\
  MakeMove (negated (mkMove HorizontalAxis 2 1)) (solved 3 2)
    = (Panic, solved 3 2) /\
  (MakeMove (mkMove HorizontalAxis 2 1) ;;;
   MakeMove (negated (mkMove HorizontalAxis 2 1))) (solved 3 2)
    = (Panic, solved 3 2).
Proof.
  split_and!; try reflexivity.
  - by apply (ParseMove_validated noLetterTable noCaseTable "1R2").
  - by apply (ParseMove_validated noLetterTable noCaseTable "-1R2").
Qed.

(** ** C10 *)

(** C10. For every board of the program and every Move, validated or not,
    MakeMove changes no tile outside the line the move addresses: a tile
    whose row is not the move's index (horizontal axis) or whose column is
    not the move's index (vertical axis) is after the call, whatever its
    outcome, what it was before; the shape of the board stays too. *)
Theorem MakeMove_frame w h b m c :
  rect w h b -> (1 < w)%nat -> (1 < h)%nat ->
  ~ on_line (Move_Axis m) (Move_Index m) c ->
  cell (MakeMove m b).2 c = cell b c /\ rect w h (MakeMove m b).2.
Proof.
  intros Hr Hw Hh Hc.
  assert (0 < w)%nat as Hw0 by lia. assert (0 < h)%nat as Hh0 by lia.
  split; [|by apply MakeMove_rect].
  destruct (MakeMove_board m _ _ _ Hr Hw0 Hh0) as [n ->].
  induction n as [|n IH]; [done|]. rewrite Nat.iter_succ.
  rewrite <- IH. apply (turn_frame _ _ w h); [|done..]. by apply iter_rect.
Qed.

Lemma MakeMove_frame_witness :
  cell (MakeMove (mkMove HorizontalAxis 0 1) (solved 3 3)).2 (2, 1)
    = cell (solved 3 3) (2, 1) /\
  rect 3 3 (MakeMove (mkMove HorizontalAxis 0 1) (solved 3 3)).2.
Proof.
  apply (MakeMove_frame 3 3 (solved 3 3) (mkMove HorizontalAxis 0 1) (2, 1)).
  - vm_compute. split; [reflexivity|]. repeat constructor.
  - lia.
  - lia.
  - simpl. lia.
Defined.

(** ** NewBoard, Reset and IsSolved *)

Lemma resetTile_run b (x y : nat) col :
  b !! x = Some col -> (y < length col)%nat ->
  resetTile (Z.of_nat x) (Z.of_nat y) b =
    (Ret tt, <[x := <[y := defaultTileValue b (Z.of_nat x) (Z.of_nat y)]> col]> b).
Proof.
  intros Hx Hy. apply lookup_lt_is_Some in Hy as [v Hv].
  unfold resetTile, bind, gets, store, set.
  by rewrite !at_of_nat, Hx, at_of_nat, Hv, !Nat2Z.id.
Qed.

(** The inner loop of NewBoard and of Reset on column [x]. *)
Lemma fill_column W (x : nat) n :
  forall j col b,
  Width b = W -> b !! x = Some col -> (j + n <= length col)%nat ->
  forEach (Z.of_nat <$> seq j n) (fun y => resetTile (Z.of_nat x) y) b =
    (Ret tt,
     <[x := fill (fun y => Z.of_nat x + Z.of_nat y * W + 1) j n col]> b).
Proof.
  induction n as [|n IH]; intros j col b HW Hx Hn.
  - simpl. rewrite fill_none. by rewrite list_insert_id.
  - cbn [seq fmap list_fmap forEach].
    rewrite (bind_Ret _ _ _ _ _ (resetTile_run b x j col Hx ltac:(lia))).
    unfold defaultTileValue. rewrite HW.
    set (v := Z.of_nat x + Z.of_nat j * W + 1).
    rewrite (IH (S j) (<[j:=v]> col)).
    + rewrite list_insert_insert_eq. do 2 f_equal.
      apply (fill_step (fun y => Z.of_nat x + Z.of_nat y * W + 1)). lia.
    + unfold Width in *. by rewrite length_insert.
    + apply list_lookup_insert_eq. by eapply lookup_lt_Some.
    + rewrite length_insert. lia.
Qed.

(** A loop over the columns whose pass for [x] replaces column [x] by [F x]. *)
Lemma forEach_columns (Q : Board -> Prop) (body : Z -> M Board unit)
    (F : nat -> list Z) (w : nat) :
  (forall b, Q b -> length b = w) ->
  (forall b x, Q b -> (x < w)%nat ->
     body (Z.of_nat x) b = (Ret tt, <[x := F x]> b) /\ Q (<[x := F x]> b)) ->
  forall n j b, Q b -> (j + n <= w)%nat ->
  forEach (Z.of_nat <$> seq j n) body b = (Ret tt, fill F j n b) /\
  Q (fill F j n b).
Proof.
  intros Hlen Hbody. induction n as [|n IH]; intros j b Hq Hn.
  - rewrite fill_none. done.
  - cbn [seq fmap list_fmap forEach].
    destruct (Hbody b j Hq ltac:(lia)) as [Hrun Hq'].
    rewrite (bind_Ret _ _ _ _ _ Hrun).
    destruct (IH (S j) _ Hq' ltac:(lia)) as [Hrest Hq''].
    rewrite fill_step in Hrest, Hq'' by (rewrite (Hlen _ Hq); lia).
    done.
Qed.

Lemma solved_rect w h : rect w h (solved w h).
Proof.
  split.
  - unfold solved. by rewrite length_fmap, length_seq.
  - apply Forall_fmap, Forall_forall. intros x _. simpl.
    unfold solvedColumn. by rewrite length_fmap, length_seq.
Qed.

Lemma solved_cell w h x y :
  inside w h (x, y) -> cell (solved w h) (x, y) = Some (x + y * Z.of_nat w + 1).
Proof.
  unfold inside, cell, get, at_, solved, solvedColumn. simpl. intros [Hx Hy].
  rewrite decide_True by lia.
  rewrite list_lookup_fmap, lookup_seq_lt by lia. simpl.
  rewrite decide_True by lia.
  rewrite list_lookup_fmap, lookup_seq_lt by lia. simpl.
  f_equal. lia.
Qed.

Lemma storeColumn_run b (x : nat) col :
  (x < length b)%nat -> storeColumn (Z.of_nat x) col b = (Ret tt, <[x := col]> b).
Proof.
  intros Hx. apply lookup_lt_is_Some in Hx as [c Hc].
  unfold storeColumn. by rewrite at_of_nat, Hc, Nat2Z.id.
Qed.

(** The loops of NewBoard build the solved board. *)
Lemma NewBoard_run width height :
  1 < width -> 1 < height ->
  NewBoard width height = Ret (inl (solved (Z.to_nat width) (Z.to_nat height))).
Proof.
  intros Hw Hh. unfold NewBoard. rewrite !decide_False by lia.
  set (w := Z.to_nat width). set (h := Z.to_nat height).
  rewrite up_of_nat, length_replicate.
  destruct (forEach_columns (fun b => length b = w)
      (fun x => storeColumn x (replicate h 0) ;;;
                forEach (up height) (fun y => resetTile x y))
      (solvedColumn w h) w) with (n := w) (j := 0%nat) (b := replicate w ([] : list Z))
    as [Hrun _].
  - done.
  - intros b x Hb Hx. split; [|by rewrite length_insert].
    rewrite (bind_Ret _ _ _ _ _ (storeColumn_run b x _ ltac:(lia))).
    unfold up. fold h.
    rewrite (fill_column (Z.of_nat w) x h 0 (replicate h 0)).
    + rewrite list_insert_insert_eq. do 2 f_equal.
      apply fill_all, length_replicate.
    + unfold Width. by rewrite length_insert, Hb.
    + apply list_lookup_insert_eq. lia.
    + by rewrite length_replicate.
  - apply length_replicate.
  - done.
  - rewrite Hrun. do 2 f_equal. apply fill_all, length_replicate.
Qed.

(** Reset puts any board of the program in the solved state. *)
Lemma Reset_run w h b :
  rect w h b -> (0 < w)%nat -> Reset b = (Ret tt, solved w h).
Proof.
  intros Hr Hw. unfold Reset.
  rewrite (bind_Ret _ _ _ _ _ (width_run b)), (Width_rect _ _ _ Hr), up_of_nat.
  destruct (forEach_columns (rect w h)
      (fun x => let* h := height in forEach (up h) (fun y => resetTile x y))
      (solvedColumn w h) w) with (n := w) (j := 0%nat) (b := b) as [Hrun _].
  - by intros b' [? _].
  - intros b' x Hb' Hx.
    assert (is_Some (b' !! x)) as [col Hcol].
    { apply lookup_lt_is_Some. destruct Hb' as [-> _]. done. }
    assert (length col = h) as Hlen.
    { destruct Hb' as [_ Hall]. rewrite Forall_lookup in Hall. eauto. }
    split; [|apply rect_insert_column; [done|]; unfold solvedColumn;
              by rewrite length_fmap, length_seq].
    rewrite (bind_Ret _ _ _ _ _ (height_run _ _ _ Hb' Hw)), up_of_nat.
    rewrite (fill_column (Z.of_nat w) x h 0 col);
      [|by apply (Width_rect w h)|done|lia].
    do 2 f_equal. by apply fill_all.
  - done.
  - done.
  - rewrite Hrun. f_equal. apply fill_all. by destruct Hr.
Qed.

(** IsSolved answers true on the solved board. *)
Lemma IsSolved_solved w h :
  (0 < w)%nat -> IsSolved (solved w h) = (Ret true, solved w h).
Proof.
  intros Hw. pose proof (solved_rect w h) as Hr. unfold IsSolved.
  rewrite (bind_Ret _ _ _ _ _ (width_run _)), (Width_rect _ _ _ Hr).
  rewrite (bind_Ret _ _ (solved w h) None (solved w h)); [done|].
  apply forEachUntil_None. intros x Hx%elem_of_up.
  rewrite (bind_Ret _ _ _ _ _ (height_run _ _ _ Hr Hw)).
  apply forEachUntil_None. intros y Hy%elem_of_up.
  assert (inside w h (x, y)) as Hin by (unfold inside; simpl; lia).
  rewrite (bind_Ret _ _ _ _ _ (load_run _ _ _ _ (solved_cell _ _ _ _ Hin))).
  unfold bind, gets, defaultTileValue. rewrite (Width_rect _ _ _ Hr).
  by rewrite decide_False by (intros Hne; by apply Hne).
Qed.

(** ** C9 *)

(** C9. NewBoard fails, with its width or its height error, exactly when
    width <= 1 or height <= 1.  For width > 1 and height > 1 it returns a
    board of that shape in which every cell (x, y) holds x + y*width + 1, and
    IsSolved on that board returns true and leaves it as it is. *)
Theorem NewBoard_solved width height :
  ((exists e, NewBoard width height = Ret (inr e)) <-> width <= 1 \/ height <= 1) /\
  (1 < width -> 1 < height ->
   exists b, NewBoard width height = Ret (inl b) /\
     rect (Z.to_nat width) (Z.to_nat height) b /\
     (forall x y, 0 <= x < width -> 0 <= y < height ->
        get b x y = Some (x + y * width + 1)) /\
     IsSolved b = (Ret true, b)).
Proof.
  split.
  - destruct (decide (width <= 1 \/ height <= 1)) as [Hs|Hs].
    + split; [done|]. intros _. unfold NewBoard.
      destruct (decide (width <= 1)); [eauto|].
      rewrite decide_True by lia. eauto.
    + split; [|done]. intros [e He].
      rewrite NewBoard_run in He by lia. done.
  - intros Hw Hh. rewrite NewBoard_run by done. eexists. split; [done|].
    split_and!.
    + apply solved_rect.
    + intros x y Hx Hy.
      pose proof (solved_cell (Z.to_nat width) (Z.to_nat height) x y) as Hc.
      unfold cell in Hc. simpl in Hc. rewrite Hc.
      * f_equal. lia.
      * unfold inside. simpl. lia.
    + apply IsSolved_solved. lia.
Qed.

Lemma NewBoard_solved_witness :
  exists b, NewBoard 3 2 = Ret (inl b) /\
    rect (Z.to_nat 3) (Z.to_nat 2) b /\
    (forall x y, 0 <= x < 3 -> 0 <= y < 2 -> get b x y = Some (x + y * 3 + 1)) /\
    IsSolved b = (Ret true, b).
Proof.
  destruct (NewBoard_solved 3 2) as [_ H]. apply H; lia.
Defined.

(** ** The tiles stay numbered *)

Lemma solved_Permutation w h :
  concat (solved w h) ≡ₚ Z.of_nat <$> seq 1 (w * h).
Proof.
  unfold solved. rewrite concat_fmap_bind. apply NoDup_Permutation.
  - apply NoDup_bind; [| |apply NoDup_seq].
    + intros x1 x2 v Hx1 Hx2 Hv1 Hv2. unfold solvedColumn in *.
      apply elem_of_seq in Hx1, Hx2.
      apply list_elem_of_fmap in Hv1 as (y1 & -> & Hy1).
      apply list_elem_of_fmap in Hv2 as (y2 & Hv & Hy2).
      apply elem_of_seq in Hy1, Hy2.
      destruct (Nat.lt_trichotomy y1 y2) as [Hlt|[->|Hlt]]; [|lia|].
      * assert (Z.of_nat y1 * Z.of_nat w + Z.of_nat w <= Z.of_nat y2 * Z.of_nat w)
          by nia. lia.
      * assert (Z.of_nat y2 * Z.of_nat w + Z.of_nat w <= Z.of_nat y1 * Z.of_nat w)
          by nia. lia.
    + intros x Hx%elem_of_seq. unfold solvedColumn.
      apply NoDup_fmap_2_strong; [|apply NoDup_seq].
      intros y1 y2 _ _ Hy. nia.
  - apply NoDup_fmap_2; [|apply NoDup_seq]. intros ? ?. apply Nat2Z.inj.
  - intros v. rewrite list_elem_of_bind, list_elem_of_fmap. split.
    + intros (x & Hv & Hx%elem_of_seq). unfold solvedColumn in Hv.
      apply list_elem_of_fmap in Hv as (y & -> & Hy%elem_of_seq).
      exists (x + y * w + 1)%nat. split; [lia|]. apply elem_of_seq. nia.
    + intros (k & -> & Hk%elem_of_seq).
      assert (0 < w)%nat as Hw by nia.
      exists ((k - 1) mod w)%nat. split.
      * unfold solvedColumn. apply list_elem_of_fmap.
        exists ((k - 1) / w)%nat. split.
        -- pose proof (Nat.div_mod_eq (k - 1) w). nia.
        -- apply elem_of_seq. split; [lia|]. simpl.
           apply Nat.Div0.div_lt_upper_bound. nia.
      * apply elem_of_seq. split; [lia|]. simpl.
        apply Nat.mod_upper_bound. lia.
Qed.

Lemma solved_numbered w h : numbered w h (solved w h).
Proof. split; [apply solved_rect | apply solved_Permutation]. Qed.

Lemma preserves_onBoard {A} (I : Board -> Prop) (m : M Board A) :
  preserves I m -> preserves (fun w => I (board w)) (onBoard m).
Proof.
  intros Hm [b src pos] Hs. simpl in *. unfold onBoard. simpl.
  specialize (Hm b Hs). by destruct (m b).
Qed.

Lemma preserves_Intn (I : Board -> Prop) n :
  preserves (fun w => I (board w)) (Intn n).
Proof. intros s Hs. unfold Intn. by case_decide. Qed.

Lemma preserves_redraw (I : Board -> Prop) fuel x1 y1 :
  forall x2 y2, preserves (fun w => I (board w)) (redraw fuel x1 y1 x2 y2).
Proof.
  induction fuel as [|fuel IH]; intros x2 y2; simpl; case_decide;
    try apply preserves_ret; [by intros s Hs|].
  apply preserves_bind;
    [apply preserves_onBoard, preserves_pure, width_pure|intros w].
  apply preserves_bind; [apply preserves_Intn|intros x2'].
  apply preserves_bind;
    [apply preserves_onBoard, preserves_pure, height_pure|intros h].
  apply preserves_bind; [apply preserves_Intn|intros y2']. apply IH.
Qed.

Lemma swapTiles_numbered w h x1 y1 x2 y2 :
  preserves (numbered w h) (swapTiles x1 y1 x2 y2).
Proof.
  intros b [Hr Hp]. unfold swapTiles, bind, load, store.
  destruct (get b x2 y2) as [v2|] eqn:H2; [|done].
  destruct (get b x1 y1) as [v1|] eqn:H1; [|done].
  assert (is_Some (set b x1 y1 v2)) as [b1 Hb1] by (apply set_is_Some; eauto).
  rewrite Hb1.
  assert (get b1 x2 y2 = Some v2) as H2'.
  { destruct (decide ((x2, y2) = (x1, y1))) as [Heq|Hne].
    - simplify_eq. by eapply get_set_eq.
    - by rewrite (get_set_ne _ _ _ _ _ _ _ Hb1 Hne). }
  assert (is_Some (set b1 x2 y2 v1)) as [b2 Hb2] by (apply set_is_Some; eauto).
  rewrite Hb2. simpl. split.
  - eapply set_rect; [|done]. by eapply set_rect.
  - rewrite <- Hp. symmetry. apply (Permutation_cons_inv (a := v2)).
    etrans; [by eapply set_Permutation|]. by eapply set_Permutation.
Qed.

Lemma MakeMove_numbered w h m :
  (0 < w)%nat -> (0 < h)%nat -> preserves (numbered w h) (MakeMove m).
Proof.
  intros Hw Hh b [Hr Hp]. split.
  - by apply MakeMove_rect.
  - by rewrite (MakeMove_Permutation m w h).
Qed.

Lemma Reset_numbered w h :
  (0 < w)%nat -> preserves (numbered w h) Reset.
Proof.
  intros Hw b [Hr _]. rewrite (Reset_run _ _ _ Hr Hw). apply solved_numbered.
Qed.

Lemma FastShuffle_numbered w h fuel :
  preserves (fun s => numbered w h (board s)) (FastShuffle fuel).
Proof.
  unfold FastShuffle.
  apply preserves_bind;
    [apply (preserves_onBoard (numbered w h)), preserves_pure, width_pure|].
  intros w'. apply preserves_forEach. intros x1.
  apply preserves_bind;
    [apply (preserves_onBoard (numbered w h)), preserves_pure, height_pure|].
  intros h'. apply preserves_forEach. intros y1.
  apply preserves_bind; [apply (preserves_redraw (numbered w h))|].
  intros [x2 y2].
  apply (preserves_onBoard (numbered w h)), swapTiles_numbered.
Qed.

Lemma Shuffle_numbered w h iterations :
  (0 < w)%nat -> (0 < h)%nat ->
  preserves (fun s => numbered w h (board s)) (Shuffle iterations).
Proof.
  intros Hw Hh. unfold Shuffle.
  pose proof (fun A (m : M Board A) H =>
    preserves_onBoard (numbered w h) m (preserves_pure _ m H)) as Hpure.
  apply preserves_bind.
  { case_decide; [|apply preserves_ret].
    apply preserves_bind; [apply Hpure, width_pure|intros w'].
    apply preserves_bind; [apply Hpure, height_pure|intros h'].
    apply preserves_ret. }
  intros n. apply preserves_foldM. intros _ moves. unfold shufflePass.
  apply preserves_bind; [apply (preserves_Intn (numbered w h))|intros r].
  apply preserves_bind.
  { case_decide.
    - apply preserves_bind; [apply Hpure, width_pure|intros ?; apply preserves_ret].
    - apply preserves_bind; [apply Hpure, height_pure|intros ?; apply preserves_ret]. }
  intros [a max].
  apply preserves_bind; [apply (preserves_Intn (numbered w h))|intros index].
  apply preserves_bind; [apply (preserves_Intn (numbered w h))|intros k].
  apply preserves_bind; [|intros ?; apply preserves_ret].
  by apply (preserves_onBoard (numbered w h)), MakeMove_numbered.
Qed.

(** ** C3 *)

(** C3. For width > 1 and height > 1, NewBoard returns a board whose tiles
    are the numbers 1, ..., width*height, each exactly once, and from a board
    with that property Reset, MakeMove of any Move, FastShuffle (whatever the
    random source and the bound on redraws) and Shuffle (whatever the random
    source and the number of iterations) stop in a board with that property
    again. *)
Theorem numbered_invariant width height :
  1 < width -> 1 < height ->
  (exists b0, NewBoard width height = Ret (inl b0) /\
              numbered (Z.to_nat width) (Z.to_nat height) b0) /\
  (forall b, numbered (Z.to_nat width) (Z.to_nat height) b ->
     numbered (Z.to_nat width) (Z.to_nat height) (Reset b).2 /\
     (forall m,
        numbered (Z.to_nat width) (Z.to_nat height) (MakeMove m b).2) /\
     (forall src pos fuel,
        numbered (Z.to_nat width) (Z.to_nat height)
          (board (FastShuffle fuel (mkWorld b src pos)).2)) /\
     (forall src pos iterations,
        numbered (Z.to_nat width) (Z.to_nat height)
          (board (Shuffle iterations (mkWorld b src pos)).2))).
Proof.
  intros Hw Hh. split.
  - rewrite NewBoard_run by done. eexists. split; [done|]. apply solved_numbered.
  - intros b Hb. split_and!.
    + apply Reset_numbered; [lia|done].
    + intros m. apply MakeMove_numbered; [lia..|done].
    + intros src pos fuel.
      by apply (FastShuffle_numbered _ _ fuel (mkWorld b src pos)).
    + intros src pos iterations.
      apply (Shuffle_numbered (Z.to_nat width) (Z.to_nat height) iterations
               ltac:(lia) ltac:(lia) (mkWorld b src pos)).
      done.
Qed.

Lemma numbered_invariant_witness :
  (exists b0, NewBoard 2 3 = Ret (inl b0) /\
              numbered (Z.to_nat 2) (Z.to_nat 3) b0) /\
  (forall b, numbered (Z.to_nat 2) (Z.to_nat 3) b ->
     numbered (Z.to_nat 2) (Z.to_nat 3) (Reset b).2 /\
     (forall m, numbered (Z.to_nat 2) (Z.to_nat 3) (MakeMove m b).2) /\
     (forall src pos fuel,
        numbered (Z.to_nat 2) (Z.to_nat 3)
          (board (FastShuffle fuel (mkWorld b src pos)).2)) /\
     (forall src pos iterations,
        numbered (Z.to_nat 2) (Z.to_nat 3)
          (board (Shuffle iterations (mkWorld b src pos)).2))).
Proof. apply (numbered_invariant 2 3); lia. Defined.

(** ** Shuffle *)

Lemma Intn_run n s :
  0 < n ->
  Intn n s = (Ret (rand_source s (rand_pos s) mod n),
              mkWorld (board s) (rand_source s) (S (rand_pos s))) /\
  0 <= rand_source s (rand_pos s) mod n < n.
Proof.
  intros Hn. unfold Intn. rewrite decide_False by lia.
  split; [done|]. by apply Z.mod_pos_bound.
Qed.

Lemma Intn_inv n s v s' :
  Intn n s = (Ret v, s') -> 0 <= v < n /\ board s' = board s.
Proof.
  unfold Intn. case_decide; [done|]. intros [= <- <-]. split; [|done].
  apply Z.mod_pos_bound. lia.
Qed.

Lemma onBoard_run {A} (m : M Board A) s r b' :
  m (board s) = (r, b') -> onBoard m s = (r, mkWorld b' (rand_source s) (rand_pos s)).
Proof. unfold onBoard. by intros ->. Qed.

Lemma onBoard_width_inv s w s' :
  onBoard width s = (Ret w, s') -> w = Width (board s) /\ s' = s.
Proof. destruct s. unfold onBoard, width, gets. simpl. by intros [= <- <-]. Qed.

Lemma onBoard_height_inv s h s' :
  onBoard height s = (Ret h, s') -> Height (board s) = Some h /\ s' = s.
Proof.
  destruct s as [b src pos]. unfold onBoard, height. simpl.
  destruct (Height b); [|done]. by intros [= <- <-].
Qed.

Lemma Shuffle_negative iterations s :
  iterations < 0 -> Shuffle iterations s = (Ret 0, s).
Proof.
  intros Hn. unfold Shuffle. rewrite decide_False by lia.
  rewrite (bind_Ret _ _ s iterations s) by done.
  by rewrite up_nonpos by lia.
Qed.

(** One pass of Shuffle's loop on a square board: three draws, one Move
    applied, the counter one up. *)
Lemma Shuffle_pass n b src pos moves :
  rect n n b -> (1 < n)%nat ->
  exists b',
    shufflePass moves (mkWorld b src pos)
      = (Ret (moves + 1), mkWorld b' src (3 + pos)) /\
    rect n n b'.
Proof.
  intros Hr Hn. unfold shufflePass.
  destruct (Intn_run 2 (mkWorld b src pos) ltac:(lia)) as [H1 _].
  rewrite (bind_Ret _ _ _ _ _ H1). simpl.
  set (s1 := mkWorld b src (S pos)).
  assert (exists a,
    (if decide (src pos mod 2 = 0) then
       let* w := onBoard width in ret (HorizontalAxis, w)
     else
       let* h := onBoard height in ret (VerticalAxis, h)) s1
    = (Ret (a, Z.of_nat n), s1)) as [a Ha].
  { case_decide.
    - exists HorizontalAxis. unfold bind.
      rewrite (onBoard_run width s1 _ _ (width_run b)).
      by rewrite (Width_rect _ _ _ Hr).
    - exists VerticalAxis. unfold bind.
      by rewrite (onBoard_run height s1 _ _ (height_run _ _ _ Hr ltac:(lia))). }
  rewrite (bind_Ret _ _ _ _ _ Ha).
  destruct (Intn_run (Z.of_nat n) s1 ltac:(lia)) as [H2 Hi].
  rewrite (bind_Ret _ _ _ _ _ H2). simpl.
  set (s2 := mkWorld b src (S (S pos))).
  destruct (Intn_run (Z.of_nat n - 1) s2 ltac:(lia)) as [H3 Hk].
  rewrite (bind_Ret _ _ _ _ _ H3). simpl.
  set (m := mkMove a _ _).
  assert (line_exists (Move_Axis m) (Move_Index m) n n) as He.
  { unfold line_exists, m, s1 in *. simpl in *. destruct a; lia. }
  pose proof (MakeMove_run m n n b Hr ltac:(lia) ltac:(lia) He) as Hm.
  rewrite (bind_Ret _ _ _ _ _ (onBoard_run _ (mkWorld b src (S (S (S pos)))) _ _ Hm)).
  simpl. eexists. split; [done|]. apply iter_rect; [done|lia..].
Qed.

(** On a square board, where every validated Move addresses a line the
    board has, Shuffle runs as many passes as asked, width + height of them
    when asked for 0; each pass draws three numbers and applies one Move, and
    the number of passes is returned. *)
Lemma Shuffle_square n b src pos iterations :
  rect n n b -> (1 < n)%nat -> 0 <= iterations ->
  exists b',
    Shuffle iterations (mkWorld b src pos) =
      (Ret (if decide (iterations = 0) then Z.of_nat n + Z.of_nat n else iterations),
       mkWorld b' src
         (3 * Z.to_nat (if decide (iterations = 0)
                        then Z.of_nat n + Z.of_nat n else iterations) + pos)) /\
    rect n n b'.
Proof.
  intros Hr Hn Hi. unfold Shuffle.
  set (count := if decide (iterations = 0) then Z.of_nat n + Z.of_nat n else iterations).
  assert ((if decide (iterations = 0) then
             let* w := onBoard width in
             let* h := onBoard height in ret (w + h)
           else ret iterations) (mkWorld b src pos)
          = (Ret count, mkWorld b src pos)) as Hcount.
  { unfold count. case_decide; [|done].
    rewrite (bind_Ret _ _ _ _ _ (onBoard_run width (mkWorld b src pos) _ _ (width_run b))).
    rewrite (bind_Ret _ _ _ _ _
      (onBoard_run height (mkWorld b src pos) _ _ (height_run _ _ _ Hr ltac:(lia)))).
    by rewrite (Width_rect _ _ _ Hr). }
  rewrite (bind_Ret _ _ _ _ _ Hcount).
  assert (0 <= count) as Hc by (unfold count; case_decide; lia).
  assert (forall (l : list Z) b pos moves, rect n n b ->
    exists b',
      foldM l moves (fun _ moves => shufflePass moves) (mkWorld b src pos)
        = (Ret (moves + Z.of_nat (length l)), mkWorld b' src (3 * length l + pos)) /\
      rect n n b') as Hloop.
  { clear -Hn. induction l as [|x l IH]; intros b pos moves Hr.
    - exists b. split; [|done]. simpl. unfold ret. do 2 f_equal. lia.
    - destruct (Shuffle_pass n b src pos moves Hr Hn) as (b1 & H1 & Hr1).
      destruct (IH b1 (3 + pos)%nat (moves + 1) Hr1) as (b' & H2 & Hr').
      exists b'. split; [|done]. cbn [foldM].
      rewrite (bind_Ret _ _ _ _ _ H1), H2. cbn [length].
      replace (moves + 1 + Z.of_nat (length l)) with (moves + Z.of_nat (S (length l)))
        by lia.
      by replace (3 * length l + (3 + pos))%nat with (3 * S (length l) + pos)%nat
        by lia. }
  destruct (Hloop (up count) b pos 0 Hr) as (b' & Hrun & Hr').
  exists b'. split; [|done]. rewrite Hrun, up_length.
  do 2 f_equal. lia.
Qed.

(** ** C6 *)

(** C6.  The claim (and the comment above Shuffle) has every
    [iterations <= 0] replaced by width + height.  The code tests
    [iterations == 0] only: with -1 on the 2 by 2 board the loop condition
    [moves < iterations] fails at once, no random number is drawn, no Move is
    applied and Shuffle returns 0, where the claim has 4 iterations. *)
Theorem Shuffle_negative_runs_nothing src :
  Shuffle (-1) (mkWorld (solved 2 2) src 0) = (Ret 0, mkWorld (solved 2 2) src 0).
Proof. reflexivity. Qed.

(** ** FastShuffle *)

(** The cell FastShuffle swaps with differs from the visited cell in BOTH
    coordinates: the loop redraws while [x1 == x2 || y1 == y2]. *)
Lemma redraw_differs fuel x1 y1 :
  forall x2 y2 s x y s',
  redraw fuel x1 y1 x2 y2 s = (Ret (x, y), s') -> x <> x1 /\ y <> y1.
Proof.
  induction fuel as [|fuel IH]; intros x2 y2 s x y s'; simpl; case_decide;
    try done.
  - unfold ret. intros [= <- <- <-]. split; intros ->; tauto.
  - intros (w & s1 & _ & Hrest)%bind_Ret_inv.
    apply bind_Ret_inv in Hrest as (x2' & s2 & _ & Hrest).
    apply bind_Ret_inv in Hrest as (h & s3 & _ & Hrest).
    apply bind_Ret_inv in Hrest as (y2' & s4 & _ & Hrest).
    by eapply IH.
  - unfold ret. intros [= <- <- <-]. split; intros ->; tauto.
Qed.

(** What the redraw loop of FastShuffle returns: a cell that differs from
    (x1, y1) in both coordinates, drawn within the board unless it is the
    cell the loop started from; the board is not touched. *)
Lemma redraw_spec fuel x1 y1 :
  forall x2 y2 s x y s',
  redraw fuel x1 y1 x2 y2 s = (Ret (x, y), s') ->
  board s' = board s /\ x <> x1 /\ y <> y1 /\
  ((x = x2 /\ y = y2) \/
   (0 <= x < Width (board s) /\
    exists h, Height (board s) = Some h /\ 0 <= y < h)).
Proof.
  induction fuel as [|fuel IH]; intros x2 y2 s x y s'; simpl; case_decide;
    try done.
  - unfold ret. intros [= <- <- <-]. split_and!; [done| | |by left]; intros ->; tauto.
  - intros (w & s1 & [-> ->]%onBoard_width_inv & Hrest)%bind_Ret_inv.
    apply bind_Ret_inv in Hrest as (x2' & s2 & [Hx2 Hb2]%Intn_inv & Hrest).
    apply bind_Ret_inv in Hrest as (h & s3 & [Hh ->]%onBoard_height_inv & Hrest).
    apply bind_Ret_inv in Hrest as (y2' & s4 & [Hy2 Hb4]%Intn_inv & Hrest).
    apply IH in Hrest as (Hb & Hx & Hy & Hin).
    rewrite Hb4, Hb2 in *. split_and!; [done..|]. right.
    destruct Hin as [[-> ->]|Hin]; [|done]. eauto.
  - unfold ret. intros [= <- <- <-]. split_and!; [done| | |by left]; intros ->; tauto.
Qed.

(** On a 2 by 2 board the only cell that differs from a cell in both
    coordinates is the opposite corner: FastShuffle swaps (0,0) with (1,1),
    (0,1) with (1,0), (1,0) with (0,1) and (1,1) with (0,0), and whenever it
    returns the board is the one it started from. *)
Lemma FastShuffle_2x2_identity fuel b src pos s' :
  rect 2 2 b ->
  FastShuffle fuel (mkWorld b src pos) = (Ret tt, s') -> board s' = b.
Proof.
  intros [Hl Hall].
  destruct b as [|[|a [|b0 [|? ?]]] [|[|c [|d [|? ?]]] [|? ?]]];
    try (simpl in Hl; lia);
    try (repeat (apply Forall_cons in Hall as [? Hall]); simpl in *; lia).
  clear Hl Hall.
  assert (forall x1 y1 b1 src1 pos1 s1,
    0 <= x1 < 2 -> 0 <= y1 < 2 -> rect 2 2 b1 ->
    (let* '(x2, y2) := redraw fuel x1 y1 x1 y1 in
     onBoard (swapTiles x1 y1 x2 y2)) (mkWorld b1 src1 pos1) = (Ret tt, s1) ->
    (swapTiles x1 y1 (1 - x1) (1 - y1) b1).1 = Ret tt /\
    board s1 = (swapTiles x1 y1 (1 - x1) (1 - y1) b1).2) as Hstep.
  { intros x1 y1 b1 src1 pos1 s1 Hx1 Hy1 Hr1 Hrun.
    apply bind_Ret_inv in Hrun as ([x2 y2] & s2 & Hre & Hswap).
    apply redraw_spec in Hre as (Hb & Hx & Hy & Hin). simpl in *.
    destruct Hin as [[-> ->]|(Hxr & h & Hh & Hyr)]; [done|].
    rewrite (Width_rect _ _ _ Hr1) in Hxr.
    rewrite (Height_rect _ _ _ Hr1) in Hh by lia.
    injection Hh as <-.
    assert (x2 = 1 - x1) as -> by lia. assert (y2 = 1 - y1) as -> by lia.
    unfold onBoard in Hswap. rewrite Hb in Hswap.
    destruct (swapTiles _ _ _ _ b1) as [r b2]. by simplify_eq. }
  assert (forall x1 s1 s2, 0 <= x1 < 2 -> rect 2 2 (board s1) ->
    (let* h := onBoard height in
     forEach (up h) (fun y1 =>
       let* '(x2, y2) := redraw fuel x1 y1 x1 y1 in
       onBoard (swapTiles x1 y1 x2 y2))) s1 = (Ret tt, s2) ->
    board s2 =
      (swapTiles x1 1 (1 - x1) 0 (swapTiles x1 0 (1 - x1) 1 (board s1)).2).2 /\
    (swapTiles x1 0 (1 - x1) 1 (board s1)).1 = Ret tt) as Hcol.
  { intros x1 [b1 src1 pos1] s2 Hx1 Hr1 Hrun. simpl in Hr1.
    apply bind_Ret_inv in Hrun as (h & s0 & [Hh ->]%onBoard_height_inv & Hrun).
    simpl in Hh. rewrite (Height_rect _ _ _ Hr1) in Hh by lia.
    injection Hh as <-. change (up (Z.of_nat 2)) with [0; 1] in Hrun.
    apply forEach_two in Hrun as ([b2 src2 pos2] & H0 & H1).
    apply Hstep in H0 as [Hr0 Hb0]; [|lia..|done]. simpl in Hb0. subst b2.
    apply Hstep in H1 as [_ Hb1]; [done|lia..|].
    unfold swapTiles, bind, load, store in Hr0 |- *.
    destruct (get b1 _ _); [|done]. destruct (get b1 _ _); [|done].
    destruct (set b1 _ _ _) as [b2|] eqn:H2; [|done].
    destruct (set b2 _ _ _) as [b3|] eqn:H3; [|done]. simpl.
    eapply set_rect; [|done]. by eapply set_rect. }
  intros Hrun. unfold FastShuffle in Hrun.
  apply bind_Ret_inv in Hrun as (w & s0 & [-> ->]%onBoard_width_inv & Hrun).
  change (up (Width _)) with [0; 1] in Hrun.
  apply forEach_two in Hrun as (s1 & H0 & H1).
  apply Hcol in H0 as [Hb0 _]; [|lia|by apply (bool_decide_unpack _)].
  simpl in Hb0.
  apply Hcol in H1 as [Hb1 _]; [|lia|rewrite Hb0; by apply (bool_decide_unpack _)].
  rewrite Hb1, Hb0. reflexivity.
Qed.

(** ** C7 *)

(** C7.  The claim has the swap partner of a cell be any other cell, one
    that differs in at least one coordinate.  Visiting cell (0, 0) of the
    2 by 2 board with the draws x2 = 0, y2 = 1, a different cell in the same
    column, the loop of FastShuffle does not take it: it draws again and
    settles on (1, 1).  (The comment in the loop says it redraws "if x1 is
    equal to x2 and y1 is equal to y2"; the condition has "or".) *)
Theorem FastShuffle_redraws_cell_in_same_line :
  Intn 2 (mkWorld (solved 2 2) draws0111 0)
    = (Ret 0, mkWorld (solved 2 2) draws0111 1) /\
  Intn 2 (mkWorld (solved 2 2) draws0111 1)
    = (Ret 1, mkWorld (solved 2 2) draws0111 2) /\
  redraw 2 0 0 0 0 (mkWorld (solved 2 2) draws0111 0)
    = (Ret (1, 1), mkWorld (solved 2 2) draws0111 4).
Proof. split_and!; reflexivity. Qed.

(** ** ParseMove on the parts of its input *)

Lemma parseAmountIndex_split pre a post axis board :
  parseAmountIndex (pre ++ a :: post) (Z.of_nat (length pre)) axis board =
    parseParts pre post axis board.
Proof.
  unfold parseAmountIndex, parseParts. cbv zeta.
  rewrite Nat2Z.id, take_app_length.
  replace (Z.to_nat (Z.of_nat (length pre) + 1)) with (S (length pre)) by lia.
  rewrite drop_middle.
  destruct (decide (pre = [])) as [->|Hpre]; [done|].
  rewrite decide_False by (by destruct pre).
  destruct (Atoi pre) as [amount [e|]]; [done|].
  destruct (decide (amount = 0)); [done|].
  destruct (decide (post = [])) as [->|Hpost]; [done|].
  rewrite decide_False by (by destruct post).
  rewrite at_last by (by destruct pre).
  rewrite last_app_cons.
  replace (last (a :: post)) with (last post); [done|].
  destruct post; [done|]. by rewrite last_cons_cons.
Qed.

Lemma bounds_check (axis : Axis) j dim amount (R : Prop) :
  (0 <= j < dim <-> R) ->
  (R -> exists m,
     (if decide (j < 0) then Ret (inr ErrNegativeIndex)
      else if decide (j >= dim) then Ret (inr (ErrIndexTooLarge dim))
      else Ret (inl (mkMove axis j amount))) = Ret (inl m)) /\
  (~ R -> exists e,
     (if decide (j < 0) then Ret (inr ErrNegativeIndex)
      else if decide (j >= dim) then Ret (inr (ErrIndexTooLarge dim))
      else Ret (inl (mkMove axis j amount))) = Ret (inr e)).
Proof.
  intros Hj. split.
  - intros Hin%Hj. rewrite !decide_False by lia. eauto.
  - intros Hout. repeat case_decide; eauto. exfalso. apply Hout, Hj. lia.
Qed.

Lemma parseParts_accepted pre post (axis : Axis) w h b :
  rect w h b -> (1 < w)%nat -> (1 < h)%nat ->
  is_int (Z.of_nat w) -> is_int (Z.of_nat h) ->
  (partsAccepted pre post (if axis then Z.of_nat w else Z.of_nat h) ->
   exists m, parseParts pre post axis b = Ret (inl m)) /\
  (~ partsAccepted pre post (if axis then Z.of_nat w else Z.of_nat h) ->
   exists e, parseParts pre post axis b = Ret (inr e)).
Proof.
  intros Hr Hw Hh Hiw Hih.
  set (dim := if axis then Z.of_nat w else Z.of_nat h).
  assert (dimension axis b = Some dim) as Hdim.
  { unfold dimension, dim. destruct axis; [by rewrite (Width_rect _ _ _ Hr)|].
    apply (Height_rect w h); [done|lia]. }
  assert (2 <= dim /\ is_int dim) as [Hd Hid].
  { unfold dim. destruct axis; split; (lia || done). }
  unfold parseParts, partsAccepted. cbv zeta. rewrite Hdim.
  fold (reversedIndex post). fold (indexText post).
  destruct (decide (pre = [])) as [->|Hpre]; [split; [tauto|eauto]|].
  destruct (Atoi pre) as [amount [e|]] eqn:Hamt; simpl;
    [split; [intros (_ & ? & _); done|eauto]|].
  destruct (decide (amount = 0)) as [->|Hnz]; [split; [tauto|eauto]|].
  destruct (decide (post = [])) as [->|Hpost]; [split; [tauto|eauto]|].
  destruct (Atoi (indexText post)) as [i [e|]] eqn:Hidx; simpl;
    [split; [intros (_ & _ & _ & _ & ? & _); done|eauto]|].
  apply Atoi_ok in Hidx as (_ & _ & Hi).
  pose proof (reverse_in_range dim i Hi Hd Hid) as Hrev.
  destruct (reversedIndex post); simpl.
  - destruct (bounds_check axis _ dim amount _ Hrev) as [Hyes Hno].
    split; [intros (_ & _ & _ & _ & _ & ?); by apply Hyes|].
    intros Hn. apply Hno. intros Hin. apply Hn. split_and!; (done || lia).
  - destruct (bounds_check axis i dim amount (0 <= i < dim)) as [Hyes Hno];
      [done|].
    split; [intros (_ & _ & _ & _ & _ & ?); by apply Hyes|].
    intros Hn. apply Hno. intros Hin. apply Hn. split_and!; (done || lia).
Qed.

Lemma first_letter s :
  Forall (fun c => 0 <= c < 128) s ->
  letterFree s \/
  exists pre a post, s = pre ++ a :: post /\ letterFree pre /\ asciiLetter a.
Proof.
  induction 1 as [|c s Hc _ [IH|(pre & a & post & -> & Hpre & Ha)]].
  - left. constructor.
  - destruct (decide (asciiLetter c)) as [Hl|Hl].
    + right. exists [], c, s. split_and!; [done|constructor|done].
    + left. by constructor.
  - right. destruct (decide (asciiLetter c)) as [Hl|Hl].
    + exists [], c, (pre ++ a :: post). split_and!; [done|constructor|done].
    + exists (c :: pre), a, post. split_and!; [done|by constructor|done].
Qed.

Lemma first_letter_unique pre a post pre' a' post' :
  pre ++ a :: post = pre' ++ a' :: post' ->
  letterFree pre -> asciiLetter a -> letterFree pre' -> asciiLetter a' ->
  pre = pre' /\ a = a' /\ post = post'.
Proof.
  intros Heq Hpre Ha Hpre' Ha'. revert pre' Heq Hpre'.
  induction Hpre as [|c pre [_ Hc] _ IH]; intros [|c' pre'] Heq Hpre';
    simplify_eq/=.
  - done.
  - apply Forall_cons in Hpre' as [[_ ?] _]. done.
  - done.
  - apply Forall_cons in Hpre' as [_ Hpre'].
    destruct (IH pre' ltac:(done) Hpre') as (-> & -> & ->). done.
Qed.

(** ParseMove on an input of ASCII text: it returns an error exactly on
    the inputs the specification lists, and a Move on all others. *)
Lemma ParseMove_ascii letterTable lowerTable input w h b :
  rect w h b -> (1 < w)%nat -> (1 < h)%nat ->
  is_int (Z.of_nat w) -> is_int (Z.of_nat h) ->
  Forall (fun c => c < 128) (bytes input) ->
  ((exists e, ParseMove letterTable lowerTable input b = Ret (inr e)) <->
   rejected (bytes input) (Z.of_nat w) (Z.of_nat h)) /\
  (~ rejected (bytes input) (Z.of_nat w) (Z.of_nat h) ->
   exists m, ParseMove letterTable lowerTable input b = Ret (inl m)).
Proof.
  intros Hr Hw Hh Hiw Hih Hascii.
  assert (Forall (fun c => 0 <= c < 128) (bytes input)) as Hb.
  { pose proof (bytes_range input) as Hrange.
    rewrite Forall_forall in *. intros c Hc.
    specialize (Hascii c Hc). specialize (Hrange c Hc). lia. }
  destruct (decide (bytes input = [])) as [Hnil|Hne].
  { split; [|intros Hn; exfalso; apply Hn; by left].
    split; [by left|]. intros _. unfold ParseMove. rewrite Hnil. simpl. eauto. }
  destruct (first_letter _ Hb) as [Hfree|(pre & a & post & Hs & Hpre & Ha)].
  { split; [|intros Hn; exfalso; apply Hn; right; by left].
    split; [right; by left|]. intros _.
    rewrite ParseMove_no_letter by done. eauto. }
  rewrite (ParseMove_split _ _ input pre a post b Hs Hpre Ha).
  rewrite !parseAmountIndex_split.
  assert (rejected (bytes input) (Z.of_nat w) (Z.of_nat h) <->
    a ∉ [114; 82; 99; 67] \/
    ~ partsAccepted pre post
        (if decide (a = 114 \/ a = 82) then Z.of_nat w else Z.of_nat h)) as ->.
  { unfold rejected. rewrite Hs. split.
    - intros [Hnil|[Hfree|(pre' & a' & post' & Heq & Hpre' & Ha' & Hcond)]].
      + by destruct pre.
      + apply Forall_app in Hfree as [_ Hfree].
        apply Forall_cons in Hfree as [[_ ?] _]. done.
      + by destruct (first_letter_unique _ _ _ _ _ _ Heq Hpre Ha Hpre' Ha')
          as (-> & -> & ->).
    - intros Hcond. right. right. by exists pre, a, post. }
  rewrite axis_letters.
  pose proof (parseParts_accepted pre post HorizontalAxis w h b Hr Hw Hh Hiw Hih) as HH.
  pose proof (parseParts_accepted pre post VerticalAxis w h b Hr Hw Hh Hiw Hih) as HV.
  simpl in HH, HV.
  destruct (decide (a = 114 \/ a = 82)) as [Hrow|Hrow].
  - destruct HH as [Hyes Hno].
    destruct (decide (partsAccepted pre post (Z.of_nat w))) as [Hok|Hok].
    + destruct (Hyes Hok) as [m Hm]. rewrite Hm. split; [|eauto].
      split; [intros [e He]; done|]. intros [?|?]; tauto.
    + destruct (Hno Hok) as [e He]. rewrite He. split; [|tauto].
      split; [tauto|eauto].
  - destruct (decide (a = 99 \/ a = 67)) as [Hcol|Hcol].
    + destruct HV as [Hyes Hno].
      destruct (decide (partsAccepted pre post (Z.of_nat h))) as [Hok|Hok].
      * destruct (Hyes Hok) as [m Hm]. rewrite Hm. split; [|eauto].
        split; [intros [e He]; done|]. intros [?|?]; tauto.
      * destruct (Hno Hok) as [e He]. rewrite He. split; [|tauto].
        split; [tauto|eauto].
    + split; [|tauto]. split; [tauto|eauto].
Qed.

(** ** C4 *)

(** C4.  The claim has ParseMove return an error on every input it lists,
    a non-numeric amount among them.  On the three bytes of "×r" the text
    before the letter is not a number, yet ParseMove returns no error: the
    loop finds the letter at BYTE index 2, [[]rune(input)] has two runes
    only, and indexing it at 2 panics.  No table of package unicode is
    consulted beyond Latin-1, where U+00D7 is not a letter. *)
Theorem ParseMove_panics_after_multibyte_rune letterTable lowerTable b :
  bytes timesR = [195; 151; 114] /\
  rangeString (bytes timesR) = [(0, 215); (2, 114)] /\
  Atoi [195; 151] = (0, Some ErrSyntax) /\
  ParseMove letterTable lowerTable timesR b = Panic.
Proof. by split_and!. Qed.

(** ** C5 *)

(** C5, as the claim has it, fails on "1R'": nothing is left of the index
    substring once the apostrophe is stripped, and ParseMove fails with its
    "invalid number for index" error (the failure of Atoi on the empty
    string), not with the error it has for a missing index, which it only
    reports when nothing at all follows the axis letter, as in "1R". *)
Lemma ParseMove_bare_apostrophe_is_InvalidIndex :
  ParseMove noLetterTable noCaseTable "1R'" (solved 5 5)
    = Ret (inr ErrInvalidIndex) /\
  ParseMove noLetterTable noCaseTable "1R'" (solved 5 5)
    <> Ret (inr ErrMissingIndex) /\
  ParseMove noLetterTable noCaseTable "1R" (solved 5 5)
    = Ret (inr ErrMissingIndex).
Proof. split_and!; [reflexivity|done|reflexivity]. Qed.

(** C5, amended.  For an input that ends in an apostrophe and has a valid
    amount and axis letter before it, ParseMove strips the apostrophe from
    the index substring and reverses the index: when what is left is not a
    number, the EMPTY string included, it fails with its "invalid number for
    index" error; otherwise the parsed index i is replaced by
    dimension - 1 - i (the width for "r"/"R", the height for "c"/"C") before
    the bounds check, which returns the Move when that value is in
    [0, dimension) and one of the two out-of-range errors when it is not.
    On a board of width 5, "1R0'" gives a Move with index 4. *)
Theorem ParseMove_reverse_index letterTable lowerTable input amt a idx n w h b :
  rect w h b -> (1 < w)%nat -> (1 < h)%nat ->
  is_int (Z.of_nat w) -> is_int (Z.of_nat h) ->
  bytes input = amt ++ a :: idx ++ [39] ->
  a ∈ [114; 82; 99; 67] ->
  Atoi amt = (n, None) -> n <> 0 ->
  (match Atoi idx with
   | (_, Some _) =>
       ParseMove letterTable lowerTable input b = Ret (inr ErrInvalidIndex)
   | (i, None) =>
       let axis := bool_decide (a = 114 \/ a = 82) in
       let dim := if axis then Z.of_nat w else Z.of_nat h in
       if decide (0 <= dim - 1 - i < dim)
       then ParseMove letterTable lowerTable input b
              = Ret (inl (mkMove axis (dim - 1 - i) n))
       else ParseMove letterTable lowerTable input b = Ret (inr ErrNegativeIndex) \/
            ParseMove letterTable lowerTable input b = Ret (inr (ErrIndexTooLarge dim))
   end) /\
  (w = 5%nat ->
   ParseMove letterTable lowerTable "1R0'" b = Ret (inl (mkMove HorizontalAxis 4 1))).
Proof.
  intros Hr Hw Hh Hiw Hih Hs Ha Hamt Hn.
  assert (forall input' amt' a' idx' n',
    bytes input' = amt' ++ a' :: idx' ++ [39] -> a' ∈ [114; 82; 99; 67] ->
    Atoi amt' = (n', None) -> n' <> 0 ->
    ParseMove letterTable lowerTable input' b =
      match Atoi idx' with
      | (_, Some _) => Ret (inr ErrInvalidIndex)
      | (i, None) =>
          let axis := bool_decide (a' = 114 \/ a' = 82) in
          let dim := if axis then Z.of_nat w else Z.of_nat h in
          if decide (wrap (dim - 1 - i) < 0) then Ret (inr ErrNegativeIndex)
          else if decide (wrap (dim - 1 - i) >= dim)
          then Ret (inr (ErrIndexTooLarge dim))
          else Ret (inl (mkMove axis (wrap (dim - 1 - i)) n'))
      end) as Hgen.
  { clear -Hr Hw Hh. intros input amt a idx n Hs Ha%axis_letters Hamt Hn.
    destruct (Atoi_ok _ _ Hamt) as (Hne & Hnum & _).
    rewrite (ParseMove_split _ _ input amt a (idx ++ [39]) b Hs).
    2:{ eapply Forall_impl; [done|]. apply numeralByte_not_letter. }
    2:{ unfold asciiLetter. lia. }
    assert (parseParts amt (idx ++ [39]) (bool_decide (a = 114 \/ a = 82)) b =
      match Atoi idx with
      | (_, Some _) => Ret (inr ErrInvalidIndex)
      | (i, None) =>
          let axis := bool_decide (a = 114 \/ a = 82) in
          let dim := if axis then Z.of_nat w else Z.of_nat h in
          if decide (wrap (dim - 1 - i) < 0) then Ret (inr ErrNegativeIndex)
          else if decide (wrap (dim - 1 - i) >= dim)
          then Ret (inr (ErrIndexTooLarge dim))
          else Ret (inl (mkMove axis (wrap (dim - 1 - i)) n))
      end) as Hparts.
    { unfold parseParts. cbv zeta. rewrite decide_False by done.
      rewrite Hamt. rewrite decide_False by done.
      rewrite decide_False by (by destruct idx).
      rewrite last_snoc, bool_decide_eq_true_2 by done.
      rewrite length_app. simpl.
      replace (length idx + 1 - 1)%nat with (length idx) by lia.
      rewrite take_app_length.
      destruct (Atoi idx) as [i [e|]]; [done|].
      unfold dimension.
      rewrite (Width_rect _ _ _ Hr), (Height_rect _ _ _ Hr) by lia.
      by destruct (bool_decide (a = 114 \/ a = 82)). }
    rewrite !parseAmountIndex_split.
    destruct (decide (a = 114 \/ a = 82)) as [Hh'|Hv].
    - rewrite (bool_decide_eq_true_2 _ Hh') in Hparts |- *. exact Hparts.
    - rewrite (bool_decide_eq_false_2 _ Hv) in Hparts |- *.
      rewrite decide_True by tauto. exact Hparts. }
  split.
  - rewrite (Hgen _ _ _ _ _ Hs Ha Hamt Hn).
    destruct (Atoi idx) as [i [e|]] eqn:Hidx; [done|]. cbv zeta.
    apply Atoi_ok in Hidx as (_ & _ & Hi).
    set (dim := if bool_decide (a = 114 \/ a = 82) then Z.of_nat w else Z.of_nat h).
    assert (2 <= dim /\ is_int dim) as [Hdim Hidim].
    { unfold dim. destruct (bool_decide _); split; (lia || done). }
    unfold is_int, MinInt, MaxInt in Hi, Hidim.
    change (2 ^ 63) with 9223372036854775808 in Hi, Hidim.
    destruct (decide (dim - 1 - i <= 9223372036854775807)) as [Hsmall|Hbig].
    + rewrite (wrap_small (dim - 1 - i)).
      2:{ unfold is_int, MinInt, MaxInt.
          change (2 ^ 63) with 9223372036854775808. lia. }
      repeat case_decide; (done || lia || tauto).
    + rewrite (wrap_above (dim - 1 - i)).
      2:{ change (2 ^ 63) with 9223372036854775808.
          change (2 ^ 64) with 18446744073709551616. lia. }
      change (2 ^ 64) with 18446744073709551616.
      rewrite decide_False by lia. rewrite decide_True by lia. by left.
  - intros ->.
    assert (82 ∈ [114; 82; 99; 67]) as Hin by (rewrite axis_letters; tauto).
    by rewrite (Hgen "1R0'" [49] 82 [48] 1 eq_refl Hin eq_refl).
Qed.

Lemma ParseMove_reverse_index_witness :
  ParseMove noLetterTable noCaseTable "-3c1'" (solved 5 4)
    = Ret (inl (mkMove VerticalAxis 2 (-3))).
Proof.
  destruct (ParseMove_reverse_index noLetterTable noCaseTable "-3c1'"
              [45; 51] 99 [49] (-3) 5 4 (solved 5 4)) as [H _].
  - vm_compute. split; [reflexivity|]. repeat constructor.
  - lia.
  - lia.
  - vm_compute. split; discriminate.
  - vm_compute. split; discriminate.
  - reflexivity.
  - right. right. left.
  - reflexivity.
  - lia.
  - exact H.
Defined.

(** ** ParseTwoDimensions *)

Lemma separators_bytes : bytes "xX*" = separators.
Proof. reflexivity. Qed.

Lemma IndexAny_none s chars :
  Forall (fun c => c ∉ chars) s -> IndexAny s chars = -1.
Proof.
  induction 1 as [|c s Hc _ IH]; [done|]. simpl.
  rewrite decide_False by done. rewrite IH. done.
Qed.

Lemma IndexAny_first before sep after chars :
  Forall (fun c => c ∉ chars) before -> sep ∈ chars ->
  IndexAny (before ++ sep :: after) chars = Z.of_nat (length before).
Proof.
  intros Hb Hs. induction Hb as [|c s Hc _ IH]; simpl.
  - by rewrite decide_True.
  - rewrite decide_False by done. rewrite IH.
    rewrite decide_False by lia. lia.
Qed.

Lemma ParseTwoDimensions_split input before sep after :
  bytes input = before ++ sep :: after ->
  Forall (fun c => c ∉ separators) before -> sep ∈ separators ->
  ParseTwoDimensions input = dimensionsOf before after.
Proof.
  intros Hs Hb Hsep. unfold ParseTwoDimensions, dimensionsOf.
  rewrite separators_bytes, Hs.
  rewrite decide_False by (rewrite length_app; simpl; lia).
  rewrite (IndexAny_first _ _ _ _ Hb Hsep).
  rewrite decide_False by lia.
  rewrite Nat2Z.id, take_app_length.
  replace (Z.to_nat (Z.of_nat (length before) + 1)) with (S (length before)) by lia.
  by rewrite drop_middle.
Qed.

Lemma ParseTwoDimensions_no_separator input :
  bytes input <> [] -> Forall (fun c => c ∉ separators) (bytes input) ->
  ParseTwoDimensions input = (0, 0, Some ErrNotADimension).
Proof.
  intros Hne Hall. unfold ParseTwoDimensions.
  rewrite decide_False by (by destruct (bytes input)).
  rewrite separators_bytes, (IndexAny_none _ _ Hall). done.
Qed.

Lemma ParseTwoDimensions_empty input :
  bytes input = [] -> ParseTwoDimensions input = (0, 0, Some ErrEmptyDimension).
Proof. intros Hs. unfold ParseTwoDimensions. by rewrite Hs. Qed.

(** ** C8 *)

(** C8, as the claim has it, fails on the empty string: it holds none of
    the three separators, and ParseTwoDimensions rejects it with its own
    "empty input" error, not with the "doesn't seem to be a valid dimension"
    error of an input without separator. *)
Lemma ParseTwoDimensions_empty_is_not_NoSeparator :
  Forall (fun c => c ∉ separators) (bytes "") /\
  ParseTwoDimensions "" = (0, 0, Some ErrEmptyDimension) /\
  ParseTwoDimensions "" <> (0, 0, Some ErrNotADimension).
Proof. split_and!; [by constructor|done|done]. Qed.

(** C8, amended.  ParseTwoDimensions splits its input at the first
    occurrence of "x", "X" or "*": the text before it is the width and the
    text after it the height, both read by Atoi, with no check that they
    exceed 1.  It fails with the error of Atoi on the text before the
    separator when that is not a number, else with the error of Atoi on the
    text after it when that is not a number; with the "no valid dimension"
    error when the input is NOT EMPTY and holds none of the three characters;
    and with the separate "empty input" error when the input is empty.
    "5x5", "5X5" and "5*5" give (5, 5), "5-5" has no separator, and "1x0"
    gives (1, 0). *)
Theorem ParseTwoDimensions_spec input :
  (bytes input = [] ->
   ParseTwoDimensions input = (0, 0, Some ErrEmptyDimension)) /\
  (bytes input <> [] -> Forall (fun c => c ∉ separators) (bytes input) ->
   ParseTwoDimensions input = (0, 0, Some ErrNotADimension)) /\
  (forall before sep after,
     bytes input = before ++ sep :: after ->
     Forall (fun c => c ∉ separators) before -> sep ∈ separators ->
     ParseTwoDimensions input =
       match Atoi before, Atoi after with
       | (width, Some e), _ => (width, 0, Some (ErrAtoi before e))
       | (width, None), (height, Some e) => (width, height, Some (ErrAtoi after e))
       | (width, None), (height, None) => (width, height, None)
       end) /\
  ParseTwoDimensions "5x5" = (5, 5, None) /\
  ParseTwoDimensions "5X5" = (5, 5, None) /\
  ParseTwoDimensions "5*5" = (5, 5, None) /\
  ParseTwoDimensions "5-5" = (0, 0, Some ErrNotADimension) /\
  ParseTwoDimensions "1x0" = (1, 0, None).
Proof.
  split_and!; try reflexivity.
  - apply ParseTwoDimensions_empty.
  - apply ParseTwoDimensions_no_separator.
  - intros before sep after Hs Hb Hsep.
    rewrite (ParseTwoDimensions_split _ _ _ _ Hs Hb Hsep). unfold dimensionsOf.
    by destruct (Atoi before) as [? [?|]], (Atoi after) as [? [?|]].
Qed.

Lemma ParseTwoDimensions_spec_witness :
  ParseTwoDimensions "12*x" = (12, 0, Some (ErrAtoi [120] ErrSyntax)) /\
  ParseTwoDimensions "7" = (0, 0, Some ErrNotADimension).
Proof.
  split.
  - destruct (ParseTwoDimensions_spec "12*x") as (_ & _ & H & _).
    apply (H [49; 50] 42 [120]).
    + reflexivity.
    + repeat constructor; vm_compute; intros H'; inversion H' as [|? ? ? H1];
        subst; inversion H1 as [|? ? ? H2]; subst;
        inversion H2 as [|? ? ? H3]; subst; inversion H3.
    + vm_compute. right. right. left.
  - destruct (ParseTwoDimensions_spec "7") as (_ & H & _). apply H.
    + simpl. discriminate.
    + repeat constructor; vm_compute; intros H'; inversion H' as [|? ? ? H1];
        subst; inversion H1 as [|? ? ? H2]; subst;
        inversion H2 as [|? ? ? H3]; subst; inversion H3.
Defined.

(** * The rest of the program *)

(** ** Abs *)

(** X1. Abs returns the absolute value of every 64-bit integer but the
    least one, whose opposite is not a 64-bit integer: for it Abs returns the
    argument itself, a negative number.  The result is never negative
    otherwise. *)
Theorem Abs_is_abs_but_for_MinInt a :
  is_int a ->
  (a <> MinInt -> Abs a = Z.abs a) /\
  (a = MinInt -> Abs a = MinInt) /\
  (Abs a < 0 <-> a = MinInt).
Proof.
  intros Hi.
  assert (a <> MinInt -> Abs a = Z.abs a) as H1.
  { intros Hne. destruct (decide (a > 0)) as [Hp|Hp].
    - rewrite Abs_pos by done. lia.
    - rewrite Abs_neg by (done || lia). lia. }
  split_and!; [done|by intros ->; apply Abs_MinInt|].
  split.
  - intros Hneg. destruct (decide (a = MinInt)) as [|Hne]; [done|].
    rewrite (H1 Hne) in Hneg. lia.
  - intros ->. rewrite Abs_MinInt. unfold MinInt. lia.
Qed.

Lemma Abs_is_abs_but_for_MinInt_witness :
  is_int (-7) /\ Abs (-7) = 7.
Proof.
  assert (is_int (-7)) as Hi by (unfold is_int, MinInt, MaxInt; lia).
  split; [done|].
  destruct (Abs_is_abs_but_for_MinInt (-7) Hi) as (H & _ & _).
  rewrite H; [reflexivity|unfold MinInt; lia].
Defined.

(** ** Places of a line under repeated rotation *)

Lemma rotateRight_lookup (l : list Z) (i : nat) :
  (i < length l)%nat ->
  rotateRight l !! ((i + 1) mod length l)%nat = l !! i.
Proof.
  intros Hi. unfold rotateRight.
  destruct (last l) as [a|] eqn:Hlast.
  - destruct (decide (i + 1 = length l)%nat) as [He|He].
    + rewrite He, Nat.Div0.mod_same. simpl.
      rewrite last_lookup in Hlast. rewrite <- Hlast. f_equal. lia.
    + rewrite Nat.mod_small by lia.
      replace (i + 1)%nat with (S i) by lia. simpl.
      apply lookup_take_lt. lia.
  - apply last_None in Hlast. subst. simpl in Hi. lia.
Qed.

Lemma rotateLeft_lookup (l : list Z) (i : nat) :
  (i < length l)%nat ->
  rotateLeft l !! i = l !! ((i + 1) mod length l)%nat.
Proof.
  intros Hi. destruct l as [|a l]; [simpl in Hi; lia|].
  simpl in Hi. cbn [rotateLeft length].
  destruct (decide (i + 1 = S (length l))%nat) as [He|He].
  - rewrite He, Nat.Div0.mod_same. simpl.
    rewrite lookup_app_r by lia. replace (i - length l)%nat with 0%nat by lia. done.
  - rewrite Nat.mod_small by lia. replace (i + 1)%nat with (S i) by lia. simpl.
    apply lookup_app_l. lia.
Qed.

Lemma iter_rotateRight_length k l : length (Nat.iter k rotateRight l) = length l.
Proof. induction k as [|k IH]; [done|]. simpl. by rewrite rotateRight_length. Qed.

Lemma iter_rotateLeft_length k l : length (Nat.iter k rotateLeft l) = length l.
Proof. induction k as [|k IH]; [done|]. simpl. by rewrite rotateLeft_length. Qed.

Lemma iter_rotateRight_lookup k (l : list Z) (i : nat) :
  (i < length l)%nat ->
  Nat.iter k rotateRight l !! ((i + k) mod length l)%nat = l !! i.
Proof.
  intros Hi. induction k as [|k IH].
  - simpl. rewrite Nat.add_0_r, Nat.mod_small by done. done.
  - simpl. rewrite <- IH.
    pose proof (iter_rotateRight_length k l) as Hlen.
    rewrite <- (rotateRight_lookup (Nat.iter k rotateRight l) ((i + k) mod length l)).
    + rewrite Hlen. f_equal.
      rewrite Nat.Div0.add_mod_idemp_l. f_equal. lia.
    + rewrite Hlen. apply Nat.mod_upper_bound. lia.
Qed.

Lemma iter_rotateLeft_lookup k (l : list Z) (i : nat) :
  (i < length l)%nat ->
  Nat.iter k rotateLeft l !! i = l !! ((i + k) mod length l)%nat.
Proof.
  revert i. induction k as [|k IH]; intros i Hi.
  - simpl. rewrite Nat.add_0_r, Nat.mod_small by done. done.
  - simpl. pose proof (iter_rotateLeft_length k l) as Hlen.
    rewrite rotateLeft_lookup by (rewrite Hlen; done).
    rewrite Hlen, IH by (apply Nat.mod_upper_bound; lia).
    f_equal. rewrite Nat.Div0.add_mod_idemp_l. f_equal. lia.
Qed.

Lemma line_lookup axis idx w h (i : nat) :
  (Z.of_nat i < lineLength axis w h) ->
  line axis idx w h !! i = Some (place axis idx (Z.of_nat i)).
Proof.
  intros Hi. unfold line, place, lineLength in *.
  destruct axis; rewrite list_lookup_fmap, up_lookup by lia; done.
Qed.

Lemma lineLength_length axis idx w h :
  Z.of_nat (length (line axis idx w h)) = lineLength axis w h.
Proof.
  unfold line, lineLength. destruct axis; rewrite length_fmap, up_length; lia.
Qed.

Lemma place_inside axis idx w h j :
  line_exists axis idx w h -> 0 <= j < lineLength axis w h ->
  inside w h (place axis idx j).
Proof.
  unfold line_exists, lineLength, place, inside. destruct axis; simpl; lia.
Qed.

Lemma place_on_line axis idx j : on_line axis idx (place axis idx j).
Proof. unfold on_line, place. by destruct axis. Qed.

Lemma on_line_place axis idx c w h :
  on_line axis idx c -> inside w h c ->
  exists j, c = place axis idx j /\ 0 <= j < lineLength axis w h.
Proof.
  unfold on_line, place, inside, lineLength. destruct c as [x y], axis; simpl;
    intros -> ?; eexists; (split; [reflexivity|lia]).
Qed.

(** A cell of a line, read from the list of the tiles of the line. *)
Lemma cell_place_vals axis idx w h b j :
  rect w h b -> line_exists axis idx w h -> 0 <= j < lineLength axis w h ->
  cell b (place axis idx j) = vals b (line axis idx w h) !! Z.to_nat j.
Proof.
  intros Hr He Hj. unfold vals.
  rewrite list_lookup_fmap, line_lookup by lia.
  rewrite Z2Nat.id by lia. simpl.
  destruct (cell_inside w h b (place axis idx j) Hr) as [v ->]; [|done].
  by apply place_inside.
Qed.

(** MakeMove in closed form: the tile at place [i] of the line goes to
    place [(i + amount) mod L]. *)
Lemma MakeMove_places w h b m i :
  rect w h b -> (0 < w)%nat -> (0 < h)%nat ->
  line_exists (Move_Axis m) (Move_Index m) w h ->
  is_int (Move_Amount m) -> Move_Amount m <> MinInt ->
  0 <= i < lineLength (Move_Axis m) w h ->
  cell (MakeMove m b).2
       (place (Move_Axis m) (Move_Index m)
              ((i + Move_Amount m) mod lineLength (Move_Axis m) w h))
  = cell b (place (Move_Axis m) (Move_Index m) i).
Proof.
  intros Hr Hw Hh He Hi Hne Hrange.
  destruct (MakeMove_rotates w h b m Hr Hw Hh He Hi Hne)
    as (b' & Hrun & Hr' & _ & Hvals).
  rewrite Hrun. simpl.
  set (L := lineLength (Move_Axis m) w h) in *.
  assert (0 < L) as HL by lia.
  assert (0 <= (i + Move_Amount m) mod L < L) as Hj by (apply Z.mod_pos_bound; lia).
  rewrite (cell_place_vals _ _ w h b') by done.
  rewrite (cell_place_vals _ _ w h b) by done.
  rewrite Hvals.
  set (l := vals b (line (Move_Axis m) (Move_Index m) w h)).
  assert (Z.of_nat (length l) = L) as Hlen.
  { unfold l. rewrite vals_length. apply lineLength_length. }
  unfold rotated, forward_of. case_bool_decide as Hpos.
  - replace (Z.to_nat ((i + Move_Amount m) mod L))
      with ((Z.to_nat i + Z.abs_nat (Move_Amount m)) mod length l)%nat.
    + apply iter_rotateRight_lookup. lia.
    + apply Nat2Z.inj. rewrite Nat2Z.inj_mod, Hlen, Nat2Z.inj_add.
      rewrite Z2Nat.id by lia. rewrite Zabs2Nat.id_abs.
      rewrite Z2Nat.id by lia. f_equal. lia.
  - rewrite iter_rotateLeft_lookup by lia. f_equal.
    apply Nat2Z.inj. rewrite Nat2Z.inj_mod, Hlen, Nat2Z.inj_add.
    rewrite Z2Nat.id by lia. rewrite Zabs2Nat.id_abs. rewrite Z2Nat.id by lia.
    rewrite Zplus_mod_idemp_l.
    replace (i + Move_Amount m + Z.abs (Move_Amount m)) with i by lia.
    rewrite Z.mod_small by lia. done.
Qed.
(** ** MakeMove in closed form *)

Lemma shift_back j a L : 0 < L -> 0 <= j < L -> ((j - a) mod L + a) mod L = j.
Proof.
  intros HL Hj. rewrite Zplus_mod_idemp_l.
  replace (j - a + a) with j by lia. by apply Z.mod_small.
Qed.

(** Two boards of the same shape that agree off a line and at every place
    of it are equal. *)
Lemma board_eq_places axis idx w h b1 b2 :
  rect w h b1 -> rect w h b2 ->
  (forall c, ~ on_line axis idx c -> cell b1 c = cell b2 c) ->
  (forall j, 0 <= j < lineLength axis w h ->
     cell b1 (place axis idx j) = cell b2 (place axis idx j)) ->
  b1 = b2.
Proof.
  intros H1 H2 Hoff Hon. apply (board_ext w h); [done..|].
  intros c Hc. destruct (decide (on_line axis idx c)) as [Hl|Hl]; [|by apply Hoff].
  destruct (on_line_place axis idx c w h Hl Hc) as (j & -> & Hj). by apply Hon.
Qed.

Lemma on_line_exists axis idx w h c :
  on_line axis idx c -> inside w h c -> line_exists axis idx w h.
Proof.
  unfold on_line, inside, line_exists. destruct c as [x y], axis; simpl; lia.
Qed.

(** The board after MakeMove, cell by cell. *)
Lemma MakeMove_cells w h b m :
  rect w h b -> (0 < w)%nat -> (0 < h)%nat ->
  line_exists (Move_Axis m) (Move_Index m) w h ->
  is_int (Move_Amount m) -> Move_Amount m <> MinInt ->
  MakeMove m b = (Ret (Z.abs (Move_Amount m)), (MakeMove m b).2) /\
  rect w h (MakeMove m b).2 /\
  (forall c, ~ on_line (Move_Axis m) (Move_Index m) c ->
     cell (MakeMove m b).2 c = cell b c) /\
  (forall j, 0 <= j < lineLength (Move_Axis m) w h ->
     cell (MakeMove m b).2 (place (Move_Axis m) (Move_Index m) j) =
     cell b (place (Move_Axis m) (Move_Index m)
                   ((j - Move_Amount m) mod lineLength (Move_Axis m) w h))).
Proof.
  intros Hr Hw Hh He Hi Hne.
  destruct (MakeMove_rotates w h b m Hr Hw Hh He Hi Hne)
    as (b' & Hrun & Hr' & Hoff & _).
  split_and!.
  - by rewrite Hrun.
  - by rewrite Hrun.
  - by rewrite Hrun.
  - intros j Hj.
    set (L := lineLength (Move_Axis m) w h) in *.
    assert (0 < L) as HL by lia.
    rewrite <- (MakeMove_places w h b m ((j - Move_Amount m) mod L));
      [|done..|by apply Z.mod_pos_bound].
    fold L. by rewrite shift_back.
Qed.

(** X2. On a board of the program MakeMove panics exactly when the board
    has no line of the move's axis at the move's index and at least one
    rotation is due; the panic comes before any write.  In every other case
    it returns Abs of the amount and leaves a board of the same shape. *)
Theorem MakeMove_panics_exactly_off_the_board w h b m :
  rect w h b -> (0 < w)%nat -> (0 < h)%nat ->
  (~ line_exists (Move_Axis m) (Move_Index m) w h /\ 0 < Abs (Move_Amount m) ->
   MakeMove m b = (Panic, b)) /\
  (line_exists (Move_Axis m) (Move_Index m) w h \/ Abs (Move_Amount m) <= 0 ->
   exists b', MakeMove m b = (Ret (Abs (Move_Amount m)), b') /\ rect w h b').
Proof.
  intros Hr Hw Hh. split.
  - intros [He Ha]. by apply (MakeMove_panic m w h).
  - intros [He|Ha].
    + rewrite (MakeMove_run m w h) by done. eexists. split; [done|].
      by apply iter_rect.
    + rewrite MakeMove_idle by done. eauto.
Qed.

Lemma MakeMove_panics_exactly_off_the_board_witness :
  MakeMove (mkMove HorizontalAxis 2 (-1)) (solved 3 2) = (Panic, solved 3 2) /\
  exists b', MakeMove (mkMove VerticalAxis 2 (-1)) (solved 3 2) = (Ret 1, b') /\
             rect 3 2 b'.
Proof.
  destruct (MakeMove_panics_exactly_off_the_board 3 2 (solved 3 2)
              (mkMove HorizontalAxis 2 (-1))) as [H1 _];
    [apply solved_rect|lia|lia|].
  destruct (MakeMove_panics_exactly_off_the_board 3 2 (solved 3 2)
              (mkMove VerticalAxis 2 (-1))) as [_ H2];
    [apply solved_rect|lia|lia|].
  split.
  - apply H1. split; [|vm_compute; reflexivity].
    unfold line_exists. simpl. lia.
  - apply H2. left. unfold line_exists. simpl. lia.
Defined.

(** X3. MakeMove in closed form.  On a board that has the addressed line,
    for an amount other than the least 64-bit integer, MakeMove returns the
    absolute value of the amount, and the tile at place [i] of the line
    (the column number in a row, the row number in a column) is afterwards at
    place [(i + amount) mod L], [L] being the length of the line: a positive
    amount moves tiles to the right or down, a negative one to the left or
    up, around the edge. *)
Theorem MakeMove_moves_tile_by_amount w h b m i :
  rect w h b -> (0 < w)%nat -> (0 < h)%nat ->
  line_exists (Move_Axis m) (Move_Index m) w h ->
  is_int (Move_Amount m) -> Move_Amount m <> MinInt ->
  0 <= i < lineLength (Move_Axis m) w h ->
  exists b',
    MakeMove m b = (Ret (Z.abs (Move_Amount m)), b') /\
    cell b' (place (Move_Axis m) (Move_Index m)
                   ((i + Move_Amount m) mod lineLength (Move_Axis m) w h))
    = cell b (place (Move_Axis m) (Move_Index m) i) /\
    is_Some (cell b (place (Move_Axis m) (Move_Index m) i)).
Proof.
  intros Hr Hw Hh He Hi Hne Hrange.
  destruct (MakeMove_cells w h b m Hr Hw Hh He Hi Hne) as (Hrun & _ & _ & _).
  eexists. split; [exact Hrun|]. split.
  - by apply (MakeMove_places w h).
  - apply (cell_inside w h); [done|]. by apply place_inside.
Qed.

Lemma MakeMove_moves_tile_by_amount_witness :
  exists b',
    MakeMove (mkMove VerticalAxis 0 2) (solved 5 5) = (Ret 2, b') /\
    cell b' (0, 1) = Some 21.
Proof.
  destruct (MakeMove_moves_tile_by_amount 5 5 (solved 5 5)
              (mkMove VerticalAxis 0 2) 4) as (b' & Hrun & Hcell & _).
  - apply solved_rect.
  - lia.
  - lia.
  - unfold line_exists. simpl. lia.
  - unfold is_int, MinInt, MaxInt. simpl. lia.
  - unfold MinInt. simpl. lia.
  - unfold lineLength. simpl. lia.
  - exists b'. split; [exact Hrun|]. exact Hcell.
Defined.
(** ** Moves on one line and on two lines *)

Lemma join_concat {A} (ls : list (list A)) : mjoin ls = concat ls.
Proof. induction ls as [|l ls IH]; [done|]. csimpl. by rewrite IH. Qed.

(** On a numbered board no tile is in two cells. *)
Lemma numbered_cell_inj w h b c c' v :
  numbered w h b -> cell b c = Some v -> cell b c' = Some v -> c = c'.
Proof.
  intros [[Hlen Hcols] Hperm] Hc Hc'.
  assert (NoDup (mjoin b)) as Hnd.
  { rewrite join_concat, Hperm. apply NoDup_fmap; [apply _|]. apply NoDup_seq. }
  assert (forall c, cell b c = Some v ->
            exists X Y, c = (Z.of_nat X, Z.of_nat Y) /\ (Y < h)%nat /\
                        mjoin b !! (X * h + Y)%nat = Some v) as Hpos.
  { intros [x y]. unfold cell, get. simpl.
    destruct (at_ b x) as [col|] eqn:Hcol; [|done].
    intros Hy. apply at_Some in Hcol as [Hx Hcol]. apply at_Some in Hy as [Hy0 Hy].
    exists (Z.to_nat x), (Z.to_nat y).
    assert (length col = h) as Hh.
    { rewrite Forall_forall in Hcols. apply Hcols.
      by eapply list_elem_of_lookup_2. }
    assert (Z.to_nat y < h)%nat as Hlt.
    { rewrite <- Hh. by eapply lookup_lt_Some. }
    split; [f_equal; lia|]. split; [done|].
    apply (join_lookup_Some_same_length' h); [done..|]. eauto. }
  destruct (Hpos c Hc) as (X & Y & -> & HY & H1).
  destruct (Hpos c' Hc') as (X' & Y' & -> & HY' & H2).
  pose proof (NoDup_lookup _ _ _ _ Hnd H1 H2) as He.
  assert (X = X' /\ Y = Y') as [-> ->]; [|done].
  assert (X = X') as ->; [nia|]. split; [done|lia].
Qed.

(** On a numbered board two amounts leave the same board exactly when
    they are congruent modulo the length of the line. *)
Lemma MakeMove_congruent_amounts w h b axis idx a a' :
  numbered w h b -> (0 < w)%nat -> (0 < h)%nat ->
  line_exists axis idx w h ->
  is_int a -> a <> MinInt -> is_int a' -> a' <> MinInt ->
  ((MakeMove (mkMove axis idx a) b).2 = (MakeMove (mkMove axis idx a') b).2
   <-> a mod lineLength axis w h = a' mod lineLength axis w h).
Proof.
  intros Hn Hw Hh He Hi Hne Hi' Hne'.
  pose proof Hn as [Hr _].
  set (L := lineLength axis w h).
  assert (0 < L) as HL by (unfold L, lineLength; destruct axis; lia).
  destruct (MakeMove_cells w h b (mkMove axis idx a) Hr Hw Hh He Hi Hne)
    as (_ & Hr1 & Hoff1 & Hon1).
  destruct (MakeMove_cells w h b (mkMove axis idx a') Hr Hw Hh He Hi' Hne')
    as (_ & Hr2 & Hoff2 & Hon2).
  simpl in *. fold L in Hon1, Hon2.
  split.
  - intros Heq.
    pose proof (Hon1 (a mod L) ltac:(by apply Z.mod_pos_bound)) as H1.
    pose proof (Hon2 (a mod L) ltac:(by apply Z.mod_pos_bound)) as H2.
    rewrite Zminus_mod_idemp_l, Z.sub_diag, Z.mod_0_l in H1 by lia.
    rewrite Zminus_mod_idemp_l in H2.
    rewrite Heq, H2 in H1.
    destruct (cell_inside w h b (place axis idx 0) Hr) as [v Hv].
    { apply place_inside; [done|]. fold L. lia. }
    rewrite Hv in H1.
    pose proof (numbered_cell_inj w h b _ _ v Hn H1 Hv) as Hplace.
    assert ((a - a') mod L = 0) as Hz.
    { unfold place in Hplace. destruct axis; by simplify_eq. }
    apply Z.mod_divide in Hz; [|lia]. destruct Hz as [k Hk].
    replace a with (a' + k * L) by lia. by rewrite Z_mod_plus_full.
  - intros Hmod.
    apply (board_eq_places axis idx w h); [done..| |].
    + intros c Hc. by rewrite Hoff1, Hoff2.
    + intros j Hj. rewrite Hon1, Hon2 by done. do 2 f_equal.
      rewrite Zminus_mod, Hmod, <- Zminus_mod. done.
Qed.

(** The least 64-bit integer moves nothing, as the amount 0 does. *)
Lemma MakeMove_shiftOf axis idx a b :
  is_int a ->
  (MakeMove (mkMove axis idx a) b).2 = (MakeMove (mkMove axis idx (shiftOf a)) b).2 /\
  is_int (shiftOf a) /\ shiftOf a <> MinInt.
Proof.
  intros Hi. unfold shiftOf. destruct (decide (a = MinInt)) as [->|Hne].
  - split_and!.
    + rewrite !MakeMove_idle; [done| |]; simpl; vm_compute; discriminate.
    + unfold is_int, MinInt, MaxInt. lia.
    + unfold MinInt. lia.
  - done.
Qed.

(** X4. Which amounts do the same to a line.  Let the shift of an amount be
    the amount itself, except that the shift of the least 64-bit integer,
    for which MakeMove makes no rotation, is 0.  On a board whose tiles are
    the numbers 1, ..., w*h and that has the addressed line, two 64-bit
    amounts leave the same board exactly when their shifts are congruent
    modulo the length of the line, and an amount leaves the board as it is
    exactly when its shift is a multiple of the length of the line.  So
    moving a row by the width, or by any multiple of it, changes nothing,
    and neither does the least 64-bit integer, on a line of any length. *)
Theorem MakeMove_amounts_modulo_line_length w h b axis idx a a' :
  numbered w h b -> (0 < w)%nat -> (0 < h)%nat ->
  line_exists axis idx w h ->
  is_int a -> is_int a' ->
  ((MakeMove (mkMove axis idx a) b).2 = (MakeMove (mkMove axis idx a') b).2
   <-> shiftOf a mod lineLength axis w h = shiftOf a' mod lineLength axis w h) /\
  ((MakeMove (mkMove axis idx a) b).2 = b
   <-> shiftOf a mod lineLength axis w h = 0).
Proof.
  intros Hn Hw Hh He Hi Hi'.
  destruct (MakeMove_shiftOf axis idx a b Hi) as (-> & Hs & Hsne).
  destruct (MakeMove_shiftOf axis idx a' b Hi') as (-> & Hs' & Hsne').
  split; [by apply MakeMove_congruent_amounts|].
  assert (is_int 0) as Hi0 by (unfold is_int, MinInt, MaxInt; lia).
  assert (0 <> MinInt) as Hne0 by (unfold MinInt; lia).
  rewrite <- (Zmod_0_l (lineLength axis w h)).
  rewrite <- (MakeMove_congruent_amounts w h b axis idx (shiftOf a) 0) by done.
  by rewrite (MakeMove_idle (mkMove axis idx 0)).
Qed.

Lemma MakeMove_amounts_modulo_line_length_witness :
  (MakeMove (mkMove HorizontalAxis 1 (-1)) (solved 3 2)).2 =
  (MakeMove (mkMove HorizontalAxis 1 5) (solved 3 2)).2 /\
  (MakeMove (mkMove HorizontalAxis 1 6) (solved 3 2)).2 = solved 3 2 /\
  (MakeMove (mkMove HorizontalAxis 1 MinInt) (solved 3 2)).2 = solved 3 2 /\
  MinInt mod 3 = 1 /\
  (MakeMove (mkMove HorizontalAxis 1 1) (solved 3 2)).2 <> solved 3 2.
Proof.
  assert (forall a, MinInt <= a <= 10 -> is_int a) as Hok.
  { intros a Ha. unfold is_int, MinInt, MaxInt in *. lia. }
  assert (line_exists HorizontalAxis 1 3 2) as He
    by (unfold line_exists; simpl; lia).
  pose proof (MakeMove_amounts_modulo_line_length 3 2 (solved 3 2)
                HorizontalAxis 1 (-1) 5 (solved_numbered 3 2)
                ltac:(lia) ltac:(lia) He
                (Hok (-1) ltac:(unfold MinInt; lia))
                (Hok 5 ltac:(unfold MinInt; lia))) as [H1 _].
  pose proof (MakeMove_amounts_modulo_line_length 3 2 (solved 3 2)
                HorizontalAxis 1 6 6 (solved_numbered 3 2)
                ltac:(lia) ltac:(lia) He
                (Hok 6 ltac:(unfold MinInt; lia))
                (Hok 6 ltac:(unfold MinInt; lia))) as [_ H2].
  pose proof (MakeMove_amounts_modulo_line_length 3 2 (solved 3 2)
                HorizontalAxis 1 MinInt 1 (solved_numbered 3 2)
                ltac:(lia) ltac:(lia) He
                (Hok MinInt ltac:(unfold MinInt; lia))
                (Hok 1 ltac:(unfold MinInt; lia))) as [_ H3].
  pose proof (MakeMove_amounts_modulo_line_length 3 2 (solved 3 2)
                HorizontalAxis 1 1 1 (solved_numbered 3 2)
                ltac:(lia) ltac:(lia) He
                (Hok 1 ltac:(unfold MinInt; lia))
                (Hok 1 ltac:(unfold MinInt; lia))) as [_ H4].
  split_and!.
  - apply H1. reflexivity.
  - apply H2. reflexivity.
  - apply H3. reflexivity.
  - reflexivity.
  - intros Heq. apply H4 in Heq. discriminate Heq.
Defined.


Lemma vals_ext b1 b2 path :
  (forall c, c ∈ path -> cell b1 c = cell b2 c) -> vals b1 path = vals b2 path.
Proof.
  intros H. unfold vals. apply list_fmap_ext. intros i c Hc.
  rewrite (H c); [done|]. by eapply list_elem_of_lookup_2.
Qed.

Lemma lines_disjoint axis idx1 idx2 w h c :
  idx1 <> idx2 -> c ∈ line axis idx1 w h -> c ∉ line axis idx2 w h.
Proof.
  intros Hne [H1 _]%elem_of_line [H2 _]%elem_of_line.
  unfold on_line in *. destruct axis; congruence.
Qed.

(** One pass on a line and one pass on another line of the same axis can
    be made in either order. *)
Lemma turn_commute m1 m2 f1 f2 w h b :
  rect w h b -> (0 < w)%nat -> (0 < h)%nat ->
  Move_Axis m1 = Move_Axis m2 -> Move_Index m1 <> Move_Index m2 ->
  line_exists (Move_Axis m1) (Move_Index m1) w h ->
  line_exists (Move_Axis m2) (Move_Index m2) w h ->
  turn m1 f1 (turn m2 f2 b) = turn m2 f2 (turn m1 f1 b).
Proof.
  intros Hr Hw Hh Hax Hidx He1 He2.
  destruct (rotateOnce_run m2 f2 w h b Hr Hw Hh He2) as (b2 & Hb2 & Hr2 & Hoff2 & Hv2 & _).
  destruct (rotateOnce_run m1 f1 w h b2 Hr2 Hw Hh He1) as (A & HA & HrA & HoffA & HvA & _).
  destruct (rotateOnce_run m1 f1 w h b Hr Hw Hh He1) as (b1 & Hb1 & Hr1 & Hoff1 & Hv1 & _).
  destruct (rotateOnce_run m2 f2 w h b1 Hr1 Hw Hh He2) as (B & HB & HrB & HoffB & HvB & _).
  rewrite (turn_eq _ _ _ _ _ Hb2), (turn_eq _ _ _ _ _ HA),
    (turn_eq _ _ _ _ _ Hb1), (turn_eq _ _ _ _ _ HB).
  set (l1 := line (Move_Axis m1) (Move_Index m1) w h) in *.
  set (l2 := line (Move_Axis m2) (Move_Index m2) w h) in *.
  assert (forall c, c ∈ l1 -> c ∉ l2) as H12.
  { intros c. unfold l1, l2. rewrite <- Hax. by apply lines_disjoint. }
  assert (forall c, c ∈ l2 -> c ∉ l1) as H21.
  { intros c Hc2 Hc1. by apply (H12 c). }
  apply (board_eq_line w h (l1 ++ l2)); [done..| |].
  - intros c Hc. rewrite elem_of_app in Hc.
    rewrite HoffA, Hoff2, HoffB, Hoff1 by tauto. done.
  - rewrite !vals_app. f_equal.
    + rewrite HvA. rewrite (vals_ext B b1) by (intros c Hc; apply HoffB; auto).
      rewrite Hv1. f_equal. apply vals_ext. intros c Hc. apply Hoff2. auto.
    + rewrite HvB. rewrite (vals_ext A b2) by (intros c Hc; apply HoffA; auto).
      rewrite Hv2. f_equal. symmetry. apply vals_ext. intros c Hc. apply Hoff1. auto.
Qed.

Lemma iter_commute {S} (P : S -> Prop) (f g : S -> S) n k s :
  (forall s, P s -> P (f s)) -> (forall s, P s -> P (g s)) ->
  (forall s, P s -> f (g s) = g (f s)) -> P s ->
  Nat.iter n f (Nat.iter k g s) = Nat.iter k g (Nat.iter n f s).
Proof.
  intros Hf Hg Hfg Hs.
  assert (forall k s, P s -> P (Nat.iter k g s)) as Hgk.
  { clear -Hg. induction k as [|k IH]; intros s Hs; simpl; auto. }
  assert (forall k s, P s -> f (Nat.iter k g s) = Nat.iter k g (f s)) as H1.
  { clear k. induction k as [|k IH]; intros s' Hs'; [done|].
    simpl. rewrite Hfg by auto. by rewrite IH. }
  revert s Hs. induction n as [|n IH]; intros s Hs; [done|].
  simpl. rewrite IH by done. apply H1.
  clear -Hf Hs. induction n as [|n IHn]; simpl; auto.
Qed.

(** X6. Moves on two different rows commute, and so do moves on two
    different columns: on a board that has both lines, the two moves leave
    the same board in either order, whatever their amounts. *)
Theorem MakeMove_parallel_lines_commute w h b m1 m2 :
  rect w h b -> (0 < w)%nat -> (0 < h)%nat ->
  Move_Axis m1 = Move_Axis m2 -> Move_Index m1 <> Move_Index m2 ->
  line_exists (Move_Axis m1) (Move_Index m1) w h ->
  line_exists (Move_Axis m2) (Move_Index m2) w h ->
  exists b',
    (MakeMove m1 ;;; MakeMove m2) b = (Ret (Abs (Move_Amount m2)), b') /\
    (MakeMove m2 ;;; MakeMove m1) b = (Ret (Abs (Move_Amount m1)), b').
Proof.
  intros Hr Hw Hh Hax Hidx He1 He2.
  set (n1 := Z.to_nat (Abs (Move_Amount m1))).
  set (n2 := Z.to_nat (Abs (Move_Amount m2))).
  set (t1 := turn m1 (forward_of m1)). set (t2 := turn m2 (forward_of m2)).
  exists (Nat.iter n1 t1 (Nat.iter n2 t2 b)). split.
  - rewrite (bind_Ret _ _ _ _ _ (MakeMove_run m1 w h b Hr Hw Hh He1)).
    rewrite (MakeMove_run m2 w h) by (done || by apply iter_rect).
    f_equal. fold n1 n2 t1 t2. symmetry.
    apply (iter_commute (rect w h));
      [| |by intros; apply (turn_commute _ _ _ _ w h)|done];
      intros; by apply turn_rect.
  - rewrite (bind_Ret _ _ _ _ _ (MakeMove_run m2 w h b Hr Hw Hh He2)).
    by rewrite (MakeMove_run m1 w h) by (done || by apply iter_rect).
Qed.

Lemma MakeMove_parallel_lines_commute_witness :
  exists b',
    (MakeMove (mkMove HorizontalAxis 0 1) ;;; MakeMove (mkMove HorizontalAxis 1 (-2)))
      (solved 3 2) = (Ret 2, b') /\
    (MakeMove (mkMove HorizontalAxis 1 (-2)) ;;; MakeMove (mkMove HorizontalAxis 0 1))
      (solved 3 2) = (Ret 1, b').
Proof.
  apply (MakeMove_parallel_lines_commute 3 2 (solved 3 2)
           (mkMove HorizontalAxis 0 1) (mkMove HorizontalAxis 1 (-2))).
  - apply solved_rect.
  - lia.
  - lia.
  - reflexivity.
  - simpl. lia.
  - unfold line_exists. simpl. lia.
  - unfold line_exists. simpl. lia.
Defined.
(** ** Reset and IsSolved on any board *)

(** A loop with early exit whose body leaves the state alone and leaves
    the loop, with [v], exactly at the elements that fail [P]. *)
Lemma forEachUntil_decide {S A R} (P : A -> Prop)
    (l : list A) (body : A -> M S (option R)) (v : R) (s : S) :
  (forall a, a ∈ l -> P a \/ ~ P a) ->
  (forall a, a ∈ l -> P a -> body a s = (Ret None, s)) ->
  (forall a, a ∈ l -> ~ P a -> body a s = (Ret (Some v), s)) ->
  (Forall P l /\ forEachUntil l body s = (Ret None, s)) \/
  (~ Forall P l /\ forEachUntil l body s = (Ret (Some v), s)).
Proof.
  induction l as [|a l IH]; intros Hdec Hyes Hno; [by left|].
  cbn [forEachUntil]. destruct (Hdec a ltac:(left)) as [Ha|Ha].
  - rewrite (bind_Ret _ _ _ _ _ (Hyes a ltac:(left) Ha)).
    destruct IH as [[Hl Hrun]|[Hl Hrun]].
    + intros; apply Hdec; by right.
    + intros; apply Hyes; [by right|done].
    + intros; apply Hno; [by right|done].
    + left. split; [by constructor|done].
    + right. split; [|done]. by intros [? ?]%Forall_cons.
  - rewrite (bind_Ret _ _ _ _ _ (Hno a ltac:(left) Ha)).
    right. split; [|done]. by intros [? ?]%Forall_cons.
Qed.

(** X7. Reset puts every board back in the state NewBoard created it in:
    for sides above 1 and any board of that shape, whatever its tiles,
    Reset returns and leaves the very board NewBoard returns for those
    sides, on which IsSolved answers true. *)
Theorem Reset_restores_the_board_of_NewBoard width height b :
  1 < width -> 1 < height ->
  rect (Z.to_nat width) (Z.to_nat height) b ->
  exists b0,
    NewBoard width height = Ret (inl b0) /\
    Reset b = (Ret tt, b0) /\
    IsSolved b0 = (Ret true, b0).
Proof.
  intros Hw Hh Hr. exists (solved (Z.to_nat width) (Z.to_nat height)).
  split_and!.
  - by apply NewBoard_run.
  - apply Reset_run; [done|lia].
  - apply IsSolved_solved. lia.
Qed.

Lemma Reset_restores_the_board_of_NewBoard_witness :
  exists b0,
    NewBoard 2 2 = Ret (inl b0) /\
    Reset [[4; 2]; [3; 1]] = (Ret tt, b0) /\
    IsSolved b0 = (Ret true, b0).
Proof.
  apply (Reset_restores_the_board_of_NewBoard 2 2 [[4; 2]; [3; 1]]).
  - lia.
  - lia.
  - unfold rect. simpl. split; [reflexivity|]. repeat constructor.
Defined.

(** IsSolved returns, with the board as it was, and tells whether every
    cell holds its default tile. *)
Lemma IsSolved_decides w h b :
  rect w h b -> (0 < w)%nat ->
  exists r, IsSolved b = (Ret r, b) /\ (r = true <-> b = solved w h).
Proof.
  intros Hr Hw.
  set (Py := fun x y => cell b (x, y) = Some (x + y * Z.of_nat w + 1)).
  set (Px := fun x => Forall (Py x) (up (Z.of_nat h))).
  set (inner := fun x : Z =>
    let* h := height in
    forEachUntil (up h) (fun y =>
      let* v := load x y in
      let* d := gets (fun b => defaultTileValue b x y) in
      if decide (v <> d) then ret (Some false) else ret None)).
  assert (forall x, x ∈ up (Z.of_nat w) ->
            (Px x /\ inner x b = (Ret None, b)) \/
            (~ Px x /\ inner x b = (Ret (Some false), b))) as Hinner.
  { intros x Hx%elem_of_up. unfold inner.
    rewrite (bind_Ret _ _ _ _ _ (height_run _ _ _ Hr Hw)).
    apply (forEachUntil_decide (Py x)).
    - intros y _. unfold Py. destruct (decide (cell b (x, y) =
        Some (x + y * Z.of_nat w + 1))); tauto.
    - intros y Hy%elem_of_up Hcell.
      rewrite (bind_Ret _ _ _ _ _ (load_run _ _ _ _ Hcell)).
      unfold bind, gets, defaultTileValue. rewrite (Width_rect _ _ _ Hr).
      by rewrite decide_False by (intros Hne; by apply Hne).
    - intros y Hy%elem_of_up Hcell.
      destruct (cell_inside w h b (x, y) Hr) as [v Hv].
      { unfold inside. simpl. lia. }
      rewrite (bind_Ret _ _ _ _ _ (load_run _ _ _ _ Hv)).
      unfold bind, gets, defaultTileValue. rewrite (Width_rect _ _ _ Hr).
      rewrite decide_True; [done|]. intros ->. by apply Hcell. }
  assert ((Forall Px (up (Z.of_nat w)) /\ IsSolved b = (Ret true, b)) \/
          (~ Forall Px (up (Z.of_nat w)) /\ IsSolved b = (Ret false, b))) as Hrun.
  { unfold IsSolved.
    rewrite (bind_Ret _ _ _ _ _ (width_run b)), (Width_rect _ _ _ Hr).
    fold inner.
    destruct (forEachUntil_decide Px (up (Z.of_nat w)) inner false b)
      as [[Hall Hloop]|[Hall Hloop]].
    - intros x Hx. destruct (Hinner x Hx); tauto.
    - intros x Hx HP. destruct (Hinner x Hx) as [[_ ?]|[? _]]; [done|tauto].
    - intros x Hx HP. destruct (Hinner x Hx) as [[? _]|[_ ?]]; [tauto|done].
    - left. split; [done|]. by rewrite (bind_Ret _ _ _ _ _ Hloop).
    - right. split; [done|]. by rewrite (bind_Ret _ _ _ _ _ Hloop). }
  assert (Forall Px (up (Z.of_nat w)) <-> b = solved w h) as Hiff.
  { split.
    - intros Hall. apply (board_ext w h); [done|apply solved_rect|].
      intros [x y] [Hx Hy]. simpl in *.
      rewrite solved_cell by (unfold inside; simpl; lia).
      rewrite Forall_forall in Hall.
      specialize (Hall x ltac:(apply elem_of_up; lia)).
      unfold Px in Hall. rewrite Forall_forall in Hall.
      apply (Hall y). apply elem_of_up. lia.
    - intros ->. apply Forall_forall. intros x Hx%elem_of_up.
      apply Forall_forall. intros y Hy%elem_of_up.
      unfold Py. apply solved_cell. unfold inside. simpl. lia. }
  destruct Hrun as [[Hall Hrun]|[Hall Hrun]].
  - exists true. split; [done|]. rewrite <- Hiff. tauto.
  - exists false. split; [done|]. rewrite <- Hiff. split; [done|tauto].
Qed.

(** X8. IsSolved reads the board and never writes it, and on a board with
    at least one column it answers true for exactly one arrangement of the
    tiles: the one in which every cell (x, y) holds x + y*width + 1, which
    is the board NewBoard and Reset leave. *)
Theorem IsSolved_true_only_on_the_solved_board w h b :
  rect w h b -> (0 < w)%nat ->
  exists r, IsSolved b = (Ret r, b) /\ (r = true <-> b = solved w h).
Proof. apply IsSolved_decides. Qed.

Lemma IsSolved_true_only_on_the_solved_board_witness :
  exists r, IsSolved [[1; 3]; [4; 2]] = (Ret r, [[1; 3]; [4; 2]]) /\
            (r = true <-> [[1; 3]; [4; 2]] = solved 2 2).
Proof.
  apply (IsSolved_true_only_on_the_solved_board 2 2 [[1; 3]; [4; 2]]).
  - unfold rect. simpl. split; [reflexivity|]. repeat constructor.
  - lia.
Defined.
(** ** Itoa and the functions that read numbers back *)

Lemma formatBits_digits fuel u a :
  0 <= u -> Forall digit a -> Forall digit (formatBits fuel u a).
Proof.
  revert u a. induction fuel as [|fuel IH]; intros u a Hu Ha; [done|].
  cbn [formatBits]. case_decide.
  - apply IH; [apply Z.div_pos; lia|]. constructor; [|done].
    unfold digit. pose proof (Z.mod_pos_bound u 10). lia.
  - constructor; [|done]. unfold digit. lia.
Qed.

Lemma formatBits_app fuel u a :
  formatBits fuel u a = formatBits fuel u [] ++ a.
Proof.
  revert u a. induction fuel as [|fuel IH]; intros u a; [done|].
  cbn [formatBits]. case_decide; [|done].
  rewrite (IH _ (_ :: a)), (IH _ [_]). by rewrite <- app_assoc.
Qed.

Lemma formatBits_nonempty fuel u a : formatBits (S fuel) u a <> [].
Proof.
  cbn [formatBits]. case_decide; [|done].
  rewrite formatBits_app. intros [_ ?]%app_eq_nil. done.
Qed.

(** More fuel than the digits need changes nothing. *)
Lemma formatBits_fuel f f' u a :
  0 <= u < 2 ^ Z.of_nat f -> (1 <= f <= f')%nat ->
  formatBits f' u a = formatBits f u a.
Proof.
  revert f' u a. induction f as [|f IH]; intros f' u a Hu Hf; [lia|].
  destruct f' as [|f']; [lia|]. cbn [formatBits]. case_decide; [|done].
  rewrite Nat2Z.inj_succ, Z.pow_succ_r in Hu by lia.
  destruct f as [|f]; [change (2 ^ Z.of_nat 0) with 1 in Hu; lia|].
  apply IH; [|lia].
  split; [apply Z.div_pos; lia|]. apply Z.div_lt_upper_bound; lia.
Qed.

Lemma FormatUint_fuel u f a :
  0 <= u < 2 ^ Z.of_nat f -> (1 <= f)%nat ->
  formatBits f u a = FormatUint u ++ a.
Proof.
  intros Hu Hf. unfold FormatUint.
  set (f0 := S (Z.to_nat (Z.log2 u))).
  assert (0 <= u < 2 ^ Z.of_nat f0) as Hu0.
  { split; [lia|]. unfold f0. rewrite Nat2Z.inj_succ, Z2Nat.id by apply Z.log2_nonneg.
    destruct (decide (u = 0)) as [->|]; [done|].
    apply Z.log2_spec. lia. }
  rewrite (formatBits_app f). f_equal. fold f0.
  destruct (decide (f <= f0)%nat).
  - symmetry. apply formatBits_fuel; [done|lia].
  - apply formatBits_fuel; [done|]. unfold f0. lia.
Qed.

Lemma FormatUint_digits u : 0 <= u -> Forall digit (FormatUint u).
Proof. intros Hu. by apply formatBits_digits. Qed.

Lemma FormatUint_nonempty u : FormatUint u <> [].
Proof. apply formatBits_nonempty. Qed.

(** The digits of [u] are those of [u / 10] followed by the last digit. *)
Lemma FormatUint_step u :
  10 <= u -> FormatUint u = FormatUint (u / 10) ++ [u mod 10 + 48].
Proof.
  intros Hu. unfold FormatUint at 1. cbn [formatBits].
  rewrite decide_True by lia.
  apply FormatUint_fuel.
  - split; [apply Z.div_pos; lia|].
    apply Z.div_lt_upper_bound; [lia|].
    rewrite Z2Nat.id by apply Z.log2_nonneg.
    pose proof (Z.log2_spec u ltac:(lia)) as [_ Hlt].
    rewrite Z.pow_succ_r in Hlt by apply Z.log2_nonneg. lia.
  - assert (0 < Z.log2 u); [|lia]. apply Z.log2_pos. lia.
Qed.

Lemma FormatUint_small u : 0 <= u < 10 -> FormatUint u = [u + 48].
Proof.
  intros Hu. unfold FormatUint. cbn [formatBits]. by rewrite decide_False by lia.
Qed.

(** An induction principle on the decimal digits of a number. *)
Lemma decimal_ind (P : Z -> Prop) :
  (forall u, 0 <= u < 10 -> P u) ->
  (forall u, 10 <= u -> P (u / 10) -> P u) ->
  forall u, 0 <= u -> P u.
Proof.
  intros Hsmall Hstep u Hu. generalize Hu. pattern u.
  apply Z_lt_induction; [|exact Hu]. clear u Hu. intros u IH Hu. destruct (decide (u < 10)) as [Hlt|Hge].
  - apply Hsmall. lia.
  - apply Hstep; [lia|]. apply IH; [|apply Z.div_pos; lia].
    split; [apply Z.div_pos; lia|]. apply Z.div_lt_upper_bound; lia.
Qed.
Lemma parseDigits_FormatUint u :
  0 <= u -> u <= maxUint64 ->
  forall a, parseDigits (FormatUint u ++ a) 0 = parseDigits a u.
Proof.
  intros Hu. pattern u. apply decimal_ind; [| |done]; clear u Hu.
  - intros u Hu Hmax a. rewrite FormatUint_small by done.
    cbn [app parseDigits]. rewrite decide_True by lia.
    unfold maxUint64 in *.
    change (2 ^ 64) with 18446744073709551616 in *.
    rewrite decide_False by (vm_compute; congruence).
    rewrite Z.mod_small by lia.
    rewrite decide_False by lia. f_equal. lia.
  - intros u Hu IH Hmax a. rewrite FormatUint_step, <- app_assoc by done.
    pose proof (Z.mod_pos_bound u 10 ltac:(lia)) as Hd.
    pose proof (Z.div_mod u 10 ltac:(lia)) as Hdm.
    assert (0 <= u / 10) as Hq by (apply Z.div_pos; lia).
    rewrite IH by lia.
    cbn [app parseDigits]. rewrite decide_True by lia.
    unfold maxUint64 in *.
    change (2 ^ 64) with 18446744073709551616 in *.
    change ((18446744073709551616 - 1) / 10 + 1) with 1844674407370955162.
    rewrite decide_False by lia.
    replace (u / 10 * 10 + (u mod 10 + 48 - 48)) with u by lia.
    rewrite Z.mod_small by lia.
    by rewrite decide_False by lia.
Qed.

Lemma ParseUint_FormatUint u :
  0 <= u -> u <= maxUint64 -> ParseUint (FormatUint u) = (u, None).
Proof.
  intros Hu Hmax. unfold ParseUint.
  pose proof (parseDigits_FormatUint u Hu Hmax []) as H.
  rewrite app_nil_r in H. simpl in H.
  destruct (FormatUint u) eqn:E; [by apply FormatUint_nonempty in E|done].
Qed.

Lemma FormatUint_head u :
  0 <= u -> exists c rest, FormatUint u = c :: rest /\ digit c.
Proof.
  intros Hu. pose proof (FormatUint_digits u Hu) as Hd.
  destruct (FormatUint u) as [|c rest] eqn:E; [by apply FormatUint_nonempty in E|].
  apply Forall_cons in Hd as [? _]. eauto.
Qed.

(** Atoi reads back what Itoa writes. *)
Lemma Atoi_Itoa i : is_int i -> Atoi (Itoa i) = (i, None).
Proof.
  intros Hi. unfold is_int, MinInt, MaxInt in Hi.
  change (2 ^ 63) with 9223372036854775808 in Hi.
  unfold Itoa. case_decide as Hneg.
  - rewrite Z.mod_small
      by (change (2 ^ 64) with 18446744073709551616; lia).
    unfold Atoi. rewrite bool_decide_eq_true_2 by done.
    rewrite decide_True by tauto.
    rewrite ParseUint_FormatUint
      by (unfold maxUint64; change (2 ^ 64) with 18446744073709551616; lia).
    change (2 ^ 63) with 9223372036854775808.
    rewrite decide_False by (intros [? _]; done).
    rewrite decide_False by lia.
    f_equal. unfold wrap.
    change (2 ^ 63) with 9223372036854775808.
    change (2 ^ 64) with 18446744073709551616.
    destruct (decide (i = -9223372036854775808)) as [->|]; [done|].
    rewrite (Z.mod_small (- i + _)) by lia.
    replace (- (- i + 9223372036854775808 - 9223372036854775808) +
             9223372036854775808) with (i + 9223372036854775808) by lia.
    rewrite Z.mod_small by lia. lia.
  - destruct (FormatUint_head i ltac:(lia)) as (c & rest & E & Hc).
    unfold Atoi. rewrite E. unfold digit in Hc.
    rewrite bool_decide_eq_false_2 by lia.
    rewrite decide_False by lia. rewrite <- E.
    rewrite ParseUint_FormatUint
      by (unfold maxUint64; change (2 ^ 64) with 18446744073709551616; lia).
    change (2 ^ 63) with 9223372036854775808.
    rewrite decide_False by lia.
    rewrite decide_False by (intros [? _]; done).
    f_equal. apply wrap_small. unfold is_int, MinInt, MaxInt.
    change (2 ^ 63) with 9223372036854775808. lia.
Qed.

Lemma Itoa_numeral i : is_int i -> Forall numeralByte (Itoa i).
Proof.
  intros Hi. pose proof (Atoi_ok _ _ (Atoi_Itoa i Hi)). tauto.
Qed.

Lemma Itoa_nonempty i : Itoa i <> [].
Proof.
  unfold Itoa. case_decide; [done|]. apply FormatUint_nonempty.
Qed.

(** Itoa ends in a digit. *)
Lemma Itoa_last i : is_int i -> exists c, last (Itoa i) = Some c /\ digit c.
Proof.
  intros Hi.
  assert (forall u, 0 <= u -> exists c, last (FormatUint u) = Some c /\ digit c) as H.
  { intros u Hu. pose proof (FormatUint_digits u Hu) as Hd.
    destruct (last (FormatUint u)) as [c|] eqn:E.
    - exists c. split; [done|]. rewrite Forall_forall in Hd. apply Hd.
      rewrite last_lookup in E. by eapply list_elem_of_lookup_2.
    - apply last_None in E. by apply FormatUint_nonempty in E. }
  unfold Itoa. case_decide.
  - destruct (H ((- i) mod 2 ^ 64)) as (c & Hc & Hd).
    { apply Z.mod_pos_bound. done. }
    exists c. split; [|done].
    by rewrite last_cons, Hc.
  - apply H. lia.
Qed.

Lemma bytes_ofBytes l : Forall (fun c => 0 <= c < 256) l -> bytes (ofBytes l) = l.
Proof.
  intros Hl. unfold bytes, ofBytes.
  rewrite String.list_ascii_of_string_of_list_ascii.
  rewrite <- list_fmap_compose.
  rewrite <- (list_fmap_id l) at 2. apply Forall_fmap_ext_1.
  eapply Forall_impl; [exact Hl|]. intros c Hc. simpl in *.
  assert (Z.to_N c < 256)%N as Hlt
    by (change 256%N with (Z.to_N 256); apply Z2N.inj_lt; lia).
  rewrite (Ascii.N_ascii_embedding _ Hlt). apply Z2N.id. lia.
Qed.

Lemma numeralByte_byte c : numeralByte c -> 0 <= c < 256.
Proof. unfold numeralByte, digit. lia. Qed.
(** ** Moves that ParseMove returns, carried out by MakeMove *)

(** A move written as ParseMove reads it: the amount, the letter of the
    axis, the index. *)
Lemma ParseMove_written letterTable lowerTable input amount a idx
    (axis : Axis) b max :
  bytes input = Itoa amount ++ a :: Itoa idx ->
  ((a = 114 \/ a = 82) /\ axis = HorizontalAxis) \/
  ((a = 99 \/ a = 67) /\ axis = VerticalAxis) ->
  is_int amount -> amount <> 0 -> is_int idx ->
  dimension axis b = Some max -> 0 <= idx < max ->
  ParseMove letterTable lowerTable input b = Ret (inl (mkMove axis idx amount)).
Proof.
  intros Hin Ha Hi Hnz Hii Hdim Hidx.
  rewrite (ParseMove_split letterTable lowerTable input (Itoa amount) a (Itoa idx)).
  - assert (parseParts (Itoa amount) (Itoa idx) axis b
            = Ret (inl (mkMove axis idx amount))) as Hparts.
    { unfold parseParts.
      rewrite decide_False by apply Itoa_nonempty.
      rewrite (Atoi_Itoa amount Hi).
      rewrite decide_False by done.
      rewrite decide_False by apply Itoa_nonempty.
      destruct (Itoa_last idx Hii) as (c & Hc & Hd).
      rewrite bool_decide_eq_false_2
        by (rewrite Hc; unfold digit in Hd; intros [= ->]; lia).
      rewrite (Atoi_Itoa idx Hii). rewrite Hdim.
      rewrite decide_False by lia. by rewrite decide_False by lia. }
    rewrite !parseAmountIndex_split.
    destruct Ha as [[Ha ->]|[Ha ->]].
    + by rewrite decide_True.
    + rewrite decide_False by lia. by rewrite decide_True.
  - done.
  - eapply Forall_impl; [apply Itoa_numeral; done|].
    intros c Hc. by apply numeralByte_not_letter.
  - unfold asciiLetter. lia.
Qed.

(** X9. Every move ParseMove returns is carried out by MakeMove when the
    board is square: MakeMove returns Abs of the amount.  When the board is
    not square there is an input that ParseMove accepts and on which
    MakeMove panics, leaving the board untouched: a row number between the
    height and the width, or a column number between the width and the
    height, passes the bound ParseMove checks and is no line of the board. *)
Theorem parsed_moves_are_safe_exactly_on_square_boards
    letterTable lowerTable w h b :
  rect w h b -> (1 < w)%nat -> (1 < h)%nat ->
  is_int (Z.of_nat w) -> is_int (Z.of_nat h) ->
  (w = h ->
   forall input m,
     ParseMove letterTable lowerTable input b = Ret (inl m) ->
     exists b', MakeMove m b = (Ret (Abs (Move_Amount m)), b') /\ rect w h b') /\
  (w <> h ->
   exists input m,
     ParseMove letterTable lowerTable input b = Ret (inl m) /\
     MakeMove m b = (Panic, b)).
Proof.
  intros Hr Hw Hh Hiw Hih.
  assert (0 < w)%nat as Hw0 by lia. assert (0 < h)%nat as Hh0 by lia.
  assert (is_int 1) as Hi1 by (unfold is_int, MinInt, MaxInt; lia).
  assert (0 < Abs 1) as Habs by (rewrite Abs_pos; lia).
  split.
  - intros <- input m Hparse.
    apply ParseMove_validated in Hparse as (_ & _ & max & Hdim & Hidx).
    assert (line_exists (Move_Axis m) (Move_Index m) w w) as He.
    { unfold line_exists, dimension in *. destruct (Move_Axis m).
      - simplify_eq. rewrite (Width_rect _ _ _ Hr) in Hidx. lia.
      - rewrite (Height_rect _ _ _ Hr Hw0) in Hdim. simplify_eq. lia. }
    rewrite (MakeMove_run m w w) by done. eexists. split; [done|].
    by apply iter_rect.
  - intros Hne. destruct (decide (h < w)%nat) as [Hlt|Hge].
    + exists (ofBytes (Itoa 1 ++ 114 :: Itoa (Z.of_nat h))),
             (mkMove HorizontalAxis (Z.of_nat h) 1).
      split.
      * apply (ParseMove_written _ _ _ _ 114 _ _ _ (Z.of_nat w));
          [|tauto|done|lia|done| |lia].
        -- apply bytes_ofBytes. apply Forall_app. split.
           ++ eapply Forall_impl; [by apply Itoa_numeral|]. apply numeralByte_byte.
           ++ constructor; [lia|].
              eapply Forall_impl; [by apply Itoa_numeral|]. apply numeralByte_byte.
        -- unfold dimension, HorizontalAxis. by rewrite (Width_rect _ _ _ Hr).
      * apply (MakeMove_panic _ w h); [done..| |done].
        unfold line_exists. simpl. lia.
    + exists (ofBytes (Itoa 1 ++ 99 :: Itoa (Z.of_nat w))),
             (mkMove VerticalAxis (Z.of_nat w) 1).
      split.
      * apply (ParseMove_written _ _ _ _ 99 _ _ _ (Z.of_nat h));
          [|tauto|done|lia|done| |lia].
        -- apply bytes_ofBytes. apply Forall_app. split.
           ++ eapply Forall_impl; [by apply Itoa_numeral|]. apply numeralByte_byte.
           ++ constructor; [lia|].
              eapply Forall_impl; [by apply Itoa_numeral|]. apply numeralByte_byte.
        -- unfold dimension, VerticalAxis. by rewrite (Height_rect _ _ _ Hr Hw0).
      * apply (MakeMove_panic _ w h); [done..| |done].
        unfold line_exists. simpl. lia.
Qed.

Lemma parsed_moves_are_safe_exactly_on_square_boards_witness :
  (exists b', MakeMove (mkMove VerticalAxis 1 (-1)) (solved 2 2) = (Ret 1, b') /\
              rect 2 2 b') /\
  (exists input m,
     ParseMove noLetterTable noCaseTable input (solved 2 3) = Ret (inl m) /\
     MakeMove m (solved 2 3) = (Panic, solved 2 3)).
Proof.
  assert (forall n, (n < 10)%nat -> is_int (Z.of_nat n)) as Hok.
  { intros n Hn. unfold is_int, MinInt, MaxInt. lia. }
  split.
  - destruct (parsed_moves_are_safe_exactly_on_square_boards
                noLetterTable noCaseTable 2 2 (solved 2 2)) as [H _].
    + apply solved_rect.
    + lia.
    + lia.
    + apply Hok. lia.
    + apply Hok. lia.
    + apply (H eq_refl "-1c1"%string (mkMove VerticalAxis 1 (-1))).
      vm_compute. reflexivity.
  - destruct (parsed_moves_are_safe_exactly_on_square_boards
                noLetterTable noCaseTable 2 3 (solved 2 3)) as [_ H].
    + apply solved_rect.
    + lia.
    + lia.
    + apply Hok. lia.
    + apply Hok. lia.
    + apply H. lia.
Defined.

(** X10. Every move that passes the checks of ParseMove can be written in
    Programmer's Notation: for a nonzero 64-bit amount and an index of
    [0, max), [max] being the width for a row and the height for a column,
    there is an input from which ParseMove returns exactly that Move. *)
Theorem ParseMove_reaches_every_validated_move letterTable lowerTable b m :
  validated b m -> is_int (Move_Index m) ->
  exists input, ParseMove letterTable lowerTable input b = Ret (inl m).
Proof.
  intros (Hi & Hnz & max & Hdim & Hidx) Hii.
  destruct m as [axis idx amount]. simpl in *.
  set (a := if axis then 114 else 99).
  exists (ofBytes (Itoa amount ++ a :: Itoa idx)).
  apply (ParseMove_written _ _ _ _ a _ _ _ max); [| |done..].
  - apply bytes_ofBytes. apply Forall_app. split.
    + eapply Forall_impl; [by apply Itoa_numeral|]. apply numeralByte_byte.
    + constructor; [unfold a; destruct axis; lia|].
      eapply Forall_impl; [by apply Itoa_numeral|]. apply numeralByte_byte.
  - unfold a, HorizontalAxis, VerticalAxis. destruct axis; tauto.
Qed.

Lemma ParseMove_reaches_every_validated_move_witness :
  exists input,
    ParseMove noLetterTable noCaseTable input (solved 4 3)
    = Ret (inl (mkMove VerticalAxis 2 (-7))).
Proof.
  apply (ParseMove_reaches_every_validated_move noLetterTable noCaseTable
           (solved 4 3) (mkMove VerticalAxis 2 (-7))).
  - unfold validated. simpl. split_and!.
    + unfold is_int, MinInt, MaxInt. lia.
    + lia.
    + exists 3. split; [reflexivity|lia].
  - unfold is_int, MinInt, MaxInt. simpl. lia.
Defined.
(** ** Shuffle on square and on other boards *)

(** X11. On a square board Shuffle never panics: it returns the number of
    iterations (width + height for 0, none for a negative number) after
    three draws per iteration.  On every board that is not square there is
    a sequence of draws on which the first iteration of Shuffle panics: the
    drawn row or column number is below the bound Shuffle draws it from and
    is no line of the board. *)
Theorem Shuffle_is_safe_exactly_on_square_boards w h b :
  rect w h b -> (1 < w)%nat -> (1 < h)%nat ->
  (w = h ->
   forall src pos iterations,
     let count := if decide (iterations = 0) then Z.of_nat w + Z.of_nat h
                  else Z.max 0 iterations in
     exists b',
       Shuffle iterations (mkWorld b src pos)
       = (Ret count, mkWorld b' src (3 * Z.to_nat count + pos)) /\
       rect w h b') /\
  (w <> h ->
   exists src, Shuffle 1 (mkWorld b src 0) = (Panic, mkWorld b src 3)).
Proof.
  intros Hr Hw Hh. split.
  - intros <- src pos iterations count.
    destruct (decide (iterations < 0)) as [Hneg|Hpos].
    + exists b. split; [|done]. rewrite Shuffle_negative by done.
      unfold count. rewrite decide_False by lia.
      rewrite Z.max_l by lia. done.
    + destruct (Shuffle_square w b src pos iterations Hr Hw ltac:(lia))
        as (b' & Hrun & Hr').
      exists b'. split; [|done]. rewrite Hrun. unfold count.
      case_decide; [done|]. by rewrite Z.max_r by lia.
  - intros Hne.
    set (r := if decide (h < w)%nat then 0 else 1).
    set (idx := if decide (h < w)%nat then Z.of_nat h else Z.of_nat w).
    set (src := fun k : nat => nth k [r; idx; 0] 0).
    exists src. unfold Shuffle. rewrite decide_False by lia.
    rewrite (bind_Ret _ _ _ 1 (mkWorld b src 0)) by done.
    change (up 1) with [0]. cbn [foldM].
    apply bind_Panic. unfold shufflePass.
    destruct (Intn_run 2 (mkWorld b src 0) ltac:(lia)) as [H1 _].
    rewrite (bind_Ret _ _ _ _ _ H1). cbn [rand_source rand_pos board].
    set (s1 := mkWorld b src 1).
    set (max := if decide (h < w)%nat then Z.of_nat w else Z.of_nat h).
    set (a := bool_decide (h < w)%nat).
    assert ((if decide (src 0%nat mod 2 = 0) then
               let* w := onBoard width in ret (HorizontalAxis, w)
             else
               let* h := onBoard height in ret (VerticalAxis, h)) s1
            = (Ret (a, max), s1)) as Ha.
    { unfold src, r, max, a. simpl. destruct (decide (h < w)%nat).
      - rewrite decide_True by done. unfold bind.
        rewrite (onBoard_run width s1 _ _ (width_run b)).
        rewrite (Width_rect _ _ _ Hr). by rewrite bool_decide_eq_true_2.
      - rewrite decide_False by done. unfold bind.
        rewrite (onBoard_run height s1 _ _ (height_run _ _ _ Hr ltac:(lia))).
        by rewrite bool_decide_eq_false_2. }
    rewrite (bind_Ret _ _ _ _ _ Ha).
    assert (0 <= idx < max) as Hidx by (unfold idx, max; destruct (decide (h < w)%nat); lia).
    destruct (Intn_run max s1 ltac:(lia)) as [H2 _].
    rewrite (bind_Ret _ _ _ _ _ H2). cbn [rand_source rand_pos board s1].
    set (s2 := mkWorld b src 2).
    destruct (Intn_run (max - 1) s2 ltac:(unfold max; destruct (decide (h < w)%nat); lia)) as [H3 _].
    rewrite (bind_Ret _ _ _ _ _ H3). cbn [rand_source rand_pos board s2].
    change (src 1%nat) with idx. change (src 2%nat) with 0.
    rewrite (Z.mod_small idx) by done. rewrite Zmod_0_l.
    apply bind_Panic.
    apply (onBoard_run _ (mkWorld b src 3)). simpl.
    apply (MakeMove_panic _ w h); [done|lia|lia| |].
    + unfold line_exists, a, idx. simpl. case_bool_decide.
      * rewrite decide_True by done. lia.
      * rewrite decide_False by done. lia.
    + simpl. rewrite Abs_pos; lia.
Qed.

Lemma Shuffle_is_safe_exactly_on_square_boards_witness :
  (exists b',
     Shuffle 0 (mkWorld (solved 2 2) (fun k => Z.of_nat k) 0)
     = (Ret 4, mkWorld b' (fun k => Z.of_nat k) 12) /\ rect 2 2 b') /\
  (exists src, Shuffle 1 (mkWorld (solved 3 2) src 0)
               = (Panic, mkWorld (solved 3 2) src 3)).
Proof.
  split.
  - destruct (Shuffle_is_safe_exactly_on_square_boards 2 2 (solved 2 2))
      as [H _].
    + apply solved_rect.
    + lia.
    + lia.
    + apply (H eq_refl (fun k => Z.of_nat k) 0%nat 0).
  - destruct (Shuffle_is_safe_exactly_on_square_boards 3 2 (solved 3 2))
      as [_ H].
    + apply solved_rect.
    + lia.
    + lia.
    + apply H. lia.
Defined.

(** The move a pass of Shuffle makes on a square board. *)
Lemma shufflePass_move n b src pos moves :
  rect n n b -> (1 < n)%nat ->
  exists a idx k,
    0 <= idx < Z.of_nat n /\ 0 <= k < Z.of_nat n - 1 /\
    shufflePass moves (mkWorld b src pos)
    = (Ret (moves + 1),
       mkWorld (MakeMove (mkMove a idx (k + 1)) b).2 src (3 + pos)).
Proof.
  intros Hr Hn. unfold shufflePass.
  destruct (Intn_run 2 (mkWorld b src pos) ltac:(lia)) as [H1 _].
  rewrite (bind_Ret _ _ _ _ _ H1). simpl.
  set (s1 := mkWorld b src (S pos)).
  assert (exists a,
    (if decide (src pos mod 2 = 0) then
       let* w := onBoard width in ret (HorizontalAxis, w)
     else
       let* h := onBoard height in ret (VerticalAxis, h)) s1
    = (Ret (a, Z.of_nat n), s1)) as [a Ha].
  { case_decide.
    - exists HorizontalAxis. unfold bind.
      rewrite (onBoard_run width s1 _ _ (width_run b)).
      by rewrite (Width_rect _ _ _ Hr).
    - exists VerticalAxis. unfold bind.
      by rewrite (onBoard_run height s1 _ _ (height_run _ _ _ Hr ltac:(lia))). }
  rewrite (bind_Ret _ _ _ _ _ Ha).
  destruct (Intn_run (Z.of_nat n) s1 ltac:(lia)) as [H2 Hi].
  rewrite (bind_Ret _ _ _ _ _ H2). simpl.
  set (s2 := mkWorld b src (S (S pos))).
  destruct (Intn_run (Z.of_nat n - 1) s2 ltac:(lia)) as [H3 Hk].
  rewrite (bind_Ret _ _ _ _ _ H3). simpl.
  simpl in Hi, Hk.
  exists a, (src (S pos) mod Z.of_nat n), (src (S (S pos)) mod (Z.of_nat n - 1)).
  split; [done|]. split; [done|].
  set (m := mkMove a _ _).
  assert (line_exists (Move_Axis m) (Move_Index m) n n) as He.
  { unfold line_exists, m. simpl. destruct a; lia. }
  pose proof (MakeMove_run m n n b Hr ltac:(lia) ltac:(lia) He) as Hm.
  rewrite (bind_Ret _ _ _ _ _ (onBoard_run _ (mkWorld b src (S (S (S pos)))) _ _ Hm)).
  by rewrite Hm.
Qed.

(** X17. An iteration of Shuffle is never idle.  On a square board whose
    tiles are the numbers 1, ..., n*n, Shuffle with one iteration returns 1
    after three draws and leaves a board that differs from the one it
    started with: the amount it draws lies between 1 and the length of the
    line less 1, so the move is no full turn. *)
Theorem Shuffle_iteration_changes_the_board n b src pos :
  numbered n n b -> (1 < n)%nat -> is_int (Z.of_nat n) ->
  exists b',
    Shuffle 1 (mkWorld b src pos) = (Ret 1, mkWorld b' src (3 + pos)) /\
    numbered n n b' /\ b' <> b.
Proof.
  intros Hn Hlt Hint. pose proof Hn as [Hr _].
  destruct (shufflePass_move n b src pos 0 Hr Hlt) as (a & idx & k & Hidx & Hk & Hpass).
  exists (MakeMove (mkMove a idx (k + 1)) b).2. split_and!.
  - unfold Shuffle. rewrite decide_False by lia.
    rewrite (bind_Ret _ _ _ 1 (mkWorld b src pos)) by done.
    change (up 1) with [0]. cbn [foldM].
    by rewrite (bind_Ret _ _ _ _ _ Hpass).
  - apply (MakeMove_numbered n n); [lia|lia|done].
  - intros Heq.
    assert (forall z, 0 <= z < Z.of_nat n -> is_int z /\ z <> MinInt) as Hok.
    { intros z Hz. unfold is_int, MinInt, MaxInt in *. lia. }
    assert (line_exists a idx n n) as He by (unfold line_exists; destruct a; lia).
    destruct (Hok (k + 1) ltac:(lia)) as [Hik Hnek].
    destruct (Hok 0 ltac:(lia)) as [Hi0 Hne0].
    pose proof (MakeMove_congruent_amounts n n b a idx (k + 1) 0 Hn
                  ltac:(lia) ltac:(lia) He Hik Hnek Hi0 Hne0) as [Hcong _].
    rewrite (MakeMove_idle (mkMove a idx 0)) in Hcong by (simpl; done).
    simpl in Hcong. specialize (Hcong Heq).
    assert (lineLength a n n = Z.of_nat n) as HL by (unfold lineLength; by destruct a).
    rewrite HL, Zmod_0_l, Z.mod_small in Hcong by lia. lia.
Qed.

Lemma Shuffle_iteration_changes_the_board_witness :
  exists b',
    Shuffle 1 (mkWorld (solved 2 2) draws0111 0)
    = (Ret 1, mkWorld b' draws0111 3) /\
    numbered 2 2 b' /\ b' <> solved 2 2.
Proof.
  apply (Shuffle_iteration_changes_the_board 2 (solved 2 2) draws0111 0).
  - apply solved_numbered.
  - lia.
  - unfold is_int, MinInt, MaxInt. lia.
Defined.
(** ** SprintBoard *)

Lemma parsenum_FormatUint u :
  0 <= u -> forall a, parsenum (FormatUint u ++ a) 0 = parsenum a u.
Proof.
  intros Hu. pattern u. apply decimal_ind; [| |done]; clear u Hu.
  - intros u Hu a. rewrite FormatUint_small by done.
    cbn [app parsenum]. rewrite decide_True by lia. f_equal. lia.
  - intros u Hu IH a. rewrite FormatUint_step, <- app_assoc by done.
    pose proof (Z.mod_pos_bound u 10 ltac:(lia)) as Hd.
    pose proof (Z.div_mod u 10 ltac:(lia)) as Hdm.
    rewrite IH. cbn [app parsenum]. rewrite decide_True by lia. f_equal. lia.
Qed.

Lemma parsenum_Itoa (n : nat) : parsenum (Itoa (Z.of_nat n)) 0 = Z.of_nat n.
Proof.
  unfold Itoa. rewrite decide_False by lia.
  rewrite <- (app_nil_r (FormatUint _)). by rewrite parsenum_FormatUint by lia.
Qed.




(** The row [y] of the board as the inner loop of SprintBoard appends it
    to the text [r]. *)
Lemma SprintBoard_row w h b (P : nat) pad y r :
  rect w h b -> 0 <= y < Z.of_nat h -> parsenum pad 0 = Z.of_nat P ->
  foldM (up (Z.of_nat w)) r (fun x r =>
    let* v := load x y in ret (r ++ Sprintf_pad pad v)) b
  = (Ret (r ++ rowText P w b y), b).
Proof.
  intros Hr Hy Hpad. unfold rowText.
  assert (forall l : list Z, Forall (fun x => 0 <= x < Z.of_nat w) l ->
    forall r, foldM l r (fun x r =>
                let* v := load x y in ret (r ++ Sprintf_pad pad v)) b
    = (Ret (r ++ mjoin ((fun x => cellText P b (x, y)) <$> l)), b)) as H.
  { induction l as [|x l IH]; intros Hl r'.
    - simpl. by rewrite app_nil_r.
    - apply Forall_cons in Hl as [Hx Hl]. cbn [foldM].
      destruct (cell_inside w h b (x, y) Hr) as [v Hv].
      { unfold inside. simpl. lia. }
      rewrite (bind_Ret _ _ b (r' ++ Sprintf_pad pad v) b).
      + rewrite IH by done. csimpl. rewrite <- app_assoc. do 3 f_equal.
        unfold cellText, Sprintf_pad, rjust. rewrite Hv, Hpad, Nat2Z.id. done.
      + by rewrite (bind_Ret _ _ _ _ _ (load_run _ _ _ _ Hv)). }
  apply H. apply Forall_forall. by intros x Hx%elem_of_up.
Qed.

(** Rows that each end in a newline, but for the last, are rows joined by
    newlines. *)
Lemma joinLines_rows (row : Z -> list Z) (h : nat) n j :
  (j + n = h)%nat ->
  mjoin ((fun y => row y ++ if decide (y <> Z.of_nat h - 1) then [10] else [])
         <$> (Z.of_nat <$> seq j n))
  = joinLines (row <$> (Z.of_nat <$> seq j n)).
Proof.
  revert j. induction n as [|n IH]; intros j Hj; [done|].
  cbn [seq fmap list_fmap]. csimpl. rewrite IH by lia. rewrite <- app_assoc.
  f_equal. destruct n as [|n].
  - simpl. by rewrite decide_False by lia.
  - rewrite decide_True by lia. cbn [seq fmap list_fmap]. csimpl. done.
Qed.

(** The text SprintBoard returns. *)
Lemma SprintBoard_run w h b :
  rect w h b -> (0 < w)%nat ->
  SprintBoard b =
    (Ret (joinLines (rowText (tileDigits w h) w b <$> up (Z.of_nat h))), b).
Proof.
  intros Hr Hw. set (P := tileDigits w h).
  unfold SprintBoard.
  rewrite (bind_Ret _ _ _ _ _ (width_run b)), (Width_rect _ _ _ Hr).
  rewrite (bind_Ret _ _ _ _ _ (height_run _ _ _ Hr Hw)).
  rewrite (bind_Ret _ _ _ _ _ (height_run _ _ _ Hr Hw)).
  fold (tileDigits w h). fold P.
  set (pad := Itoa (Z.of_nat P)).
  assert (parsenum pad 0 = Z.of_nat P) as Hpad by apply parsenum_Itoa.
  set (body := fun (y : Z) (r : list Z) => _).
  assert (forall l : list Z, Forall (fun y => 0 <= y < Z.of_nat h) l ->
    forall r, foldM l r body b
    = (Ret (r ++ mjoin ((fun y => rowText P w b y ++
                           if decide (y <> Z.of_nat h - 1) then [10] else [])
                        <$> l)), b)) as H.
  { induction l as [|y l IH]; intros Hl r.
    - simpl. by rewrite app_nil_r.
    - apply Forall_cons in Hl as [Hy Hl]. cbn [foldM].
      rewrite (bind_Ret _ _ b
        (r ++ rowText P w b y ++
           if decide (y <> Z.of_nat h - 1) then [10] else []) b).
      + rewrite IH by done. csimpl. by rewrite <- !app_assoc.
      + unfold body.
        rewrite (bind_Ret _ _ _ _ _ (width_run b)), (Width_rect _ _ _ Hr).
        rewrite (bind_Ret _ _ _ _ _ (SprintBoard_row w h b P pad y r Hr Hy Hpad)).
        rewrite (bind_Ret _ _ _ _ _ (height_run _ _ _ Hr Hw)).
        case_decide.
        * unfold ret. by rewrite <- app_assoc.
        * unfold ret. by rewrite app_nil_r. }
  rewrite H by (apply Forall_forall; by intros y Hy%elem_of_up).
  rewrite app_nil_l, up_of_nat. by rewrite (joinLines_rows _ h h 0).
Qed.


(** ** The session: reading lines and printing *)

Lemma Print_run o s :
  Print o s = (Ret tt, mkSession (world s) (stdin s) (stdout s ++ [o])).
Proof. done. Qed.

Lemma Scan_line w line rest out :
  Scan (mkSession w (line :: rest) out) = (Ret (Some line), mkSession w rest out).
Proof. done. Qed.

Lemma Scan_end w out : Scan (mkSession w [] out) = (Ret None, mkSession w [] out).
Proof. done. Qed.

Lemma onWorld_run {A} (m : M World A) s r w' :
  m (world s) = (r, w') -> onWorld m s = (r, mkSession w' (stdin s) (stdout s)).
Proof. unfold onWorld. by intros ->. Qed.

Lemma preserves_onWorld {A} (I : World -> Prop) (m : M World A) :
  preserves I m -> preserves (fun s => I (world s)) (onWorld m).
Proof.
  intros Hm s Hs. specialize (Hm (world s) Hs). unfold onWorld.
  by destruct (m (world s)) as [r w'].
Qed.

Lemma preserves_Print (I : World -> Prop) o :
  preserves (fun s => I (world s)) (Print o).
Proof. by intros s Hs. Qed.

Lemma preserves_Scan (I : World -> Prop) :
  preserves (fun s => I (world s)) Scan.
Proof. intros s Hs. unfold Scan. by destruct (stdin s). Qed.

Lemma preserves_scanLoop {R} (I : Session -> Prop) n
    (body : string -> M Session (option R)) :
  preserves I Scan -> (forall line, preserves I (body line)) ->
  preserves I (scanLoop n body).
Proof.
  intros HScan Hbody. induction n as [|n IH]; cbn [scanLoop].
  - apply preserves_bind; [done|]. intros [line|]; [|apply preserves_ret].
    apply preserves_bind; [apply Hbody|].
    intros [v|]; [apply preserves_ret|]. by intros s Hs.
  - apply preserves_bind; [done|]. intros [line|]; [|apply preserves_ret].
    apply preserves_bind; [apply Hbody|].
    intros [v|]; [apply preserves_ret|done].
Qed.

Lemma preserves_forScan {R} (I : Session -> Prop)
    (body : string -> M Session (option R)) :
  preserves I Scan -> (forall line, preserves I (body line)) ->
  preserves I (forScan body).
Proof.
  intros HScan Hbody s Hs. unfold forScan. by apply preserves_scanLoop.
Qed.

Lemma preserves_forEachUntil {S A R} (I : S -> Prop) (l : list A)
    (body : A -> M S (option R)) :
  (forall a, preserves I (body a)) -> preserves I (forEachUntil l body).
Proof.
  intros Hb. induction l as [|a l IH]; [apply preserves_ret|].
  cbn [forEachUntil]. apply preserves_bind; [apply Hb|].
  intros [v|]; [apply preserves_ret|done].
Qed.

Lemma preserves_load (I : Board -> Prop) x y : preserves I (load x y).
Proof. apply preserves_pure. apply load_pure. Qed.

Lemma preserves_width (I : Board -> Prop) : preserves I width.
Proof. apply preserves_pure. apply width_pure. Qed.

Lemma preserves_height (I : Board -> Prop) : preserves I height.
Proof. apply preserves_pure. apply height_pure. Qed.

(** SprintBoard and IsSolved write nothing. *)
Lemma preserves_SprintBoard (I : Board -> Prop) : preserves I SprintBoard.
Proof.
  unfold SprintBoard.
  apply preserves_bind; [apply preserves_width|]. intros w.
  apply preserves_bind; [apply preserves_height|]. intros h.
  apply preserves_bind; [apply preserves_height|]. intros h'.
  apply preserves_foldM. intros y r.
  apply preserves_bind; [apply preserves_width|]. intros w'.
  apply preserves_bind.
  - apply preserves_foldM. intros x r'.
    apply preserves_bind; [apply preserves_load|]. intros v. apply preserves_ret.
  - intros r'. apply preserves_bind; [apply preserves_height|]. intros h''.
    case_decide; apply preserves_ret.
Qed.

Lemma preserves_IsSolved (I : Board -> Prop) : preserves I IsSolved.
Proof.
  unfold IsSolved.
  apply preserves_bind; [apply preserves_width|]. intros w.
  apply preserves_bind.
  - apply preserves_forEachUntil. intros x.
    apply preserves_bind; [apply preserves_height|]. intros h.
    apply preserves_forEachUntil. intros y.
    apply preserves_bind; [apply preserves_load|]. intros v.
    apply preserves_bind; [by apply preserves_pure|]. intros d.
    case_decide; apply preserves_ret.
  - intros [v|]; apply preserves_ret.
Qed.

Lemma SprintBoard_no_column : SprintBoard [] = (Panic, []).
Proof. done. Qed.
(** ** ScanShuffle *)

Lemma ScanShuffle_numbered lowerTable fuel w h :
  (0 < w)%nat -> (0 < h)%nat ->
  preserves (fun s => numbered w h (board (world s)))
            (ScanShuffle lowerTable fuel).
Proof.
  intros Hw Hh. unfold ScanShuffle.
  set (I := fun s : World => numbered w h (board s)).
  apply preserves_bind; [apply (preserves_Print I)|]. intros _.
  apply preserves_bind; [apply (preserves_Scan I)|].
  intros [text|]; [|apply preserves_ret].
  case_decide.
  - apply preserves_bind; [|intros _; apply (preserves_Print I)].
    apply (preserves_onWorld I). apply FastShuffle_numbered.
  - apply preserves_bind; [apply (preserves_Print I)|]. intros _.
    apply preserves_bind.
    + apply preserves_forScan; [apply (preserves_Scan I)|]. intros line.
      case_decide; [|apply preserves_ret].
      destruct (Atoi (bytes line)) as [k [e|]]; [|apply preserves_ret].
      apply preserves_bind; [apply (preserves_Print I)|]. intros _.
      apply preserves_ret.
    + intros _. apply preserves_bind; [|intros k; apply (preserves_Print I)].
      apply (preserves_onWorld I). by apply Shuffle_numbered.
Qed.

(** X13. When the user turns the fast shuffle down ("n" or "N") and then
    types a number of iterations, ScanShuffle does not use the number: the
    variable it hands to Shuffle is not the one the number was parsed into,
    and Shuffle always runs with 0, that is with width + height iterations.
    On a square board of side [n] the outcome is the one of [Shuffle 0], and
    the message reports [n + n] iterations whatever number [k] was typed. *)
Theorem ScanShuffle_ignores_the_number_of_iterations
    lowerTable fuel n b src pos answer count k rest out :
  rect n n b -> (1 < n)%nat ->
  strings_ToLower lowerTable (bytes answer) = bytes "n" ->
  Atoi (bytes count) = (k, None) ->
  exists b',
    Shuffle 0 (mkWorld b src pos)
    = (Ret (Z.of_nat n + Z.of_nat n),
       mkWorld b' src (3 * (n + n) + pos)) /\
    ScanShuffle lowerTable fuel
      (mkSession (mkWorld b src pos) (answer :: count :: rest) out)
    = (Ret tt,
       mkSession (mkWorld b' src (3 * (n + n) + pos)) rest
         (out ++
          [Text (bytes "Fast shuffle? [Y/n]: ");
           Text (bytes
             "How many iterations? 0 uses the default number of iterations: ");
           Text (bytes "Shuffled board with "
                 ++ Itoa (Z.of_nat n + Z.of_nat n)
                 ++ bytes " iterations" ++ [10])])).
Proof.
  intros Hr Hn Hanswer Hcount.
  destruct (Shuffle_square n b src pos 0 Hr Hn ltac:(lia)) as (b' & Hrun & _).
  rewrite decide_True in Hrun by done.
  replace (3 * Z.to_nat (Z.of_nat n + Z.of_nat n) + pos)%nat
    with (3 * (n + n) + pos)%nat in Hrun by lia.
  exists b'. split; [exact Hrun|].
  unfold ScanShuffle.
  rewrite (bind_Ret _ _ _ _ _ (Print_run _ _)). cbn [world stdin stdout].
  rewrite (bind_Ret _ _ _ _ _ (Scan_line _ _ _ _)).
  rewrite Hanswer. rewrite decide_False by (intros Hne; by apply Hne).
  rewrite (bind_Ret _ _ _ _ _ (Print_run _ _)). cbn [world stdin stdout].
  match goal with
  | |- bind (forScan ?body) _ ?s = _ =>
      assert (forScan body s
              = (Ret (Some tt),
                 mkSession (world s) rest (stdout s))) as Hloop
  end.
  { unfold forScan. cbn [stdin length scanLoop].
    rewrite (bind_Ret _ _ _ _ _ (Scan_line _ _ _ _)).
    destruct (Atoi_ok _ _ Hcount) as (Hne & _ & _).
    rewrite decide_True by (by destruct (bytes count)).
    rewrite Hcount. done. }
  rewrite (bind_Ret _ _ _ _ _ Hloop). cbn [world stdin stdout].
  erewrite bind_Ret; [|apply onWorld_run; exact Hrun].
  rewrite Print_run. cbn [world stdin stdout].
  by rewrite <- !app_assoc.
Qed.

Lemma ScanShuffle_ignores_the_number_of_iterations_witness :
  exists b',
    Shuffle 0 (mkWorld (solved 2 2) draws0111 0)
    = (Ret 4, mkWorld b' draws0111 12) /\
    ScanShuffle noCaseTable 0
      (mkSession (mkWorld (solved 2 2) draws0111 0) ["N"; "1000"; "reset"] [])
    = (Ret tt,
       mkSession (mkWorld b' draws0111 12) ["reset"]
         [Text (bytes "Fast shuffle? [Y/n]: ");
          Text (bytes
            "How many iterations? 0 uses the default number of iterations: ");
          Text (bytes "Shuffled board with 4 iterations" ++ [10])]).
Proof.
  apply (ScanShuffle_ignores_the_number_of_iterations
           noCaseTable 0 2 (solved 2 2) draws0111 0 "N" "1000" 1000 ["reset"] []).
  - apply solved_rect.
  - lia.
  - reflexivity.
  - reflexivity.
Defined.
(** ** main *)

(** Without a board a pass of the game loop panics when it prints the
    board. *)
Lemma gameTurn_no_board letterTable lowerTable fuel n src pos lines out :
  gameTurn letterTable lowerTable fuel n (mkSession (mkWorld [] src pos) lines out)
  = (Panic,
     mkSession (mkWorld [] src pos) lines
       (out ++ [Text [10]; Text (bytes "Board state:" ++ [10])])).
Proof.
  unfold gameTurn, Println.
  rewrite (bind_Ret _ _ _ _ _ (Print_run _ _)). cbn [world stdin stdout].
  rewrite (bind_Ret _ _ _ _ _ (Print_run _ _)). cbn [world stdin stdout].
  rewrite <- app_assoc. by apply bind_Panic.
Qed.

(** The first loop of main on lines that give no board. *)
Lemma scanSize_rejected lines :
  Forall sizeRejected lines ->
  forall src pos out,
  exists out',
    scanSize (mkSession (mkWorld [] src pos) lines out)
    = (Ret tt, mkSession (mkWorld [] src pos) [] out').
Proof.
  intros Hl src pos out. unfold scanSize.
  match goal with
  | |- context [forScan ?body] => set (body' := body)
  end.
  assert (forall n out, (length lines <= n)%nat ->
            exists out',
              scanLoop n body' (mkSession (mkWorld [] src pos) lines out)
              = (Ret None, mkSession (mkWorld [] src pos) [] out')) as H.
  { clear out. induction Hl as [|line lines [Hne Hrej] _ IH]; intros n out Hn.
    - exists out. by destruct n.
    - assert (exists out1,
                body' line (mkSession (mkWorld [] src pos) lines out)
                = (Ret None, mkSession (mkWorld [] src pos) lines out1))
        as [out1 Hbody].
      { unfold body'. rewrite decide_False by (by destruct (bytes line)).
        destruct (ParseTwoDimensions line) as [[w h] [e|]].
        - eexists. unfold bind, Print, ret. simpl. done.
        - unfold NewBoard. destruct (decide (w <= 1)).
          + eexists. unfold bind, Print, setBoard, ret. simpl. done.
          + rewrite decide_True by tauto.
            eexists. unfold bind, Print, setBoard, ret. simpl. done. }
      simpl in Hn. destruct n as [|n]; [lia|].
      destruct (IH n out1 ltac:(lia)) as [out' Hrest].
      exists out'. cbn [scanLoop].
      rewrite (bind_Ret _ _ _ _ _ (Scan_line _ _ _ _)).
      by rewrite (bind_Ret _ _ _ _ _ Hbody). }
  destruct (H (length lines) out ltac:(lia)) as [out' Hrun].
  exists out'.
  assert (forScan body' (mkSession (mkWorld [] src pos) lines out)
          = (Ret None, mkSession (mkWorld [] src pos) [] out')) as Hfor
    by exact Hrun.
  by rewrite (bind_Ret _ _ _ _ _ Hfor).
Qed.

(** X14. When standard input ends before a line has given a board -- no
    line at all, or only lines that are no pair of dimensions or that name
    a side below 2 -- main does not stop: it enters the game loop with the
    nil Board and panics in SprintBoard, whose Height reads column 0 of a
    board without columns. *)
Theorem main_panics_when_no_line_gives_a_board
    letterTable lowerTable turns fuel s :
  Forall sizeRejected (stdin s) ->
  exists out',
    main letterTable lowerTable (S turns) fuel s
    = (Panic,
       mkSession (mkWorld [] (rand_source (world s)) (rand_pos (world s)))
                 [] out').
Proof.
  intros Hl. unfold main.
  rewrite (bind_Ret _ _ s tt
             (mkSession (mkWorld [] (rand_source (world s)) (rand_pos (world s)))
                        (stdin s) (stdout s))) by done.
  rewrite (bind_Ret _ _ _ _ _ (Print_run _ _)). cbn [world stdin stdout].
  destruct (scanSize_rejected _ Hl (rand_source (world s)) (rand_pos (world s))
              (stdout s ++ [Text (bytes "Input board size (default is 5x5): ")]))
    as [out' Hsize].
  rewrite (bind_Ret _ _ _ _ _ Hsize).
  cbn [gameLoop]. eexists. apply bind_Panic. apply gameTurn_no_board.
Qed.

Lemma main_panics_when_no_line_gives_a_board_witness :
  exists out',
    main noLetterTable noCaseTable 1 0
      (mkSession (mkWorld [] draws0111 0) ["5"; "1x9"; "x"] [])
    = (Panic, mkSession (mkWorld [] draws0111 0) [] out').
Proof.
  apply (main_panics_when_no_line_gives_a_board noLetterTable noCaseTable 0 0
           (mkSession (mkWorld [] draws0111 0) ["5"; "1x9"; "x"] [])).
  repeat constructor; try (vm_compute; congruence); vm_compute; auto.
Defined.

Lemma NewBoard_numbered width height b :
  NewBoard width height = Ret (inl b) ->
  exists w h, (1 < w)%nat /\ (1 < h)%nat /\ numbered w h b.
Proof.
  intros Hnew. destruct (decide (width <= 1)) as [Hw|Hw].
  { unfold NewBoard in Hnew. by rewrite decide_True in Hnew. }
  destruct (decide (height <= 1)) as [Hh|Hh].
  { unfold NewBoard in Hnew. rewrite decide_False, decide_True in Hnew; done. }
  rewrite NewBoard_run in Hnew by lia. simplify_eq.
  exists (Z.to_nat width), (Z.to_nat height).
  split_and!; [lia|lia|apply solved_numbered].
Qed.

(** The boards main can hold: none yet, or the numbers 1, ..., w*h. *)
Lemma gameTurn_numbered letterTable lowerTable fuel n w h :
  (0 < w)%nat -> (0 < h)%nat ->
  preserves (fun s => numbered w h (board (world s)))
            (gameTurn letterTable lowerTable fuel n).
Proof.
  intros Hw Hh. unfold gameTurn, Println.
  set (I := fun s : World => numbered w h (board s)).
  set (J := fun b : Board => numbered w h b).
  apply preserves_bind; [apply (preserves_Print I)|]. intros _.
  apply preserves_bind; [apply (preserves_Print I)|]. intros _.
  apply preserves_bind.
  { apply (preserves_onWorld I). apply (preserves_onBoard J).
    apply preserves_SprintBoard. }
  intros text.
  apply preserves_bind; [apply (preserves_Print I)|]. intros _.
  apply preserves_bind; [apply (preserves_Print I)|]. intros _.
  apply preserves_bind.
  { apply (preserves_onWorld I). apply (preserves_onBoard J).
    apply preserves_IsSolved. }
  intros solved.
  apply preserves_bind.
  { destruct solved; [apply (preserves_Print I)|apply preserves_ret]. }
  intros _.
  apply preserves_bind; [apply (preserves_Print I)|]. intros _.
  apply preserves_bind; [|intros r; apply preserves_ret].
  apply preserves_forScan; [apply (preserves_Scan I)|]. intros line.
  case_decide.
  { apply preserves_bind; [by apply ScanShuffle_numbered|].
    intros _. apply preserves_ret. }
  case_decide.
  { apply preserves_bind.
    - apply (preserves_onWorld I). apply (preserves_onBoard J).
      by apply Reset_numbered.
    - intros _. apply preserves_bind; [apply (preserves_Print I)|].
      intros _. apply preserves_ret. }
  apply preserves_bind; [by apply preserves_pure|]. intros b.
  destruct (ParseMove _ _ _ _) as [[m|e]| |].
  - apply preserves_bind; [|intros k; apply preserves_ret].
    apply (preserves_onWorld I). apply (preserves_onBoard J).
    by apply MakeMove_numbered.
  - apply preserves_bind; [apply (preserves_Print I)|]. intros _.
    apply preserves_bind; [apply (preserves_Print I)|]. intros _.
    apply preserves_bind; [apply (preserves_Print I)|]. intros _.
    apply preserves_ret.
  - by intros s Hs.
  - by intros s Hs.
Qed.

(** X15. Whatever is typed and however long the program runs, the Board of
    main is either the nil Board it starts with (no line has given a board
    yet) or a board on which every number of 1, ..., width*height stands
    exactly once, for sides above 1: no sequence of moves, resets and
    shuffles, and no panic, leaves a tile lost or doubled. *)
Theorem main_keeps_the_tiles_numbered letterTable lowerTable turns fuel s :
  board (world (main letterTable lowerTable turns fuel s).2) = [] \/
  exists w h, (1 < w)%nat /\ (1 < h)%nat /\
    numbered w h (board (world (main letterTable lowerTable turns fuel s).2)).
Proof.
  set (Inv := fun s : Session =>
    board (world s) = [] \/
    exists w h, (1 < w)%nat /\ (1 < h)%nat /\ numbered w h (board (world s))).
  assert (forall turns n, preserves Inv (gameLoop letterTable lowerTable turns fuel n))
    as Hloop.
  { clear turns. induction turns as [|turns IH]; intros n; [by intros s' Hs'|].
    cbn [gameLoop]. apply preserves_bind; [|intros n'; apply IH].
    intros s' [Hnil|(w & h & Hw & Hh & Hn)].
    - destruct s' as [[b src pos] lines out]. simpl in Hnil. subst b.
      rewrite gameTurn_no_board. by left.
    - right. exists w, h. split_and!; [done..|].
      apply (gameTurn_numbered letterTable lowerTable fuel n w h); [lia|lia|done]. }
  assert (preserves Inv scanSize) as Hsize.
  { unfold scanSize. apply preserves_bind; [|intros r; apply preserves_ret].
    apply preserves_forScan.
    { intros s' Hs'. unfold Scan. by destruct (stdin s'). }
    intros line.
    destruct (if decide (length (bytes line) = 0%nat) then (5, 5, None)
              else ParseTwoDimensions line) as [[w h] [e|]].
    - by intros s' Hs'.
    - destruct (NewBoard w h) as [[b|e]| |] eqn:Hnew.
      + intros s' _. right. simpl. by apply (NewBoard_numbered w h).
      + intros s' _. by left.
      + by intros s' Hs'.
      + by intros s' Hs'. }
  change (Inv (main letterTable lowerTable turns fuel s).2).
  unfold main.
  rewrite (bind_Ret _ _ s tt
             (mkSession (mkWorld [] (rand_source (world s)) (rand_pos (world s)))
                        (stdin s) (stdout s))) by done.
  apply preserves_bind; [by intros s' Hs'| |by left]. intros _.
  apply preserves_bind; [done|]. intros _. apply Hloop.
Qed.
(** ** FastShuffle never panics *)

Lemma safely_ret {S A} (P : S -> Prop) (a : A) (Q : A -> S -> Prop) :
  (forall s, P s -> Q a s) -> safely P (ret a) Q.
Proof. intros H s Hs. by apply H. Qed.

Lemma safely_bind {S A B} (P : S -> Prop) (m : M S A) (Q : A -> S -> Prop)
    (k : A -> M S B) (R : B -> S -> Prop) :
  safely P m Q -> (forall a, safely (Q a) (k a) R) -> safely P (bind m k) R.
Proof.
  intros Hm Hk s Hs. specialize (Hm s Hs). unfold bind.
  destruct (m s) as [[a| |] s']; [|done..]. by apply Hk.
Qed.

Lemma safely_weaken {S A} (P P' : S -> Prop) (m : M S A) (Q Q' : A -> S -> Prop) :
  safely P m Q -> (forall s, P' s -> P s) -> (forall a s, Q a s -> Q' a s) ->
  safely P' m Q'.
Proof.
  intros Hm HP HQ s Hs. specialize (Hm s (HP s Hs)).
  destruct (m s) as [[a| |] s']; [by apply HQ|done..].
Qed.

Lemma safely_forEach {S A} (P : S -> Prop) (l : list A) (body : A -> M S unit) :
  (forall a, a ∈ l -> safely P (body a) (fun _ => P)) ->
  safely P (forEach l body) (fun _ => P).
Proof.
  induction l as [|a l IH]; intros Hb; [by apply safely_ret|].
  cbn [forEach]. eapply safely_bind; [apply Hb; by left|].
  intros u. apply IH. intros a' Ha'. apply Hb. by right.
Qed.

Lemma safely_onBoard {A} (P : Board -> Prop) (m : M Board A) (Q : A -> Board -> Prop) :
  safely P m Q ->
  safely (fun s => P (board s)) (onBoard m) (fun a s => Q a (board s)).
Proof.
  intros Hm s Hs. specialize (Hm (board s) Hs). unfold onBoard.
  by destruct (m (board s)) as [[a| |] b'].
Qed.

Lemma safely_Intn (P : Board -> Prop) n :
  0 < n ->
  safely (fun s => P (board s)) (Intn n)
         (fun v s => P (board s) /\ 0 <= v < n).
Proof.
  intros Hn s Hs. destruct (Intn_run n s Hn) as [-> Hv]. done.
Qed.

Lemma safely_swapTiles w h x1 y1 x2 y2 :
  inside w h (x1, y1) -> inside w h (x2, y2) ->
  safely (rect w h) (swapTiles x1 y1 x2 y2) (fun _ => rect w h).
Proof.
  intros H1 H2 b Hr. unfold swapTiles, bind, load, store.
  destruct (proj2 (get_is_Some w h b x2 y2 Hr) H2) as [v2 ->].
  destruct (proj2 (get_is_Some w h b x1 y1 Hr) H1) as [v1 Hv1]. rewrite Hv1.
  assert (is_Some (set b x1 y1 v2)) as [b1 Hb1] by (apply set_is_Some; eauto).
  rewrite Hb1. pose proof (set_rect _ _ _ _ _ _ _ Hr Hb1) as Hr1.
  assert (is_Some (set b1 x2 y2 v1)) as [b2 Hb2].
  { apply set_is_Some. by apply (get_is_Some w h). }
  rewrite Hb2. simpl. by eapply set_rect.
Qed.

Lemma safely_redraw w h fuel x1 y1 :
  (0 < w)%nat -> (0 < h)%nat ->
  forall x2 y2, inside w h (x2, y2) ->
  safely (fun s => rect w h (board s)) (redraw fuel x1 y1 x2 y2)
         (fun c s => rect w h (board s) /\ inside w h c).
Proof.
  intros Hw Hh. induction fuel as [|fuel IH]; intros x2 y2 Hin; cbn [redraw].
  - case_decide; [by intros s Hs|]. by apply safely_ret.
  - case_decide; [|by apply safely_ret].
    eapply safely_bind.
    { apply (safely_onBoard (rect w h) width
               (fun v b => rect w h b /\ v = Z.of_nat w)).
      intros b Hr. rewrite width_run. by rewrite (Width_rect _ _ _ Hr). }
    intros ? s [Hs ->]. revert s Hs.
    eapply safely_bind; [apply (safely_Intn (rect w h)); lia|].
    intros x2' s [Hs Hx2]. revert s Hs.
    eapply safely_bind.
    { apply (safely_onBoard (rect w h) height
               (fun v b => rect w h b /\ v = Z.of_nat h)).
      intros b Hr. by rewrite (height_run _ _ _ Hr Hw). }
    intros ? s [Hs ->]. revert s Hs.
    eapply safely_bind; [apply (safely_Intn (rect w h)); lia|].
    intros y2' s [Hs Hy2]. revert s Hs.
    apply IH. unfold inside. simpl. lia.
Qed.

(** X16. FastShuffle never panics: on a board whose columns all have the
    same length, whatever the draws, every cell it draws is a cell of the
    board; it returns with a board of the same shape (or goes on drawing
    for as long as the draws share a coordinate with the visited cell).
    On a board with a single column or a single row, which NewBoard does
    not create, every draw shares a coordinate with the visited cell and
    FastShuffle never returns. *)
Theorem FastShuffle_never_panics w h b fuel src pos :
  rect w h b ->
  (FastShuffle fuel (mkWorld b src pos)).1 <> Panic /\
  (forall s', FastShuffle fuel (mkWorld b src pos) = (Ret tt, s') ->
     rect w h (board s')) /\
  ((w = 1%nat \/ h = 1%nat) -> (0 < w)%nat -> (0 < h)%nat ->
   (FastShuffle fuel (mkWorld b src pos)).1 = OutOfFuel).
Proof.
  intros Hr.
  assert (safely (fun s => rect w h (board s)) (FastShuffle fuel)
                 (fun _ s => rect w h (board s))) as Hsafe.
  { unfold FastShuffle. eapply safely_bind.
    { apply (safely_onBoard (rect w h) width
               (fun v b => rect w h b /\ v = Z.of_nat w)).
      intros b0 Hr0. rewrite width_run. by rewrite (Width_rect _ _ _ Hr0). }
    intros ? s [Hs ->]. revert s Hs.
    apply safely_forEach. intros x1 Hx1%elem_of_up.
    eapply safely_bind.
    { apply (safely_onBoard (rect w h) height
               (fun v b => rect w h b /\ v = Z.of_nat h)).
      intros b0 Hr0. by rewrite (height_run _ _ _ Hr0) by lia. }
    intros ? s [Hs ->]. revert s Hs.
    apply safely_forEach. intros y1 Hy1%elem_of_up.
    eapply safely_bind.
    { apply (safely_redraw w h fuel x1 y1); [lia|lia|].
      unfold inside. simpl. lia. }
    intros [x2 y2] s [Hs Hin]. revert s Hs.
    apply (safely_onBoard (rect w h) _ (fun _ => rect w h)).
    apply safely_swapTiles; [|done]. unfold inside. simpl. lia. }
  specialize (Hsafe (mkWorld b src pos) Hr).
  split_and!.
  - intros Hp. by destruct (FastShuffle fuel (mkWorld b src pos)) as [[[]| |] s'].
  - intros s' Hrun. by rewrite Hrun in Hsafe.
  - intros Hone Hw Hh.
    assert (forall x1 y1 x2 y2 s,
              rect w h (board s) -> (x2 = x1 /\ 0 <= x1 < 1 /\ w = 1%nat) \/
                                    (y2 = y1 /\ 0 <= y1 < 1 /\ h = 1%nat) ->
              (redraw fuel x1 y1 x2 y2 s).1 = OutOfFuel) as Hredraw.
    { clear -Hw Hh. induction fuel as [|fuel IH]; intros x1 y1 x2 y2 s Hs Hc;
        cbn [redraw].
      - rewrite decide_True by (destruct Hc as [[-> _]|[-> _]]; tauto). done.
      - rewrite decide_True by (destruct Hc as [[-> _]|[-> _]]; tauto).
        rewrite (bind_Ret _ _ _ _ _ (onBoard_run width s _ _ (width_run _))).
        rewrite (Width_rect _ _ _ Hs).
        destruct (Intn_run (Z.of_nat w) (mkWorld (board s) (rand_source s) (rand_pos s))
                    ltac:(lia)) as [H1 Hv1].
        rewrite (bind_Ret _ _ _ _ _ H1). cbn [board rand_source rand_pos] in *.
        rewrite (bind_Ret _ _ _ _ _
          (onBoard_run height (mkWorld (board s) (rand_source s) (S (rand_pos s)))
             _ _ (height_run _ _ _ Hs Hw))).
        destruct (Intn_run (Z.of_nat h)
                    (mkWorld (board s) (rand_source s) (S (rand_pos s)))
                    ltac:(lia)) as [H2 Hv2].
        rewrite (bind_Ret _ _ _ _ _ H2). cbn [board rand_source rand_pos] in *.
        apply IH; [done|]. destruct Hc as [(_ & Hx & ->)|(_ & Hy & ->)].
        + left. split; [|done]. simpl in Hv1. lia.
        + right. split; [|done]. simpl in Hv2. lia. }
    unfold FastShuffle.
    rewrite (bind_Ret _ _ _ _ _ (onBoard_run width (mkWorld b src pos) _ _ (width_run _))).
    cbn [board rand_source rand_pos]. rewrite (Width_rect _ _ _ Hr).
    specialize (Hredraw 0 0 0 0 (mkWorld b src pos) Hr).
    destruct (redraw fuel 0 0 0 0 (mkWorld b src pos)) as [r s1] eqn:Hrd.
    simpl in Hredraw.
    assert (r = OutOfFuel) as ->
      by (apply Hredraw; destruct Hone as [->| ->]; [left|right]; lia).
    destruct w as [|w]; [lia|]. rewrite up_of_nat. cbn [seq fmap list_fmap forEach].
    rewrite (bind_OutOfFuel _ _ _ s1); [done|].
    rewrite (bind_Ret _ _ _ _ _
      (onBoard_run height (mkWorld b src pos) _ _ (height_run _ _ _ Hr ltac:(lia)))).
    destruct h as [|h]; [lia|]. rewrite up_of_nat. cbn [seq fmap list_fmap forEach].
    rewrite (bind_OutOfFuel _ _ _ s1); [done|].
    by rewrite (bind_OutOfFuel _ _ _ s1).
Qed.

Lemma FastShuffle_never_panics_witness :
  (FastShuffle 3 (mkWorld (solved 2 2) draws0111 0)).1 <> Panic /\
  (FastShuffle 3 (mkWorld [[1; 2]] draws0111 0)).1 = OutOfFuel.
Proof.
  split.
  - destruct (FastShuffle_never_panics 2 2 (solved 2 2) 3 draws0111 0) as [H _].
    + apply solved_rect.
    + exact H.
  - destruct (FastShuffle_never_panics 1 2 [[1; 2]] 3 draws0111 0) as (_ & _ & H).
    + unfold rect. simpl. split; [reflexivity|]. repeat constructor.
    + apply H; [by left|lia|lia].
Defined.
(** ** The first loop of main *)


(** A pass that goes on leaves the rest of the lines to the next passes. *)
Lemma forScan_continue {R} (body : string -> M Session (option R))
    w line rest out s1 :
  body line (mkSession w rest out) = (Ret None, s1) -> stdin s1 = rest ->
  forScan body (mkSession w (line :: rest) out) = forScan body s1.
Proof.
  intros Hbody Hrest. unfold forScan. cbn [stdin length scanLoop].
  rewrite (bind_Ret _ _ _ _ _ (Scan_line _ _ _ _)).
  rewrite (bind_Ret _ _ _ _ _ Hbody). by rewrite Hrest.
Qed.

Lemma forScan_break {R} (body : string -> M Session (option R))
    w line rest out v s1 :
  body line (mkSession w rest out) = (Ret (Some v), s1) ->
  forScan body (mkSession w (line :: rest) out) = (Ret (Some v), s1).
Proof.
  intros Hbody. unfold forScan. cbn [stdin length scanLoop].
  rewrite (bind_Ret _ _ _ _ _ (Scan_line _ _ _ _)).
  by rewrite (bind_Ret _ _ _ _ _ Hbody).
Qed.

(** X18. The first loop of main makes the board from the first line that
    is acceptable: lines that are no pair of dimensions or name a side
    below 2 are passed over, an empty line stands for 5x5, any other
    acceptable line "WxH" gives the solved board of W columns and H rows;
    the lines after it are left for the game loop. *)
Theorem main_takes_the_first_acceptable_size pre line rest w h b src pos out :
  Forall sizeRejected pre -> sizeAccepted line w h ->
  exists out',
    scanSize (mkSession (mkWorld b src pos) (pre ++ line :: rest) out)
    = (Ret tt,
       mkSession (mkWorld (solved (Z.to_nat w) (Z.to_nat h)) src pos) rest out').
Proof.
  intros Hpre (Hw & Hh & Hline). unfold scanSize.
  match goal with
  | |- context [forScan ?body] => set (body' := body)
  end.
  assert (exists out',
            forScan body' (mkSession (mkWorld b src pos) (pre ++ line :: rest) out)
            = (Ret (Some tt),
               mkSession (mkWorld (solved (Z.to_nat w) (Z.to_nat h)) src pos)
                         rest out')) as [out' Hrun].
  { revert b out. induction Hpre as [|bad pre [Hne Hrej] _ IH]; intros b out.
    - exists out. apply forScan_break. unfold body'.
      assert ((if decide (length (bytes line) = 0%nat) then (5, 5, None)
               else ParseTwoDimensions line) = (w, h, None)) as ->.
      { destruct (decide (bytes line = [])) as [He|He].
        - rewrite He. simpl. destruct Hline as [-> ->]. done.
        - rewrite decide_False by (by destruct (bytes line)). done. }
      by rewrite NewBoard_run by done.
    - cbn [app].
      assert (exists b1 out1,
                body' bad (mkSession (mkWorld b src pos) (pre ++ line :: rest) out)
                = (Ret None,
                   mkSession (mkWorld b1 src pos) (pre ++ line :: rest) out1))
        as (b1 & out1 & Hbody).
      { unfold body'. rewrite decide_False by (by destruct (bytes bad)).
        destruct (ParseTwoDimensions bad) as [[w' h'] [e|]].
        - do 2 eexists. unfold bind, Print, ret. simpl. done.
        - unfold NewBoard. destruct (decide (w' <= 1)).
          + do 2 eexists. unfold bind, Print, setBoard, ret. simpl. done.
          + rewrite decide_True by tauto.
            do 2 eexists. unfold bind, Print, setBoard, ret. simpl. done. }
      destruct (IH b1 out1) as [out' Hrest]. exists out'.
      by rewrite (forScan_continue _ _ _ _ _ _ Hbody). }
  exists out'. by rewrite (bind_Ret _ _ _ _ _ Hrun).
Qed.

Lemma main_takes_the_first_acceptable_size_witness :
  exists out',
    scanSize (mkSession (mkWorld [] draws0111 0) ["big"; "4x1"; "3*2"; "1r0"] [])
    = (Ret tt, mkSession (mkWorld (solved 3 2) draws0111 0) ["1r0"] out').
Proof.
  apply (main_takes_the_first_acceptable_size ["big"; "4x1"] "3*2" ["1r0"]
           3 2 [] draws0111 0 []).
  - constructor; [|constructor; [|constructor]].
    + split; [vm_compute; congruence|].
      by replace (ParseTwoDimensions "big")
        with (0, 0, Some ErrNotADimension) by reflexivity.
    + split; [vm_compute; congruence|].
      replace (ParseTwoDimensions "4x1") with (4, 1, @None DimError) by reflexivity.
      lia.
  - unfold sizeAccepted. split; [lia|]. split; [lia|]. reflexivity.
Defined.
(** ** The game loop at the end of the input *)



(** ** A pass of the game loop on a command *)

(** The start of a pass: the board, the count and the prompt are printed. *)
Lemma gameTurn_prompt letterTable lowerTable fuel n w h b src pos lines out :
  rect w h b -> (0 < w)%nat ->
  exists out1 (body : string -> M Session (option Z)),
    gameTurn letterTable lowerTable fuel n (mkSession (mkWorld b src pos) lines out)
    = (let* r := forScan body in ret (default n r))
        (mkSession (mkWorld b src pos) lines (out ++ out1)) /\
    forall text,
      body text =
        (let s := strings_ToLower lowerTable (bytes text) in
         if decide (s = bytes "shuffle") then
           ScanShuffle lowerTable fuel ;;; ret (Some n)
         else if decide (s = bytes "reset") then
           onWorld (onBoard Reset) ;;;
           Println (bytes "Board reset") ;;;
           ret (Some 0)
         else
           let* b := gets (fun s => board (world s)) in
           match ParseMove letterTable lowerTable (ofBytes s) b with
           | Ret (inl m) =>
               let* k := onWorld (onBoard (MakeMove m)) in
               ret (Some (wrap (n + k)))
           | Ret (inr e) =>
               Print (Text (bytes "Invalid move (")) ;;;
               Print (ParseErrorText e) ;;;
               Print (Text (bytes "), try again: ")) ;;;
               ret None
           | Panic => panic
           | OutOfFuel => outOfFuel
           end).
Proof.
  intros Hr Hw. unfold gameTurn, Println.
  rewrite (bind_Ret _ _ _ _ _ (Print_run _ _)). cbn [world stdin stdout].
  rewrite (bind_Ret _ _ _ _ _ (Print_run _ _)). cbn [world stdin stdout].
  erewrite bind_Ret;
    [|apply onWorld_run; apply onBoard_run; by apply (SprintBoard_run w h)].
  cbn [world stdin stdout board rand_source rand_pos].
  rewrite (bind_Ret _ _ _ _ _ (Print_run _ _)). cbn [world stdin stdout].
  rewrite (bind_Ret _ _ _ _ _ (Print_run _ _)). cbn [world stdin stdout].
  destruct (IsSolved_decides w h b Hr Hw) as (r & Hsolved & _).
  erewrite bind_Ret; [|apply onWorld_run; apply onBoard_run; exact Hsolved].
  cbn [world stdin stdout board rand_source rand_pos].
  destruct r.
  - rewrite (bind_Ret _ _ _ _ _ (Print_run _ _)). cbn [world stdin stdout].
    rewrite (bind_Ret _ _ _ _ _ (Print_run _ _)). cbn [world stdin stdout].
    rewrite <- !app_assoc. eexists _, _. split; [reflexivity|]. done.
  - rewrite (bind_Ret (ret tt) _ _ tt _ eq_refl).
    rewrite (bind_Ret _ _ _ _ _ (Print_run _ _)). cbn [world stdin stdout].
    rewrite <- !app_assoc. eexists _, _. split; [reflexivity|]. done.
Qed.

(** X20. Typing "reset", in any mix of upper and lower case, puts the
    board back in its solved state and sets the count of moves to 0,
    whatever the count was: the pass of the game loop returns 0 and leaves
    the solved board of the same shape. *)
Theorem reset_restores_the_board_and_the_count
    letterTable lowerTable fuel n w h b src pos line rest out :
  rect w h b -> (0 < w)%nat ->
  strings_ToLower lowerTable (bytes line) = bytes "reset" ->
  exists out',
    gameTurn letterTable lowerTable fuel n
      (mkSession (mkWorld b src pos) (line :: rest) out)
    = (Ret 0, mkSession (mkWorld (solved w h) src pos) rest out').
Proof.
  intros Hr Hw Hline.
  destruct (gameTurn_prompt letterTable lowerTable fuel n w h b src pos
              (line :: rest) out Hr Hw) as (out1 & body & -> & Hbody).
  eexists. erewrite bind_Ret; cycle 1.
  { apply forScan_break. rewrite Hbody. cbn zeta. rewrite Hline.
    rewrite decide_False by (vm_compute; congruence).
    rewrite decide_True by done.
    erewrite bind_Ret;
      [|apply onWorld_run; apply onBoard_run; by apply (Reset_run w h)].
    cbn [world stdin stdout board rand_source rand_pos].
    unfold Println. rewrite (bind_Ret _ _ _ _ _ (Print_run _ _)).
    cbn [world stdin stdout]. reflexivity. }
  reflexivity.
Qed.

Lemma reset_restores_the_board_and_the_count_witness :
  exists out',
    gameTurn noLetterTable noCaseTable 0 41
      (mkSession (mkWorld [[4; 2]; [3; 1]] draws0111 0) ["Reset"; "1r0"] [])
    = (Ret 0, mkSession (mkWorld (solved 2 2) draws0111 0) ["1r0"] out').
Proof.
  apply (reset_restores_the_board_and_the_count noLetterTable noCaseTable 0 41
           2 2 [[4; 2]; [3; 1]] draws0111 0 "Reset" ["1r0"] []).
  - unfold rect. simpl. split; [reflexivity|]. repeat constructor.
  - lia.
  - reflexivity.
Defined.

(** X21. A line that is a move counts for as many moves as it has steps:
    when the line, put in lower case, is neither "shuffle" nor "reset" and
    ParseMove returns a Move for it on a board that has the line of the
    move, the pass of the game loop carries the move out and returns the
    count increased by Abs of the amount of the move (in 64-bit
    arithmetic), not by 1. *)
Theorem a_move_counts_by_its_amount
    letterTable lowerTable fuel n w h b src pos line rest out m :
  rect w h b -> (0 < w)%nat -> (0 < h)%nat ->
  strings_ToLower lowerTable (bytes line) <> bytes "shuffle" ->
  strings_ToLower lowerTable (bytes line) <> bytes "reset" ->
  ParseMove letterTable lowerTable
    (ofBytes (strings_ToLower lowerTable (bytes line))) b = Ret (inl m) ->
  line_exists (Move_Axis m) (Move_Index m) w h ->
  exists out',
    gameTurn letterTable lowerTable fuel n
      (mkSession (mkWorld b src pos) (line :: rest) out)
    = (Ret (wrap (n + Abs (Move_Amount m))),
       mkSession (mkWorld (MakeMove m b).2 src pos) rest out').
Proof.
  intros Hr Hw Hh Hns Hnr Hparse He.
  destruct (gameTurn_prompt letterTable lowerTable fuel n w h b src pos
              (line :: rest) out Hr Hw) as (out1 & body & -> & Hbody).
  pose proof (MakeMove_run m w h b Hr Hw Hh He) as Hm.
  eexists. erewrite bind_Ret; cycle 1.
  { apply forScan_break. rewrite Hbody. cbn zeta.
    rewrite decide_False by done. rewrite decide_False by done.
    erewrite (bind_Ret (gets (fun s => board (world s)))); [|reflexivity].
    cbn [world board]. rewrite Hparse.
    erewrite bind_Ret; [|apply onWorld_run; apply onBoard_run; exact Hm].
    cbn [world stdin stdout board rand_source rand_pos]. reflexivity. }
  rewrite Hm. reflexivity.
Qed.

Lemma a_move_counts_by_its_amount_witness :
  exists out',
    gameTurn noLetterTable noCaseTable 0 10
      (mkSession (mkWorld (solved 3 3) draws0111 0) ["-2C1"] [])
    = (Ret 12,
       mkSession (mkWorld (MakeMove (mkMove VerticalAxis 1 (-2)) (solved 3 3)).2
                          draws0111 0) [] out').
Proof.
  apply (a_move_counts_by_its_amount noLetterTable noCaseTable 0 10 3 3
           (solved 3 3) draws0111 0 "-2C1" [] [] (mkMove VerticalAxis 1 (-2))).
  - apply solved_rect.
  - lia.
  - lia.
  - vm_compute. congruence.
  - vm_compute. congruence.
  - vm_compute. reflexivity.
  - unfold line_exists. simpl. lia.
Defined.
